(** * MoonTVPlus: source selection, manifest ad filter, playback session
      handlers, danmaku cache gate and the OpenList admin endpoint

    A shallow embedding of the parts of
    - [src/app/play/page.tsx] (preferBestSource, calculateSourceScore,
      filterAdsFromM3U8, saveCurrentPlayProgress and the hls / canplay /
      timeupdate handlers),
    - the danmaku cache module (getDanmakuCacheExpireTime,
      saveDanmakuToCache, getDanmakuFromCache) and
    - [src/app/api/admin/openlist/route.ts] (POST)
    together with the properties the specification states about them.

    Conventions.
    - A JavaScript string is its sequence of UTF-16 code units
      ([ustring]); ASCII literals are written [str "..."].
    - A JavaScript number is [num]: NaN, the two infinities, or a finite
      value held as an exact rational.  Finite arithmetic is exact (IEEE
      rounding and overflow are not modelled) and zero is unsigned.
    - Where rounding decides a property the number is a [Double.double],
      an IEEE 754 binary64 value with the operations rounded to nearest:
      the modules [ScoringDouble], [AnyScore] and [Keyboard].
    - Effects are explicit: handlers return the actions they issue and
      the new value of every ref they assign. *)

From stdpp Require Import gmap list.
From Stdlib Require Import ZArith QArith Qround Lia Lqa Bool String Sorted.
From Stdlib Require Floats.
Close Scope Q_scope.

(* ===================================================================== *)
(** ** JavaScript numbers *)
(* ===================================================================== *)

Module JsNum.

Inductive num : Type :=
| NaN
| NInf
| PInf
| Fin (q : Q).

Definition ofZ (z : Z) : num := Fin (inject_Z z).

(** Equality of denotations: rationals are compared with [Qeq]. *)
Definition numeq (a b : num) : Prop :=
  match a, b with
  | NaN, NaN => True
  | NInf, NInf => True
  | PInf, PInf => True
  | Fin x, Fin y => (x == y)%Q
  | _, _ => False
  end.

Definition numeqb (a b : num) : bool :=
  match a, b with
  | NaN, NaN => true
  | NInf, NInf => true
  | PInf, PInf => true
  | Fin x, Fin y => Qeq_bool x y
  | _, _ => false
  end.

Definition isNaN (a : num) : bool :=
  match a with NaN => true | _ => false end.

(** Sign of a finite value, zero counted as positive zero. *)
Definition Qneg (q : Q) : bool :=
  match Qcompare q 0 with Lt => true | _ => false end.

Definition Qzero (q : Q) : bool := Qeq_bool q 0.

Definition inf (negative : bool) : num := if negative then NInf else PInf.

Definition neg (a : num) : num :=
  match a with
  | NaN => NaN
  | NInf => PInf
  | PInf => NInf
  | Fin q => Fin (- q)%Q
  end.

Definition add (a b : num) : num :=
  match a, b with
  | NaN, _ | _, NaN => NaN
  | PInf, NInf | NInf, PInf => NaN
  | PInf, _ | _, PInf => PInf
  | NInf, _ | _, NInf => NInf
  | Fin x, Fin y => Fin (x + y)%Q
  end.

Definition sub (a b : num) : num := add a (neg b).

Definition mul (a b : num) : num :=
  match a, b with
  | NaN, _ | _, NaN => NaN
  | Fin x, Fin y => Fin (x * y)%Q
  | Fin x, PInf | PInf, Fin x => if Qzero x then NaN else inf (Qneg x)
  | Fin x, NInf | NInf, Fin x => if Qzero x then NaN else inf (negb (Qneg x))
  | PInf, PInf | NInf, NInf => PInf
  | PInf, NInf | NInf, PInf => NInf
  end.

Definition div (a b : num) : num :=
  match a, b with
  | NaN, _ | _, NaN => NaN
  | Fin x, Fin y =>
      if Qzero y then (if Qzero x then NaN else inf (Qneg x))
      else Fin (x / y)%Q
  | Fin _, (PInf | NInf) => Fin 0
  | PInf, Fin y => inf (Qneg y)
  | NInf, Fin y => inf (negb (Qneg y))
  | (PInf | NInf), (PInf | NInf) => NaN
  end.

(** Relational operators: every comparison with NaN is false. *)
Definition lt (a b : num) : bool :=
  match a, b with
  | NaN, _ | _, NaN => false
  | _, NInf => false
  | NInf, _ => true
  | PInf, _ => false
  | Fin _, PInf => true
  | Fin x, Fin y => match Qcompare x y with Lt => true | _ => false end
  end.

Definition le (a b : num) : bool :=
  match a, b with
  | NaN, _ | _, NaN => false
  | NInf, _ => true
  | _, PInf => true
  | _, NInf => false
  | PInf, _ => false
  | Fin x, Fin y => match Qcompare x y with Gt => false | _ => true end
  end.

Definition gt (a b : num) : bool := lt b a.
Definition ge (a b : num) : bool := le b a.

(** [===] on numbers. *)
Definition strictEq (a b : num) : bool :=
  match a, b with
  | NInf, NInf | PInf, PInf => true
  | Fin x, Fin y => Qeq_bool x y
  | _, _ => false
  end.

(** ToBoolean. *)
Definition truthy (a : num) : bool :=
  match a with
  | NaN => false
  | Fin q => negb (Qzero q)
  | _ => true
  end.

(** [a || b] and [a && b] on numbers. *)
Definition orElse (a b : num) : num := if truthy a then a else b.

(** Math.max / Math.min of two arguments. *)
Definition max (a b : num) : num :=
  match a, b with
  | NaN, _ | _, NaN => NaN
  | _, _ => if lt a b then b else a
  end.

Definition min (a b : num) : num :=
  match a, b with
  | NaN, _ | _, NaN => NaN
  | _, _ => if lt b a then b else a
  end.

(** Math.floor and Math.round (ties go up). *)
Definition floor (a : num) : num :=
  match a with
  | Fin q => ofZ (Qfloor q)
  | _ => a
  end.

Definition round (a : num) : num :=
  match a with
  | Fin q => ofZ (Qfloor (q + (1 # 2)))
  | _ => a
  end.

Declare Scope num_scope.
Delimit Scope num_scope with num.
Bind Scope num_scope with num.
Notation "a + b" := (add a b) : num_scope.
Notation "a - b" := (sub a b) : num_scope.
Notation "a * b" := (mul a b) : num_scope.
Notation "a / b" := (div a b) : num_scope.
Notation "a == b" := (numeq a b) (at level 70, no associativity) : num_scope.
Notation "a <? b" := (lt a b) : num_scope.
Notation "a <=? b" := (le a b) : num_scope.
Notation "a >? b" := (gt a b) : num_scope.
Notation "a >=? b" := (ge a b) : num_scope.

(** Numeric literals used by the sources. *)
Definition n0 : num := ofZ 0.
Definition n100 : num := ofZ 100.
Definition dec (numerator : Z) (denominator : positive) : num :=
  Fin (numerator # denominator).

(** A value that is not below zero; NaN and +Infinity qualify. *)
Definition notNegative (x : num) : Prop :=
  match x with
  | NInf => False
  | Fin q => (0 <= q)%Q
  | _ => True
  end.

End JsNum.
Import JsNum.

(* ===================================================================== *)
(** ** JavaScript strings *)
(* ===================================================================== *)

Module JsString.

(** A string is its sequence of UTF-16 code units. *)
Definition ustring : Type := list N.

(** An ASCII literal as a JavaScript string. *)
Definition str (s : string) : ustring :=
  List.map (fun b => Byte.to_N b) (list_byte_of_string s).

Definition ueqb (a b : ustring) : bool := bool_decide (a = b).

(** [s.startsWith(needle)] and [s.includes(needle)]. *)
Fixpoint startsWith (needle s : ustring) : bool :=
  match needle, s with
  | [], _ => true
  | _ :: _, [] => false
  | a :: needle', b :: s' => N.eqb a b && startsWith needle' s'
  end.

Fixpoint includes (s needle : ustring) : bool :=
  startsWith needle s ||
  match s with
  | [] => false
  | _ :: s' => includes s' needle
  end.

(** [s.split(sep)] and [parts.join(sep)] for a one-unit separator. *)
Fixpoint split (sep : N) (s : ustring) : list ustring :=
  match s with
  | [] => [[]]
  | c :: s' =>
      if N.eqb c sep then [] :: split sep s'
      else match split sep s' with
           | [] => [[c]]
           | l :: ls => (c :: l) :: ls
           end
  end.

Fixpoint join (sep : N) (parts : list ustring) : ustring :=
  match parts with
  | [] => []
  | [l] => l
  | l :: parts' => l ++ sep :: join sep parts'
  end.

Definition LF : N := 10%N.

(** The regular-expression classes [\d] and [\s] of ECMAScript. *)
Definition isDigit (c : N) : bool := (48 <=? c)%N && (c <=? 57)%N.

Definition isSpace (c : N) : bool :=
  ((9 <=? c)%N && (c <=? 13)%N) || (c =? 32)%N || (c =? 160)%N ||
  (c =? 5760)%N || ((8192 <=? c)%N && (c <=? 8202)%N) ||
  (c =? 8232)%N || (c =? 8233)%N || (c =? 8239)%N || (c =? 8287)%N ||
  (c =? 12288)%N || (c =? 65279)%N.

Fixpoint span (p : N -> bool) (s : ustring) : ustring * ustring :=
  match s with
  | [] => ([], [])
  | c :: s' =>
      if p c then let '(a, b) := span p s' in (c :: a, b)
      else ([], s)
  end.

Definition digitValue (c : N) : Z := Z.of_N c - 48.

(** Value of a run of decimal digits, most significant first. *)
Definition decimalValue (digits : ustring) : Z :=
  fold_left (fun acc c => 10 * acc + digitValue c)%Z digits 0%Z.

(** [parseFloat] on literals without sign or exponent: an integer part,
    then optionally a dot and a fraction; whatever follows is ignored, and
    a text with no digit in that prefix is NaN.  (The one call site passes
    the regex group [[\d.]+], which has no other characters.) *)
Definition parseFloat (s : ustring) : num :=
  let '(ip, rest) := span isDigit s in
  let fp :=
    match rest with
    | c :: rest' => if (c =? 46)%N then fst (span isDigit rest') else []
    | [] => []
    end in
  match ip, fp with
  | [], [] => NaN
  | _, _ =>
      Fin (inject_Z (decimalValue ip) +
           inject_Z (decimalValue fp) / inject_Z (10 ^ Z.of_nat (List.length fp)))%Q
  end.

(** Hexadecimal digit value, if [c] is one. *)
Definition hexValue (c : N) : option Z :=
  if isDigit c then Some (Z.of_N c - 48)%Z
  else if (97 <=? c)%N && (c <=? 102)%N then Some (Z.of_N c - 87)%Z
  else if (65 <=? c)%N && (c <=? 70)%N then Some (Z.of_N c - 55)%Z
  else None.

Definition isHexDigit (c : N) : bool :=
  match hexValue c with Some _ => true | None => false end.

Definition hexadecimalValue (digits : ustring) : Z :=
  fold_left (fun acc c => 16 * acc + default 0 (hexValue c))%Z digits 0%Z.

Definition skipSpace (s : ustring) : ustring := snd (span isSpace s).

(** Leading sign of a numeric text: the sign and the remaining text. *)
Definition takeSign (s : ustring) : bool * ustring :=
  match s with
  | 45%N :: s' => (true, s')
  | 43%N :: s' => (false, s')
  | _ => (false, s)
  end.

Definition signed (negative : bool) (z : Z) : Z :=
  if negative then (- z)%Z else z.

(** [parseInt(s, 10)]: [None] is NaN. *)
Definition parseInt10 (s : ustring) : option Z :=
  let '(negative, body) := takeSign (skipSpace s) in
  match fst (span isDigit body) with
  | [] => None
  | digits => Some (signed negative (decimalValue digits))
  end.

(** [parseInt(s)] with no radix: a [0x] or [0X] prefix selects base 16. *)
Definition parseInt (s : ustring) : option Z :=
  let '(negative, body) := takeSign (skipSpace s) in
  match body with
  | 48%N :: (120%N | 88%N) :: hex =>
      match fst (span isHexDigit hex) with
      | [] => None
      | digits => Some (signed negative (hexadecimalValue digits))
      end
  | _ =>
      match fst (span isDigit body) with
      | [] => None
      | digits => Some (signed negative (decimalValue digits))
      end
  end.

End JsString.
Import JsString.

(* ===================================================================== *)
(** ** JavaScript numbers in binary64 *)
(* ===================================================================== *)

Module Double.

Import Floats JsNum.
Local Open Scope Z_scope.

(** A JavaScript number as the engine holds it: an IEEE 754 binary64
    value, with one NaN. *)
Definition double : Set := float.

(** The number nearest to a rational, ties to the even mantissa, infinite
    beyond the range: how a decimal literal or text becomes a number. *)
Definition ofQ (q : Q) : double :=
  let r := Qred q in
  match Qnum r with
  | Z0 => zero
  | Zpos n =>
      SF2Prim (SF64div (S754_finite false n 0) (S754_finite false (Qden r) 0))
  | Zneg n =>
      SF2Prim (SF64div (S754_finite true n 0) (S754_finite false (Qden r) 0))
  end.

Definition ofZ (z : Z) : double := ofQ (inject_Z z).

(** The number a [num] of the exact model stands for. *)
Definition ofNum (a : num) : double :=
  match a with
  | NaN => nan
  | NInf => neg_infinity
  | PInf => infinity
  | Fin q => ofQ q
  end.

(** [Math.max] and [Math.min] of two arguments: NaN if either is, and
    [+0] above [-0]. *)
Definition max (a b : double) : double :=
  if is_nan a || is_nan b then nan
  else if PrimFloat.ltb a b then b
  else if PrimFloat.ltb b a then a
  else if get_sign a then b else a.

Definition min (a b : double) : double :=
  if is_nan a || is_nan b then nan
  else if PrimFloat.ltb a b then a
  else if PrimFloat.ltb b a then b
  else if get_sign a then a else b.

(** [Math.round]: the nearest integer, a tie going up; [-0] for [-0] and
    for what lies from [-0.5] up to it.  A number with no fractional bit
    is returned as it is. *)
Definition round (x : double) : double :=
  match Prim2SF x with
  | S754_finite s m e =>
      if (0 <=? e)%Z then x
      else
        let scale := (2 ^ (- e))%Z in
        let twice := (2 * (if s then Zneg m else Zpos m))%Z in
        let n := ((twice + scale) / (2 * scale))%Z in
        if (n =? 0)%Z then (if s then neg_zero else zero)
        else SF2Prim (binary_normalize prec emax n 0 false)
  | _ => x
  end.

(** *** The order of the numbers *)

(** A key whose lexicographic order is the order of the numbers; NaN has
    none. *)
Definition rank (x : spec_float) : option (Z * Z * Z) :=
  match x with
  | S754_nan => None
  | S754_infinity true => Some (-2, 0, 0)
  | S754_finite true m e => Some (-1, - e, Zneg m)
  | S754_zero _ => Some (0, 0, 0)
  | S754_finite false m e => Some (1, e, Zpos m)
  | S754_infinity false => Some (2, 0, 0)
  end.

Definition lex (a b : Z * Z * Z) : comparison :=
  match fst (fst a) ?= fst (fst b) with
  | Eq => match snd (fst a) ?= snd (fst b) with
          | Eq => snd a ?= snd b
          | c => c
          end
  | c => c
  end.

End Double.

(* ===================================================================== *)
(** ** Source probing, scoring and selection (play/page.tsx) *)
(* ===================================================================== *)

Module Scoring.

Local Open Scope num_scope.

(** The measurement returned by [getVideoResolutionFromM3u8]. *)
Record TestResult : Type := {
  quality : ustring;
  loadSpeed : ustring;
  pingTime : num
}.

(** The fields of [SearchResult] that selection reads; [episodes] may be
    missing. *)
Record SearchResult : Type := {
  source : ustring;
  id : ustring;
  source_name : ustring;
  episodes : option (list ustring)
}.

(** The two placeholder speed texts, '未知' and '测量中...'. *)
Definition speedUnknown : ustring := [26410; 30693]%N.
Definition speedMeasuring : ustring := [27979; 37327; 20013; 46; 46; 46]%N.

Definition isDigitOrDot (c : N) : bool := isDigit c || (c =? 46)%N.

(** [speedStr.match(/^([\d.]+)\s*(KB\/s|MB\/s)$/)]: groups 1 and 2.  The
    three parts use disjoint character classes, so the greedy match is the
    only one. *)
Definition matchSpeed (speedStr : ustring) : option (ustring * ustring) :=
  let '(value, rest) := span isDigitOrDot speedStr in
  let unit := skipSpace rest in
  match value with
  | [] => None
  | _ =>
      if ueqb unit (str "KB/s") || ueqb unit (str "MB/s")
      then Some (value, unit)
      else None
  end.

Definition n30 : num := ofZ 30.
Definition n1024 : num := ofZ 1024.

Definition qualityScore (quality : ustring) : num :=
  if ueqb quality (str "4K") then ofZ 100
  else if ueqb quality (str "2K") then ofZ 85
  else if ueqb quality (str "1080p") then ofZ 75
  else if ueqb quality (str "720p") then ofZ 60
  else if ueqb quality (str "480p") then ofZ 40
  else if ueqb quality (str "SD") then ofZ 20
  else ofZ 0.

Definition speedScore (speedStr : ustring) (maxSpeed : num) : num :=
  if ueqb speedStr speedUnknown || ueqb speedStr speedMeasuring then n30
  else
    match matchSpeed speedStr with
    | None => n30
    | Some (digits, unit) =>
        let value := parseFloat digits in
        let speedKBps := if ueqb unit (str "MB/s") then value * n1024 else value in
        let speedRatio := speedKBps / maxSpeed in
        min n100 (max n0 (speedRatio * n100))
    end.

Definition pingScore (ping minPing maxPing : num) : num :=
  if ping <=? n0 then n0
  else if strictEq maxPing minPing then n100
  else
    let pingRatio := (maxPing - ping) / (maxPing - minPing) in
    min n100 (max n0 (pingRatio * n100)).

Definition calculateSourceScore (testResult : TestResult)
    (maxSpeed minPing maxPing : num) : num :=
  let score := n0 in
  let score := score + qualityScore (quality testResult) * dec 4 10 in
  let score := score + speedScore (loadSpeed testResult) maxSpeed * dec 4 10 in
  let score := score + pingScore (pingTime testResult) minPing maxPing * dec 2 10 in
  round (score * n100) / n100.

(** *** Batch bounds, as [preferBestSource] derives them *)

(** The speed of one result in KB/s, 0 when it has none. *)
Definition speedKBpsOf (speedStr : ustring) : num :=
  if ueqb speedStr speedUnknown || ueqb speedStr speedMeasuring then n0
  else
    match matchSpeed speedStr with
    | None => n0
    | Some (digits, unit) =>
        let value := parseFloat digits in
        if ueqb unit (str "MB/s") then value * n1024 else value
    end.

Definition validSpeeds (results : list TestResult) : list num :=
  List.filter (fun speed => speed >? n0)
              (List.map (fun r => speedKBpsOf (loadSpeed r)) results).

Definition validPings (results : list TestResult) : list num :=
  List.filter (fun ping => ping >? n0) (List.map pingTime results).

(** [Math.max(...xs)] and [Math.min(...xs)]. *)
Definition maxOf (xs : list num) : num := fold_right max NInf xs.
Definition minOf (xs : list num) : num := fold_right min PInf xs.

Definition batchMaxSpeed (results : list TestResult) : num :=
  match validSpeeds results with
  | [] => n1024
  | speeds => maxOf speeds
  end.

Definition batchMinPing (results : list TestResult) : num :=
  match validPings results with
  | [] => ofZ 50
  | pings => minOf pings
  end.

Definition batchMaxPing (results : list TestResult) : num :=
  match validPings results with
  | [] => ofZ 1000
  | pings => maxOf pings
  end.

(** *** preferBestSource *)

(** A call either returns or throws. *)
Inductive outcome (A : Type) : Type :=
| Returned (a : A)
| Thrown.
Arguments Returned {A} a.
Arguments Thrown {A}.

Definition bind {A B : Type} (o : outcome A) (k : A -> outcome B) : outcome B :=
  match o with
  | Returned a => k a
  | Thrown => Thrown
  end.

Notation "'let!' x ':=' o 'in' k" := (bind o (fun x => k))
  (at level 10, x name, o at level 100, k at level 200, only parsing).

(** Reading a property of [o], which throws when [o] is undefined. *)
Definition defined {A : Type} (o : option A) : outcome A :=
  match o with
  | Some a => Returned a
  | None => Thrown
  end.

Definition Probed : Type := SearchResult * TestResult.

(** [array.slice(start, stop)]. *)
Definition slice {A : Type} (start stop : nat) (l : list A) : list A :=
  take (stop - start) (drop start l).

(** [array.sort((a, b) => b.score - a.score)]: a stable insertion sort
    under that comparator (a negative result puts [a] first, NaN counts as
    zero). *)
Definition comparator (a b : Probed * num) : num := snd b - snd a.

Fixpoint insertSorted (x : Probed * num) (sorted : list (Probed * num))
  : list (Probed * num) :=
  match sorted with
  | [] => [x]
  | y :: rest =>
      if comparator x y <? n0 then x :: y :: rest
      else y :: insertSorted x rest
  end.

Definition sortByScore (l : list (Probed * num)) : list (Probed * num) :=
  fold_left (fun sorted x => insertSorted x sorted) l [].

(** What one selection round produces: the value returned ([None] is
    [undefined]) and the map handed to [setPrecomputedVideoInfo], if the
    setter was called. *)
Record Selection : Type := {
  chosen : option SearchResult;
  published : option (gmap ustring TestResult)
}.

Section Probing.

(** The external measurement: [None] when the promise rejects. *)
Variable getVideoResolutionFromM3u8 : ustring -> option TestResult.

(** The body of the [batchSources.map] callback: the second episode when
    there is one, and [null] for a source without episodes or a failed
    measurement. *)
Definition probeSource (src : SearchResult) : option Probed :=
  match episodes src with
  | None | Some [] => None
  | Some (first :: others) =>
      let episodeUrl :=
        match others with
        | second :: _ => second
        | [] => first
        end in
      match getVideoResolutionFromM3u8 episodeUrl with
      | Some testResult => Some (src, testResult)
      | None => None
      end
  end.

(** The loop [for (start = 0; start < sources.length; start += batchSize)];
    [fuel] bounds the number of iterations. *)
Fixpoint probeBatches (fuel start batchSize : nat) (sources : list SearchResult)
    (allResults : list (option Probed)) : list (option Probed) :=
  match fuel with
  | O => allResults
  | S fuel' =>
      if (start <? List.length sources)%nat then
        let batchSources := slice start (start + batchSize) sources in
        let batchResults := List.map probeSource batchSources in
        probeBatches fuel' (start + batchSize) batchSize sources
                     (allResults ++ batchResults)
      else allResults
  end.

(** The [allResults.forEach] callback. *)
Definition recordResult (sources : list SearchResult)
    (acc : outcome (gmap ustring TestResult))
    (entry : nat * option Probed) : outcome (gmap ustring TestResult) :=
  let! m := acc in
  let! src := defined (sources !! fst entry) in
  let sourceKey := source src ++ str "-" ++ id src in
  Returned match snd entry with
           | Some result => <[sourceKey := snd result]> m
           | None => m
           end.

Definition withScores (successfulResults : list Probed) : list (Probed * num) :=
  let tests := List.map snd successfulResults in
  let maxSpeed := batchMaxSpeed tests in
  let minPing := batchMinPing tests in
  let maxPing := batchMaxPing tests in
  List.map (fun result =>
              (result, calculateSourceScore (snd result) maxSpeed minPing maxPing))
           successfulResults.

Definition preferBestSource (sources : list SearchResult) : outcome Selection :=
  if (List.length sources =? 1)%nat then
    Returned {| chosen := sources !! 0%nat; published := None |}
  else
    let batchSize := Nat.div (List.length sources + 1) 2 in
    let allResults := probeBatches (List.length sources) 0 batchSize sources [] in
    let! newVideoInfoMap :=
      fold_left (recordResult sources) (imap pair allResults) (Returned ∅) in
    let successfulResults := omap (fun r => r) allResults in
    if (List.length successfulResults =? 0)%nat then
      Returned {| chosen := sources !! 0%nat; published := Some newVideoInfoMap |}
    else
      let! best := defined (sortByScore (withScores successfulResults) !! 0%nat) in
      Returned {| chosen := Some (fst (fst best));
                  published := Some newVideoInfoMap |}.

End Probing.

(** *** The scoring rule in the specification's words *)

(** A probe result's speed as the specification has it. *)
Inductive SpeedReading : Type :=
| Unknown
| Measuring
| KBps (kbps : num).

(** The reading a speed text stands for, when it is one of the three. *)
Definition speedReading (speedStr : ustring) : option SpeedReading :=
  if ueqb speedStr speedUnknown then Some Unknown
  else if ueqb speedStr speedMeasuring then Some Measuring
  else
    match matchSpeed speedStr with
    | None => None
    | Some (digits, unit) =>
        let value := parseFloat digits in
        Some (KBps (if ueqb unit (str "MB/s") then n1024 * value else value))
    end.

Definition spec_quality (quality : ustring) : num :=
  if ueqb quality (str "4K") then ofZ 100
  else if ueqb quality (str "2K") then ofZ 85
  else if ueqb quality (str "1080p") then ofZ 75
  else if ueqb quality (str "720p") then ofZ 60
  else if ueqb quality (str "480p") then ofZ 40
  else if ueqb quality (str "SD") then ofZ 20
  else ofZ 0.

Definition spec_speed (reading : SpeedReading) (max_speed_observed : num) : num :=
  match reading with
  | Unknown | Measuring => ofZ 30
  | KBps measured_kbps => min (ofZ 100) (ofZ 100 * measured_kbps / max_speed_observed)
  end.

Definition clamp (lo hi x : num) : num := min hi (max lo x).

Definition spec_latency (latency min_latency max_latency : num) : num :=
  if latency <=? ofZ 0 then ofZ 0
  else if strictEq max_latency min_latency then ofZ 100
  else clamp (ofZ 0) (ofZ 100)
             (ofZ 100 * (max_latency - latency) / (max_latency - min_latency)).

(** Rounding to two decimal places, halves up. *)
Definition round2 (x : num) : num :=
  match x with
  | Fin q => Fin (Qfloor (q * 100 + (1 # 2)) # 100)
  | _ => x
  end.

Definition spec_score (quality : ustring) (reading : SpeedReading)
    (latency max_speed_observed min_latency max_latency : num) : num :=
  round2 (dec 4 10 * spec_quality quality
          + dec 4 10 * spec_speed reading max_speed_observed
          + dec 2 10 * spec_latency latency min_latency max_latency).

(** *** Ranking *)

(** Adjacent entries of a ranking: the earlier score is not below the
    later one. *)
Definition notBelow (x y : Probed * num) : Prop := (snd x <? snd y) = false.

(** A list of scored results none of whose scores is NaN. *)
Definition scored (l : list (Probed * num)) : Prop :=
  Forall (fun x => isNaN (snd x) = false) l.

(** The entries whose score is the number [v]. *)
Definition tiedAt (v : num) (x : Probed * num) : bool := numeqb (snd x) v.

(** The claim: under the same bounds, results that differ in a field
    never score the same. *)
Definition noTiesUnlessIdentical : Prop :=
  forall (a b : TestResult) (maxSpeed minPing maxPing : num),
    quality a <> quality b \/ loadSpeed a <> loadSpeed b \/
    ~ pingTime a == pingTime b ->
    ~ calculateSourceScore a maxSpeed minPing maxPing
      == calculateSourceScore b maxSpeed minPing maxPing.

(** *** Sample data *)

Definition tieA : TestResult :=
  {| quality := str "720p"; loadSpeed := str "2.0 MB/s"; pingTime := ofZ 80 |}.
Definition tieB : TestResult :=
  {| quality := str "4K"; loadSpeed := str "1.2 MB/s"; pingTime := ofZ 80 |}.

Definition sampleResult : TestResult :=
  {| quality := str "1080p"; loadSpeed := str "3.2 MB/s"; pingTime := ofZ 40 |}.

Definition noEpisodes : SearchResult :=
  {| source := str "a"; id := str "1"; source_name := str "A"; episodes := None |}.
Definition oneEpisode : SearchResult :=
  {| source := str "b"; id := str "2"; source_name := str "B";
     episodes := Some [str "https://b/1.m3u8"] |}.

(** Three scored results, the last two tied. *)
Definition tiedRanking : list (Probed * num) :=
  [((noEpisodes, sampleResult), dec 70 1);
   ((oneEpisode, tieA), dec 84 1);
   ((noEpisodes, tieB), dec 84 1)].

(** Four candidates of which the second and the fourth can be measured. *)
Definition candidate (name : string) : SearchResult :=
  {| source := str name; id := str "7"; source_name := str name;
     episodes := Some [str name ++ str "/1.m3u8"; str name ++ str "/2.m3u8"] |}.

Definition fourCandidates : list SearchResult :=
  [candidate "s1"; candidate "s2"; candidate "s3"; candidate "s4"].

Definition twoAnswer (url : ustring) : option TestResult :=
  if ueqb url (str "s2/2.m3u8") then
    Some {| quality := str "720p"; loadSpeed := str "1.5MB/s"; pingTime := ofZ 90 |}
  else if ueqb url (str "s4/2.m3u8") then
    Some {| quality := str "1080p"; loadSpeed := str "3.2MB/s"; pingTime := ofZ 40 |}
  else None.

End Scoring.

(* ===================================================================== *)
(** ** Scoring in binary64 *)
(* ===================================================================== *)

Module ScoringDouble.

Import Floats JsNum JsString Double.
Local Open Scope float_scope.
#[local] Set Warnings "-inexact-float".

(** The measurement, its latency a number as the engine holds it. *)
Record TestResult : Type := {
  quality : ustring;
  loadSpeed : ustring;
  pingTime : double
}.

(** [parseFloat] on the text of regex group 1: the number nearest to the
    decimal value read. *)
Definition parseFloat (s : ustring) : double := ofNum (JsString.parseFloat s).

Definition qualityScore (quality : ustring) : double :=
  if ueqb quality (str "4K") then 100
  else if ueqb quality (str "2K") then 85
  else if ueqb quality (str "1080p") then 75
  else if ueqb quality (str "720p") then 60
  else if ueqb quality (str "480p") then 40
  else if ueqb quality (str "SD") then 20
  else 0.

Definition speedScore (speedStr : ustring) (maxSpeed : double) : double :=
  if ueqb speedStr Scoring.speedUnknown || ueqb speedStr Scoring.speedMeasuring
  then 30
  else
    match Scoring.matchSpeed speedStr with
    | None => 30
    | Some (digits, unit) =>
        let value := parseFloat digits in
        let speedKBps := if ueqb unit (str "MB/s") then value * 1024 else value in
        let speedRatio := speedKBps / maxSpeed in
        min 100 (max 0 (speedRatio * 100))
    end.

Definition pingScore (ping minPing maxPing : double) : double :=
  if ping <=? 0 then 0
  else if maxPing =? minPing then 100
  else
    let pingRatio := (maxPing - ping) / (maxPing - minPing) in
    min 100 (max 0 (pingRatio * 100)).

Definition calculateSourceScore (testResult : TestResult)
    (maxSpeed minPing maxPing : double) : double :=
  let score := 0 in
  let score := score + qualityScore (quality testResult) * 0.4 in
  let score := score + speedScore (loadSpeed testResult) maxSpeed * 0.4 in
  let score := score + pingScore (pingTime testResult) minPing maxPing * 0.2 in
  round (score * 100) / 100.

(** *** Batch bounds, as [preferBestSource] derives them *)

Definition speedKBpsOf (speedStr : ustring) : double :=
  if ueqb speedStr Scoring.speedUnknown || ueqb speedStr Scoring.speedMeasuring
  then 0
  else
    match Scoring.matchSpeed speedStr with
    | None => 0
    | Some (digits, unit) =>
        let value := parseFloat digits in
        if ueqb unit (str "MB/s") then value * 1024 else value
    end.

Definition validSpeeds (results : list TestResult) : list double :=
  List.filter (fun speed => 0 <? speed)
              (List.map (fun r => speedKBpsOf (loadSpeed r)) results).

Definition validPings (results : list TestResult) : list double :=
  List.filter (fun ping => 0 <? ping) (List.map pingTime results).

(** [Math.max(...xs)] and [Math.min(...xs)]. *)
Definition maxOf (xs : list double) : double := fold_right max neg_infinity xs.
Definition minOf (xs : list double) : double := fold_right min infinity xs.

Definition batchMaxSpeed (results : list TestResult) : double :=
  match validSpeeds results with
  | [] => 1024
  | speeds => maxOf speeds
  end.

Definition batchMinPing (results : list TestResult) : double :=
  match validPings results with
  | [] => 50
  | pings => minOf pings
  end.

Definition batchMaxPing (results : list TestResult) : double :=
  match validPings results with
  | [] => 1000
  | pings => maxOf pings
  end.

(** *** The scoring rule in the specification's words, each operation
    rounded to the nearest number *)

(** What a speed text says: one of the two placeholders, a speed in
    KB/s, or nothing that can be read. *)
Inductive SpeedReading : Type :=
| Placeholder
| Measured (measured_kbps : double)
| Unreadable.

Definition digits (s : ustring) : Prop := Forall (fun c => isDigit c = true) s.
Definition digitsAndDots (s : ustring) : Prop :=
  Forall (fun c => isDigit c = true \/ c = 46%N) s.
Definition spaces (s : ustring) : Prop := Forall (fun c => isSpace c = true) s.
Definition unitText (unit : ustring) : Prop :=
  unit = str "KB/s" \/ unit = str "MB/s".

(** The value of decimal digits by position: the integer that digits
    before the point write, and the fraction that digits after it
    write. *)
Fixpoint natural (ds : ustring) : Z :=
  match ds with
  | [] => 0
  | c :: rest => ((Z.of_N c - 48) * 10 ^ Z.of_nat (List.length rest) + natural rest)%Z
  end.

Fixpoint fraction (ds : ustring) : Q :=
  match ds with
  | [] => 0%Q
  | c :: rest => ((inject_Z (Z.of_N c - 48) + fraction rest) / 10)%Q
  end.

(** The number a decimal numeral with integer digits [ip] and fraction
    digits [fp] denotes; with no digit at all it is NaN. *)
Definition decimal (ip fp : ustring) : double :=
  match ip, fp with
  | [], [] => nan
  | _, _ => ofQ (inject_Z (natural ip) + fraction fp)
  end.

(** A text of digits and points, with the integer and fraction digits of
    the decimal numeral it begins with: what follows a second point is
    not read. *)
Inductive numeral : ustring -> ustring -> ustring -> Prop :=
| numeral_integer (ip : ustring) :
    ip <> [] -> digits ip -> numeral ip ip []
| numeral_fraction (ip fp more : ustring) :
    digits ip -> digits fp -> digitsAndDots more ->
    (more = [] \/ exists more', more = 46%N :: more') ->
    numeral (ip ++ 46%N :: fp ++ more) ip fp.

Definition kilobytes (unit : ustring) (value : double) : double :=
  if ueqb unit (str "MB/s") then value * 1024 else value.

Inductive reads : ustring -> SpeedReading -> Prop :=
| reads_unknown : reads Scoring.speedUnknown Placeholder
| reads_measuring : reads Scoring.speedMeasuring Placeholder
| reads_measured (text ip fp blank unit : ustring) :
    numeral text ip fp -> spaces blank -> unitText unit ->
    reads (text ++ blank ++ unit) (Measured (kilobytes unit (decimal ip fp)))
| reads_unreadable (speedStr : ustring) :
    speedStr <> Scoring.speedUnknown -> speedStr <> Scoring.speedMeasuring ->
    (forall text blank unit,
        text <> [] -> digitsAndDots text -> spaces blank -> unitText unit ->
        speedStr <> text ++ blank ++ unit) ->
    reads speedStr Unreadable.

Definition qualityTable : list (ustring * double) :=
  [(str "4K", 100); (str "2K", 85); (str "1080p", 75); (str "720p", 60);
   (str "480p", 40); (str "SD", 20)].

Definition spec_quality (quality : ustring) : double :=
  match List.find (fun entry => ueqb (fst entry) quality) qualityTable with
  | Some entry => snd entry
  | None => 0
  end.

Definition clamp (x : double) : double := min 100 (max 0 x).

Definition spec_speed (reading : SpeedReading) (max_speed_observed : double)
  : double :=
  match reading with
  | Measured measured_kbps => clamp (measured_kbps / max_speed_observed * 100)
  | Placeholder | Unreadable => 30
  end.

Definition spec_latency (latency min_latency max_latency : double) : double :=
  if latency <=? 0 then 0
  else if max_latency =? min_latency then 100
  else clamp ((max_latency - latency) / (max_latency - min_latency) * 100).

Definition round2 (x : double) : double := round (x * 100) / 100.

Definition spec_score (quality : ustring) (reading : SpeedReading)
    (latency max_speed_observed min_latency max_latency : double) : double :=
  round2 (spec_quality quality * 0.4
          + spec_speed reading max_speed_observed * 0.4
          + spec_latency latency min_latency max_latency * 0.2).

(** A speed that counts for the batch maximum: a reading above zero. *)
Definition measurable (reading : SpeedReading) : option double :=
  match reading with
  | Measured measured_kbps =>
      if 0 <? measured_kbps then Some measured_kbps else None
  | Placeholder | Unreadable => None
  end.

Definition max_speed_observed (readings : list SpeedReading) : double :=
  match omap measurable readings with
  | [] => 1024
  | speeds => maxOf speeds
  end.

(** *** Sample data *)

(** 4K at 125 KB/s and 70 ms, under bounds 192 KB/s, 40 ms and 130 ms. *)
Definition nearHalfCent : TestResult :=
  {| quality := str "4K"; loadSpeed := str "125 KB/s"; pingTime := 70 |}.

(** A speed text whose numeral has no digit. *)
Definition noDigit : TestResult :=
  {| quality := str "4K"; loadSpeed := str ". KB/s"; pingTime := 70 |}.

Definition threeMegabytes : TestResult :=
  {| quality := str "1080p"; loadSpeed := str "3.2 MB/s"; pingTime := 40 |}.

End ScoringDouble.

(* ===================================================================== *)
(** ** Selection under any scoring *)
(* ===================================================================== *)

Module AnyScore.

Import Floats Scoring.

(** The selection round with the scoring left open: [scoreAmong tests
    testResult] stands for the number that lines 523 to 556 give a
    measurement among the batch's measurements (the three bounds, then
    [calculateSourceScore]), in whatever arithmetic. *)
Section Scorer.

Variable getVideoResolutionFromM3u8 : ustring -> option TestResult.
Variable scoreAmong : list TestResult -> TestResult -> num.

Definition withScores (successfulResults : list Probed) : list (Probed * num) :=
  let tests := List.map snd successfulResults in
  List.map (fun result => (result, scoreAmong tests (snd result)))
           successfulResults.

Definition preferBestSource (sources : list SearchResult) : outcome Selection :=
  if (List.length sources =? 1)%nat then
    Returned {| chosen := sources !! 0%nat; published := None |}
  else
    let batchSize := Nat.div (List.length sources + 1) 2 in
    let allResults :=
      probeBatches getVideoResolutionFromM3u8 (List.length sources) 0 batchSize
                   sources [] in
    let! newVideoInfoMap :=
      fold_left (recordResult sources) (imap pair allResults) (Returned ∅) in
    let successfulResults := omap (fun r => r) allResults in
    if (List.length successfulResults =? 0)%nat then
      Returned {| chosen := sources !! 0%nat; published := Some newVideoInfoMap |}
    else
      let! best := defined (sortByScore (withScores successfulResults) !! 0%nat) in
      Returned {| chosen := Some (fst (fst best));
                  published := Some newVideoInfoMap |}.

End Scorer.

(** The scores of the exact model. *)
Definition exactScore (tests : list TestResult) (testResult : TestResult) : num :=
  calculateSourceScore testResult (batchMaxSpeed tests) (batchMinPing tests)
                       (batchMaxPing tests).

(** The exact value of a binary64 number. *)
Definition toNum (x : Double.double) : num :=
  match Prim2SF x with
  | S754_nan => JsNum.NaN
  | S754_infinity s => if s then JsNum.NInf else JsNum.PInf
  | S754_zero _ => Fin 0
  | S754_finite s m e => Fin (inject_Z (if s then Zneg m else Zpos m) * 2 ^ e)%Q
  end.

Definition toDouble (testResult : TestResult) : ScoringDouble.TestResult :=
  {| ScoringDouble.quality := quality testResult;
     ScoringDouble.loadSpeed := loadSpeed testResult;
     ScoringDouble.pingTime := Double.ofNum (pingTime testResult) |}.

(** The scores as the engine computes them: the bounds and the score in
    binary64. *)
Definition binary64Score (tests : list TestResult) (testResult : TestResult) : num :=
  let results := List.map toDouble tests in
  toNum (ScoringDouble.calculateSourceScore
           (toDouble testResult)
           (ScoringDouble.batchMaxSpeed results)
           (ScoringDouble.batchMinPing results)
           (ScoringDouble.batchMaxPing results)).

(** *** Sample data *)

(** Three candidates of which the first two both score 60.63 in exact
    arithmetic; in binary64 the first scores 60.62. *)
Definition closeCall : list SearchResult :=
  [candidate "c0"; candidate "c1"; candidate "c2"].

Definition closeAnswer (url : ustring) : option TestResult :=
  if ueqb url (str "c0/2.m3u8") then
    Some {| quality := str "4K"; loadSpeed := str "67 KB/s"; pingTime := ofZ 100 |}
  else if ueqb url (str "c1/2.m3u8") then
    Some {| quality := str "4K"; loadSpeed := str "3 KB/s"; pingTime := ofZ 40 |}
  else if ueqb url (str "c2/2.m3u8") then
    Some {| quality := str "SD"; loadSpeed := str "192 KB/s"; pingTime := ofZ 130 |}
  else None.

End AnyScore.

(* ===================================================================== *)
(** ** Manifest ad filter (play/page.tsx, filterAdsFromM3U8) *)
(* ===================================================================== *)

Module AdFilter.

Definition discontinuity : ustring := str "#EXT-X-DISCONTINUITY".

(** The test the loop makes on a line when [type == 'ruyi']. *)
Definition isFiller (line : ustring) : bool :=
  includes line (str "EXTINF:5.640000") ||
  includes line (str "EXTINF:2.960000") ||
  includes line (str "EXTINF:3.480000") ||
  includes line (str "EXTINF:4.000000") ||
  includes line (str "EXTINF:0.960000") ||
  includes line (str "EXTINF:10.000000") ||
  includes line (str "EXTINF:1.266667").

(** The loop variables [nextdelete] and [filteredLines]. *)
Record LoopState : Type := {
  nextdelete : bool;
  filteredLines : list ustring
}.

(** One iteration of [for (let i = 0; i < lines.length; i++)]. *)
Definition step (type : ustring) (st : LoopState) (line : ustring) : LoopState :=
  if nextdelete st then
    {| nextdelete := false; filteredLines := filteredLines st |}
  else if negb (includes line discontinuity) then
    if ueqb type (str "ruyi") && isFiller line then
      {| nextdelete := true; filteredLines := filteredLines st |}
    else
      {| nextdelete := nextdelete st; filteredLines := filteredLines st ++ [line] |}
  else st.

(** The default rule: the part of [filterAdsFromM3U8] after the custom
    code. *)
Definition defaultFilter (type m3u8Content : ustring) : ustring :=
  match m3u8Content with
  | [] => []
  | _ =>
      let lines := split LF m3u8Content in
      let final :=
        fold_left (step type) lines {| nextdelete := false; filteredLines := [] |} in
      join LF (filteredLines final)
  end.

(** [filterAdsFromM3U8]: the cached custom code, when there is some, is
    run first; [custom] is that code as a function, with [None] for a run
    that throws, and then the default rule applies. *)
Definition filterAdsFromM3U8 (custom : option (ustring -> ustring -> option ustring))
    (type m3u8Content : ustring) : ustring :=
  match custom with
  | Some customFunction =>
      match customFunction type m3u8Content with
      | Some result => result
      | None => defaultFilter type m3u8Content
      end
  | None => defaultFilter type m3u8Content
  end.

(** *** The rule as a scan with one line of lookahead *)

Definition isRuyi (type : ustring) : bool := ueqb type (str "ruyi").

Fixpoint scan (ruyi : bool) (lines : list ustring) : list ustring :=
  match lines with
  | [] => []
  | line :: rest =>
      if includes line discontinuity then scan ruyi rest
      else if ruyi && isFiller line then
        match rest with
        | [] => []
        | _ :: rest' => scan ruyi rest'
        end
      else line :: scan ruyi rest
  end.

(** A line the filter passes whatever surrounds it. *)
Definition plain (ruyi : bool) (line : ustring) : bool :=
  negb (includes line discontinuity) && negb (ruyi && isFiller line).

(** *** The rule in the specification's words *)

(** Every line with the discontinuity marker goes and, for ruyi, every
    filler marker line and the line after it; [afterMarker] says that the
    previous line was a filler marker line. *)
Fixpoint keptAsClaimed (ruyi afterMarker : bool) (lines : list ustring)
  : list ustring :=
  match lines with
  | [] => []
  | line :: rest =>
      let marker := ruyi && isFiller line in
      (if includes line discontinuity || marker || afterMarker then [] else [line])
      ++ keptAsClaimed ruyi marker rest
  end.

Definition filterAsClaimed (type m3u8Content : ustring) : ustring :=
  match m3u8Content with
  | [] => []
  | _ => join LF (keptAsClaimed (isRuyi type) false (split LF m3u8Content))
  end.

(** Filler marker lines stand alone: none carries the discontinuity
    marker and none is directly followed by another one. *)
Fixpoint markersIsolated (lines : list ustring) : bool :=
  match lines with
  | [] => true
  | line :: rest =>
      (if isFiller line then
         negb (includes line discontinuity) &&
         match rest with
         | next :: _ => negb (isFiller next)
         | [] => true
         end
       else true)
      && markersIsolated rest
  end.

(** *** Sample manifests *)

Definition adjacentMarkers : ustring :=
  join LF [str "#EXTINF:5.640000,"; str "#EXTINF:5.640000,"; str "seg-1.ts"].

Definition sampleManifest : ustring :=
  join LF [str "#EXTM3U"; str "#EXTINF:5.640000,"; str "ad-1.ts";
           str "#EXT-X-DISCONTINUITY"; str "#EXTINF:6.000000,"; str "seg-1.ts"].

End AdFilter.

(* ===================================================================== *)
(** ** Fatal stream errors (play/page.tsx, the Hls.Events.ERROR handler) *)
(* ===================================================================== *)

Module HlsRecovery.

(** [Hls.ErrorTypes]. *)
Inductive ErrorType : Type :=
| NETWORK_ERROR
| MEDIA_ERROR
| KEY_SYSTEM_ERROR
| MUX_ERROR
| OTHER_ERROR.

Record ErrorData : Type := {
  fatal : bool;
  type : ErrorType
}.

(** The calls the handler makes on the [hls] instance. *)
Inductive HlsCall : Type :=
| startLoad
| recoverMediaError
| destroy.

(** The handler body.  It reads nothing but [data]: no counter, timestamp
    or flag survives from one error to the next. *)
Definition onError (data : ErrorData) : list HlsCall :=
  if fatal data then
    match type data with
    | NETWORK_ERROR => [startLoad]
    | MEDIA_ERROR => [recoverMediaError]
    | _ => [destroy]
    end
  else [].

(** A session as the handler sees it: the calls made so far, and whether
    the instance was destroyed (after which it emits nothing). *)
Record Session : Type := {
  calls : list HlsCall;
  destroyed : bool
}.

Definition initial : Session := {| calls := []; destroyed := false |}.

Definition deliver (s : Session) (data : ErrorData) : Session :=
  if destroyed s then s
  else
    let issued := onError data in
    {| calls := calls s ++ issued;
       destroyed := existsb (fun c => match c with destroy => true | _ => false end)
                            issued |}.

Definition run (events : list ErrorData) : Session :=
  fold_left deliver events initial.

Definition fatalNetwork : ErrorData := {| fatal := true; type := NETWORK_ERROR |}.
Definition fatalMedia : ErrorData := {| fatal := true; type := MEDIA_ERROR |}.

(** The bounded-retry requirement of the specification: some budget
    exists from which on a run of identical fatal errors is terminal. *)
Definition boundedRecovery (failure : ErrorData) : Prop :=
  exists budget : nat,
    forall n : nat, (budget <= n)%nat -> destroyed (run (replicate n failure)) = true.

End HlsRecovery.

(* ===================================================================== *)
(** ** Resume seek (play/page.tsx, the video:canplay handler) *)
(* ===================================================================== *)

Module Resume.

Local Open Scope num_scope.

Definition n2 : num := ofZ 2.
Definition n5 : num := ofZ 5.

(** What the handler does with the resume target: the value assigned to
    [artPlayerRef.current.currentTime], if any, and the new content of
    [resumeTimeRef].  [playerDuration] is [artPlayerRef.current.duration]
    (NaN while it is unknown). *)
Record Outcome : Type := {
  seek : option num;
  resumeTimeRef' : option num
}.

Definition onCanPlay (resumeTimeRef : option num) (playerDuration : num) : Outcome :=
  let applied :=
    match resumeTimeRef with
    | Some resumeTime =>
        if truthy resumeTime && (resumeTime >? n0) then
          let duration := orElse playerDuration n0 in
          let target := resumeTime in
          let target :=
            if truthy duration && (target >=? duration - n2)
            then max n0 (duration - n5)
            else target in
          Some target
        else None
    | None => None
    end in
  {| seek := applied; resumeTimeRef' := None |}.

(** The seek positions of a sequence of canplay events, the ref threaded
    through them. *)
Fixpoint seeks (resumeTimeRef : option num) (durations : list num) : list num :=
  match durations with
  | [] => []
  | d :: later =>
      let o := onCanPlay resumeTimeRef d in
      match seek o with
      | Some t => t :: seeks (resumeTimeRef' o) later
      | None => seeks (resumeTimeRef' o) later
      end
  end.

(** The clamped position as the specification gives it. *)
Definition claimedClamp (duration : num) : num := duration - n5.

End Resume.

(* ===================================================================== *)
(** ** Progress flush (play/page.tsx, saveCurrentPlayProgress) *)
(* ===================================================================== *)

Module Progress.

Local Open Scope num_scope.

(** The player properties read; [None] is [undefined]. *)
Record Player : Type := {
  currentTime : option num;
  duration : option num
}.

Record Detail : Type := {
  source_name : ustring;
  year : ustring;
  poster : ustring;
  episodes : list ustring
}.

(** The refs and state the function reads. *)
Record Refs : Type := {
  artPlayerRef : option Player;
  currentSourceRef : option ustring;
  currentIdRef : option ustring;
  videoTitleRef : option ustring;
  detailRef : option Detail;
  currentEpisodeIndexRef : Z;
  searchTitle : ustring;
  lastSaveTimeRef : Z
}.

(** The record handed to [savePlayRecord]. *)
Record PlayRecord : Type := {
  title : ustring;
  record_source_name : ustring;
  record_year : ustring;
  cover : ustring;
  index : Z;
  total_episodes : Z;
  play_time : num;
  total_time : num;
  save_time : Z;
  search_title : ustring
}.

(** One call's effects: the write issued (source, id, record), if any, and
    the new [lastSaveTimeRef]. *)
Record Effects : Type := {
  written : option (ustring * ustring * PlayRecord);
  lastSaveTimeRef' : Z
}.

(** [x || 0] for a possibly undefined number. *)
Definition orZero (x : option num) : num :=
  match x with
  | Some v => orElse v n0
  | None => n0
  end.

(** A non-empty string; [null], [undefined] and [''] are falsy. *)
Definition present (s : option ustring) : option ustring :=
  match s with
  | Some (c :: rest) => Some (c :: rest)
  | _ => None
  end.

(** [now] and [later] are what the two [Date.now()] calls return and
    [saveOk] tells whether the [savePlayRecord] promise resolves. *)
Definition saveCurrentPlayProgress (refs : Refs) (now later : Z) (saveOk : bool)
  : Effects :=
  let nothing := {| written := None; lastSaveTimeRef' := lastSaveTimeRef refs |} in
  match artPlayerRef refs, present (currentSourceRef refs),
        present (currentIdRef refs), present (videoTitleRef refs),
        detailRef refs with
  | Some player, Some src, Some id, Some videoTitle, Some detail =>
      match source_name detail with
      | [] => nothing
      | _ =>
          let currentTime := orZero (currentTime player) in
          let duration := orZero (duration player) in
          if (currentTime <? ofZ 1) || negb (truthy duration) then nothing
          else
            let total := Z.of_nat (List.length (episodes detail)) in
            let record :=
              {| title := videoTitle;
                 record_source_name := source_name detail;
                 record_year := year detail;
                 cover := poster detail;
                 index := (currentEpisodeIndexRef refs + 1)%Z;
                 total_episodes := if (total =? 0)%Z then 1%Z else total;
                 play_time := floor currentTime;
                 total_time := floor duration;
                 save_time := now;
                 search_title := searchTitle refs |} in
            {| written := Some (src, id, record);
               lastSaveTimeRef' := if saveOk then later else lastSaveTimeRef refs |}
      end
  | _, _, _, _, _ => nothing
  end.

(** *** Sample data *)

Definition sampleRefs (player : Player) : Refs :=
  {| artPlayerRef := Some player;
     currentSourceRef := Some (str "ruyi");
     currentIdRef := Some (str "42");
     videoTitleRef := Some (str "Title");
     detailRef := Some {| source_name := str "Ruyi"; year := str "2024";
                          poster := []; episodes := [str "e1"; str "e2"] |};
     currentEpisodeIndexRef := 0;
     searchTitle := [];
     lastSaveTimeRef := 1000 |}.

End Progress.

(* ===================================================================== *)
(** ** Intro and outro skip (play/page.tsx, the video:timeupdate handler) *)
(* ===================================================================== *)

Module Skip.

Local Open Scope num_scope.

Record SkipConfig : Type := {
  enable : bool;
  intro_time : num;
  outro_time : num
}.

(** What a time update lets the handler read: the clock, the player's
    position and duration, and the episode position. *)
Record Tick : Type := {
  now : Z;
  playerCurrentTime : num;
  playerDuration : num;
  currentEpisodeIndex : Z;
  episodeCount : option Z
}.

Inductive Action : Type :=
| SetCurrentTime (t : num)
| NoticeIntro (t : num)
| NextEpisode
| Pause
| NoticeOutro (t : num).

(** Returns the actions issued and the new [lastSkipCheckRef]. *)
Definition onTimeUpdate (skipConfig : SkipConfig) (lastSkipCheckRef : Z) (e : Tick)
  : list Action * Z :=
  if negb (enable skipConfig) then ([], lastSkipCheckRef)
  else
    let currentTime := orElse (playerCurrentTime e) n0 in
    let duration := orElse (playerDuration e) n0 in
    if (now e - lastSkipCheckRef <? 1500)%Z then ([], lastSkipCheckRef)
    else
      let intro :=
        if (intro_time skipConfig >? n0) && (currentTime <? intro_time skipConfig)
        then [SetCurrentTime (intro_time skipConfig);
              NoticeIntro (intro_time skipConfig)]
        else [] in
      let outro :=
        if (outro_time skipConfig <? n0) && (duration >? n0) &&
           (currentTime >? playerDuration e + outro_time skipConfig)
        then
          let count :=
            match episodeCount e with
            | Some c => if (c =? 0)%Z then 1%Z else c
            | None => 1%Z
            end in
          [if (currentEpisodeIndex e <? count - 1)%Z then NextEpisode else Pause;
           NoticeOutro (outro_time skipConfig)]
        else [] in
      (intro ++ outro, now e).

(** The handler over a sequence of time updates. *)
Fixpoint runTicks (skipConfig : SkipConfig) (lastSkipCheckRef : Z)
    (ticks : list Tick) : list Action * Z :=
  match ticks with
  | [] => ([], lastSkipCheckRef)
  | e :: later =>
      let '(issued, last) := onTimeUpdate skipConfig lastSkipCheckRef e in
      let '(more, final) := runTicks skipConfig last later in
      (issued ++ more, final)
  end.

Definition isSeek (a : Action) : bool :=
  match a with SetCurrentTime _ => true | _ => false end.

(** What the outro branch can add: an episode change or a pause, and its
    notice; never a seek. *)
Definition outroOnly (actions : list Action) : Prop :=
  Forall (fun a => isSeek a = false) actions.

(** *** Sample data *)

Definition introConfig : SkipConfig :=
  {| enable := true; intro_time := ofZ 90; outro_time := ofZ 0 |}.

Definition tickAt (clock : Z) (position : num) : Tick :=
  {| now := clock; playerCurrentTime := position; playerDuration := ofZ 1200;
     currentEpisodeIndex := 0; episodeCount := Some 12%Z |}.

End Skip.

(* ===================================================================== *)
(** ** Danmaku cache (IndexedDB) *)
(* ===================================================================== *)

Module DanmakuCache.

Local Open Scope Z_scope.

(** What [getDanmakuCacheExpireTime] reads: whether [window] exists and
    the value of NEXT_PUBLIC_DANMAKU_CACHE_EXPIRE_MINUTES. *)
Record Env : Type := {
  hasWindow : bool;
  NEXT_PUBLIC_DANMAKU_CACHE_EXPIRE_MINUTES : option ustring
}.

Definition defaultExpire : Z := 4320 * 60 * 1000.

Definition getDanmakuCacheExpireTime (env : Env) : Z :=
  if negb (hasWindow env) then defaultExpire
  else
    match NEXT_PUBLIC_DANMAKU_CACHE_EXPIRE_MINUTES env with
    | Some (c :: rest) =>
        match parseInt10 (c :: rest) with
        | Some minutes =>
            if minutes =? 0 then 0
            else if minutes >? 0 then minutes * 60 * 1000
            else defaultExpire
        | None => defaultExpire
        end
    | _ => defaultExpire
    end.

Section Store.

(** [DanmakuComment], declared in another module. *)
Variable DanmakuComment : Type.

Record DanmakuCacheData : Type := {
  episodeId : Z;
  comments : list DanmakuComment;
  timestamp : Z
}.

(** The database: the object store keyed by [episodeId], and how many times
    it has been opened. *)
Record IDB : Type := {
  store : gmap Z DanmakuCacheData;
  opened : nat
}.

(** How the database answers during one call: whether [indexedDB.open]
    succeeds and whether the request on the object store does. *)
Record Answers : Type := {
  openOk : bool;
  requestOk : bool
}.

(** A settled promise. *)
Inductive settled (A : Type) : Type :=
| Resolved (a : A)
| Rejected.
Arguments Resolved {A} a.
Arguments Rejected {A}.

Definition openDB (db : IDB) : IDB :=
  {| store := store db; opened := S (opened db) |}.

Definition saveDanmakuToCache (env : Env) (answers : Answers) (now : Z)
    (id : Z) (cs : list DanmakuComment) (db : IDB) : settled unit * IDB :=
  let expireTime := getDanmakuCacheExpireTime env in
  if expireTime =? 0 then (Resolved tt, db)
  else
    let db := openDB db in
    if negb (openOk answers) then (Rejected, db)
    else
      let cacheData := {| episodeId := id; comments := cs; timestamp := now |} in
      if requestOk answers then
        (Resolved tt, {| store := <[id := cacheData]> (store db); opened := opened db |})
      else (Rejected, db).

Definition getDanmakuFromCache (env : Env) (answers : Answers) (now : Z)
    (id : Z) (db : IDB) : settled (option (list DanmakuComment)) * IDB :=
  let expireTime := getDanmakuCacheExpireTime env in
  if expireTime =? 0 then (Resolved None, db)
  else
    let db := openDB db in
    if negb (openOk answers) then (Resolved None, db)
    else if negb (requestOk answers) then (Rejected, db)
    else
      match store db !! id with
      | None => (Resolved None, db)
      | Some result =>
          let expireTime := getDanmakuCacheExpireTime env in
          let age := now - timestamp result in
          if age >? expireTime then (Resolved None, db)
          else (Resolved (Some (comments result)), db)
      end.

End Store.

Arguments store {DanmakuComment} _.
Arguments opened {DanmakuComment} _.
Arguments Resolved {A} a.
Arguments Rejected {A}.

(** *** Sample data *)

Definition cachingOff : Env :=
  {| hasWindow := true; NEXT_PUBLIC_DANMAKU_CACHE_EXPIRE_MINUTES := Some (str "0") |}.

Definition emptyDB : IDB ustring := {| store := ∅; opened := 0 |}.

End DanmakuCache.

(* ===================================================================== *)
(** ** POST /api/admin/openlist (route.ts) *)
(* ===================================================================== *)

Module OpenList.

Local Open Scope Z_scope.

(** A value taken from the JSON body.  Numbers and objects carry the text
    [ToString] gives for them, which is all [parseInt] sees. *)
Inductive jsval : Type :=
| JUndefined
| JNull
| JBool (b : bool)
| JNumber (text : ustring)
| JString (s : ustring)
| JObject (text : ustring).

Definition ToString (v : jsval) : ustring :=
  match v with
  | JUndefined => str "undefined"
  | JNull => str "null"
  | JBool true => str "true"
  | JBool false => str "false"
  | JNumber text => text
  | JString s => s
  | JObject text => text
  end.

Definition ToBoolean (v : jsval) : bool :=
  match v with
  | JUndefined | JNull => false
  | JBool b => b
  | JNumber text => negb (ueqb text (str "0") || ueqb text (str "NaN"))
  | JString s => match s with [] => false | _ => true end
  | JObject _ => true
  end.

Record Body : Type := {
  action : jsval;
  URL : jsval;
  Username : jsval;
  Password : jsval;
  RootPath : jsval;
  ScanInterval : jsval
}.

(** A request: the parsed body ([None] when [request.json()] rejects or
    yields [null]) and the user name in the auth cookie. *)
Record Request : Type := {
  body : option Body;
  cookieUsername : option ustring
}.

Record User : Type := {
  username : ustring;
  role : ustring;
  banned : bool
}.

Record OpenListConfig : Type := {
  cfgURL : jsval;
  cfgUsername : jsval;
  cfgPassword : jsval;
  cfgRootPath : jsval;
  LastRefreshTime : option Z;
  ResourceCount : option Z;
  cfgScanInterval : Z
}.

Record AdminConfig : Type := {
  Users : list User;
  OpenListConfig_ : option OpenListConfig
}.

(** The process environment and the collaborators' answers during one
    request: what [getConfig] resolves to ([None] when it rejects), whether
    [OpenListClient.login] succeeds and whether [db.saveAdminConfig] does. *)
Record World : Type := {
  NEXT_PUBLIC_STORAGE_TYPE : option ustring;
  USERNAME : option ustring;
  getConfig : option AdminConfig;
  loginOk : bool;
  saveOk : bool
}.

Inductive Message : Type :=
| LocalStorageUnsupported
| Unauthorized
| Forbidden
| MissingCredentials
| IntervalTooShort
| LoginFailed
| Saved
| UnknownAction
| OperationFailed.

Record Response : Type := {
  status : Z;
  message : Message
}.

Definition json (m : Message) (st : Z) : Response :=
  {| status := st; message := m |}.

(** [parseInt(ScanInterval) || 0]. *)
Definition scanIntervalOf (v : jsval) : Z :=
  match parseInt (ToString v) with
  | Some n => n
  | None => 0
  end.

Definition isAdmin (w : World) (adminConfig : AdminConfig) (name : ustring) : bool :=
  if bool_decide (USERNAME w = Some name) then true
  else
    match List.find (fun u => ueqb (username u) name) (Users adminConfig) with
    | None => false
    | Some userEntry => ueqb (role userEntry) (str "admin") && negb (banned userEntry)
    end.

(** The handler: the response, and the configuration handed to
    [db.saveAdminConfig] when that call is reached. *)
Definition POST (w : World) (request : Request) : Response * option AdminConfig :=
  let storageType :=
    match NEXT_PUBLIC_STORAGE_TYPE w with
    | Some (c :: rest) => c :: rest
    | _ => str "localstorage"
    end in
  if ueqb storageType (str "localstorage") then
    (json LocalStorageUnsupported 400, None)
  else
    match body request with
    | None => (json OperationFailed 500, None)
    | Some b =>
        match cookieUsername request with
        | None | Some [] => (json Unauthorized 401, None)
        | Some name =>
            match getConfig w with
            | None => (json OperationFailed 500, None)
            | Some adminConfig =>
                if negb (isAdmin w adminConfig name) then (json Forbidden 401, None)
                else
                  match action b with
                  | JString a =>
                      if ueqb a (str "save") then
                        if negb (ToBoolean (URL b)) || negb (ToBoolean (Username b))
                           || negb (ToBoolean (Password b))
                        then (json MissingCredentials 400, None)
                        else
                          let scanInterval := scanIntervalOf (ScanInterval b) in
                          if (scanInterval >? 0) && (scanInterval <? 60)
                          then (json IntervalTooShort 400, None)
                          else if negb (loginOk w) then (json LoginFailed 400, None)
                          else
                            let previous := OpenListConfig_ adminConfig in
                            let updated :=
                              {| Users := Users adminConfig;
                                 OpenListConfig_ := Some
                                   {| cfgURL := URL b;
                                      cfgUsername := Username b;
                                      cfgPassword := Password b;
                                      cfgRootPath :=
                                        if ToBoolean (RootPath b) then RootPath b
                                        else JString (str "/");
                                      LastRefreshTime :=
                                        previous ≫= LastRefreshTime;
                                      ResourceCount :=
                                        previous ≫= ResourceCount;
                                      cfgScanInterval := scanInterval |} |} in
                            if saveOk w then (json Saved 200, Some updated)
                            else (json OperationFailed 500, Some updated)
                      else (json UnknownAction 400, None)
                  | _ => (json UnknownAction 400, None)
                  end
            end
        end
    end.

(** The configuration stored after the request, [stored] being the one
    before it. *)
Definition storedAfter (w : World) (request : Request) (stored : AdminConfig)
  : AdminConfig :=
  match POST w request with
  | (_, Some updated) => if saveOk w then updated else stored
  | (_, None) => stored
  end.

(** The claim's reading of the interval check: status 400, nothing
    saved. *)
Definition rejectsWith400 (w : World) (request : Request) : Prop :=
  status (fst (POST w request)) = 400 /\ snd (POST w request) = None.

(** The requests that get as far as the interval check. *)
Definition reachesSave (w : World) (request : Request) (b : Body) : Prop :=
  body request = Some b /\
  (exists c rest, NEXT_PUBLIC_STORAGE_TYPE w = Some (c :: rest) /\
                  c :: rest <> str "localstorage") /\
  (exists name adminConfig,
      cookieUsername request = Some name /\ name <> [] /\
      getConfig w = Some adminConfig /\ isAdmin w adminConfig name = true) /\
  action b = JString (str "save") /\
  ToBoolean (URL b) = true /\ ToBoolean (Username b) = true /\
  ToBoolean (Password b) = true.

(** [process.env.NEXT_PUBLIC_STORAGE_TYPE || 'localstorage'] is
    ['localstorage']. *)
Definition localStorageConfigured (w : World) : Prop :=
  NEXT_PUBLIC_STORAGE_TYPE w = None
  \/ NEXT_PUBLIC_STORAGE_TYPE w = Some []
  \/ NEXT_PUBLIC_STORAGE_TYPE w = Some (str "localstorage").

(** The requests that pass the cookie and the permission checks. *)
Definition authorised (w : World) (request : Request) : Prop :=
  exists name adminConfig,
    cookieUsername request = Some name /\ name <> [] /\
    getConfig w = Some adminConfig /\ isAdmin w adminConfig name = true.

(** *** Sample data *)

Definition saveBody (interval : jsval) : Body :=
  {| action := JString (str "save");
     URL := JString (str "http://list");
     Username := JString (str "admin");
     Password := JString (str "secret");
     RootPath := JUndefined;
     ScanInterval := interval |}.

Definition redisWorld : World :=
  {| NEXT_PUBLIC_STORAGE_TYPE := Some (str "redis");
     USERNAME := Some (str "owner");
     getConfig := Some {| Users := []; OpenListConfig_ := None |};
     loginOk := true;
     saveOk := true |}.

Definition ownerRequest (interval : jsval) : Request :=
  {| body := Some (saveBody interval); cookieUsername := Some (str "owner") |}.

(** A save request by the owner that carries an interval of 30 and
    neither URL, account nor password. *)
Definition bareBody : Body :=
  {| action := JString (str "save"); URL := JUndefined;
     Username := JUndefined; Password := JUndefined;
     RootPath := JUndefined; ScanInterval := JNumber (str "30") |}.

Definition bareRequest : Request :=
  {| body := Some bareBody; cookieUsername := Some (str "owner") |}.

End OpenList.

(* ===================================================================== *)
(** ** Further notions for selection, filtering and skipping *)
(* ===================================================================== *)

Module ScoringMore.

Import Scoring.
Local Open Scope num_scope.

(** NaN, or a number from 0 to 100. *)
Definition percent (x : num) : Prop :=
  match x with
  | NaN => True
  | Fin q => (0 <= q <= 100)%Q
  | _ => False
  end.

(** The key under which a source's measurement is published,
    [`${source.source}-${source.id}`]. *)
Definition keyOf (src : SearchResult) : ustring :=
  source src ++ str "-" ++ id src.

(** The successful measurements of a round, in the order of the sources. *)
Definition successes (probe : ustring -> option TestResult)
    (sources : list SearchResult) : list Probed :=
  omap (fun r => r) (List.map (probeSource probe) sources).

(** The map built by the [allResults.forEach] pass, as a fold over the
    sources. *)
Definition publish (probe : ustring -> option TestResult)
    (m : gmap ustring TestResult) (src : SearchResult) : gmap ustring TestResult :=
  match probeSource probe src with
  | Some result => <[keyOf src := snd result]> m
  | None => m
  end.

End ScoringMore.

Module AdFilterMore.
Import AdFilter.

Definition cleanManifest : ustring :=
  join LF [str "#EXTM3U"; str "#EXTINF:6.000000,"; str "seg-1.ts";
           str "#EXTINF:6.000000,"; str "seg-2.ts"; []].

End AdFilterMore.

Module SkipMore.
Import Skip.

(** [detailRef.current?.episodes?.length || 1]. *)
Definition episodesOrOne (e : Tick) : Z :=
  match episodeCount e with
  | Some c => if (c =? 0)%Z then 1%Z else c
  | None => 1%Z
  end.

End SkipMore.

(* ===================================================================== *)
(** ** Maintenance of the danmaku cache *)
(* ===================================================================== *)

Module DanmakuCacheMore.

Import DanmakuCache.
Local Open Scope Z_scope.

(** The order in which a cursor visits records: ascending in its key. *)
Fixpoint insertBy {A : Type} (before : A -> A -> bool) (x : A) (l : list A)
  : list A :=
  match l with
  | [] => [x]
  | y :: l' => if before x y then x :: l else y :: insertBy before x l'
  end.

Definition sortBy {A : Type} (before : A -> A -> bool) (l : list A) : list A :=
  foldr (insertBy before) [] l.

Section Store.

Variable DanmakuComment : Type.

(** [objectStore.openCursor()]: the records by primary key. *)
Definition openCursor (m : gmap Z (DanmakuCacheData DanmakuComment))
  : list (Z * DanmakuCacheData DanmakuComment) :=
  sortBy (fun a b => fst a <=? fst b) (map_to_list m).

(** [objectStore.index('timestamp').openCursor()]: the records by
    timestamp, those of one timestamp by primary key. *)
Definition openIndexCursor (m : gmap Z (DanmakuCacheData DanmakuComment))
  : list (Z * DanmakuCacheData DanmakuComment) :=
  sortBy (fun a b =>
            (timestamp _ (snd a) <? timestamp _ (snd b))
            || ((timestamp _ (snd a) =? timestamp _ (snd b)) && (fst a <=? fst b)))
         (map_to_list m).

Definition clearDanmakuCache (answers : Answers) (id : Z) (db : IDB DanmakuComment)
  : settled unit * IDB DanmakuComment :=
  let db := openDB _ db in
  if negb (openOk answers) then (Rejected, db)
  else if requestOk answers then
    (Resolved tt, {| store := delete id (store db); opened := opened db |})
  else (Rejected, db).

(** One [onsuccess] of the cursor of [clearExpiredDanmakuCache] on a
    record: the store and [deletedCount]. *)
Definition sweep (expireThreshold : Z)
    (st : gmap Z (DanmakuCacheData DanmakuComment) * Z)
    (record : Z * DanmakuCacheData DanmakuComment)
  : gmap Z (DanmakuCacheData DanmakuComment) * Z :=
  if timestamp _ (snd record) <? expireThreshold
  then (delete (fst record) (fst st), snd st + 1)
  else st.

Definition clearExpiredDanmakuCache (env : Env) (answers : Answers) (now : Z)
    (db : IDB DanmakuComment) : settled Z * IDB DanmakuComment :=
  let db := openDB _ db in
  if negb (openOk answers) then (Resolved 0, db)
  else
    let expireTime := getDanmakuCacheExpireTime env in
    let expireThreshold := now - expireTime in
    if negb (requestOk answers) then (Rejected, db)
    else
      let '(kept, deletedCount) :=
        fold_left (sweep expireThreshold) (openIndexCursor (store db)) (store db, 0) in
      (Resolved deletedCount, {| store := kept; opened := opened db |}).

Definition clearAllDanmakuCache (answers : Answers) (db : IDB DanmakuComment)
  : settled unit * IDB DanmakuComment :=
  let db := openDB _ db in
  if negb (openOk answers) then (Rejected, db)
  else if requestOk answers then
    (Resolved tt, {| store := ∅; opened := opened db |})
  else (Rejected, db).

Record Stats : Type := {
  total : Z;
  expired : Z;
  totalSize : Z
}.

(** One [onsuccess] of the cursor of [getDanmakuCacheStats] on a record. *)
Definition tally (expireThreshold : Z) (st : Stats)
    (record : Z * DanmakuCacheData DanmakuComment) : Stats :=
  {| total := total st + 1;
     expired := if timestamp _ (snd record) <? expireThreshold
                then expired st + 1 else expired st;
     totalSize := totalSize st + Z.of_nat (List.length (comments _ (snd record))) |}.

Definition getDanmakuCacheStats (env : Env) (answers : Answers) (now : Z)
    (db : IDB DanmakuComment) : settled Stats * IDB DanmakuComment :=
  let db := openDB _ db in
  if negb (openOk answers) then
    (Resolved {| total := 0; expired := 0; totalSize := 0 |}, db)
  else if negb (requestOk answers) then (Rejected, db)
  else
    let expireTime := getDanmakuCacheExpireTime env in
    let expireThreshold := now - expireTime in
    (Resolved (fold_left (tally expireThreshold) (openCursor (store db))
                         {| total := 0; expired := 0; totalSize := 0 |}),
     db).

(** What a sweep with threshold [th] leaves of the store, entry by
    entry, and the comments a store holds. *)
Definition swept (th : Z) (m : gmap Z (DanmakuCacheData DanmakuComment)) (id : Z)
  : option (DanmakuCacheData DanmakuComment) :=
  match m !! id with
  | Some d => if timestamp _ d <? th then None else Some d
  | None => None
  end.

Definition storedComments (m : gmap Z (DanmakuCacheData DanmakuComment)) : Z :=
  foldr (fun r acc => Z.of_nat (List.length (comments _ (snd r))) + acc) 0
        (map_to_list m).

Definition expiredRecords (th : Z) (m : gmap Z (DanmakuCacheData DanmakuComment)) : Z :=
  Z.of_nat (List.length
              (List.filter (fun r => timestamp _ (snd r) <? th) (map_to_list m))).

End Store.

(** *** Sample data *)

Definition allOk : Answers := {| openOk := true; requestOk := true |}.

Definition tenMinutes : Env :=
  {| hasWindow := true; NEXT_PUBLIC_DANMAKU_CACHE_EXPIRE_MINUTES := Some (str "10") |}.

(** An old record and a recent one. *)
Definition oldAndNew : IDB ustring :=
  {| store := <[7 := {| episodeId := 7; comments := [str "old"];
                        timestamp := 1700000000000 |}]>
              (<[8 := {| episodeId := 8; comments := [str "new"];
                         timestamp := 1700000700000 |}]> ∅);
     opened := 0 |}.

End DanmakuCacheMore.

Module OpenListMore.
Import OpenList.
Local Open Scope Z_scope.

(** What [saveBody] stores when nothing was stored before. *)
Definition savedConfig (interval : Z) : OpenListConfig :=
  {| cfgURL := JString (str "http://list");
     cfgUsername := JString (str "admin");
     cfgPassword := JString (str "secret");
     cfgRootPath := JString (str "/");
     LastRefreshTime := None;
     ResourceCount := None;
     cfgScanInterval := interval |}.

End OpenListMore.

(* ===================================================================== *)
(** ** Episodes, source changes and the restored position *)
(* ===================================================================== *)

Module Playback.

Import Progress.
Local Open Scope num_scope.

(** *** Restoring the play record in [initAll] *)

(** [record] is [allRecords[key]], [None] when there is none or reading
    the records fails; the result is the episode index and
    [resumeTimeRef]. *)
Definition restorePlayRecord (record : option PlayRecord) (episodeCount : Z)
    (currentEpisodeIndex : Z) (resumeTimeRef : option num) : Z * option num :=
  match record with
  | Some record =>
      let targetIndex := (index record - 1)%Z in
      let targetTime := play_time record in
      ((if (targetIndex <? episodeCount)%Z && (targetIndex >=? 0)%Z
        then targetIndex else currentEpisodeIndex),
       Some targetTime)
  | None => (currentEpisodeIndex, resumeTimeRef)
  end.

(** *** Changing episode *)

(** [totalEpisodes], from [detail?.episodes?.length || 0]. *)
Definition totalEpisodes (detail : option Scoring.SearchResult) : Z :=
  match detail with
  | Some d =>
      match Scoring.episodes d with
      | Some eps => Z.of_nat (List.length eps)
      | None => 0%Z
      end
  | None => 0%Z
  end.

Inductive Command : Type :=
| EpisodeChange (episodeNumber : Z)
| PreviousEpisode
| NextEpisode
| Ended
| TimerFires.

(** The episode index, and the indices that timers set by [video:ended]
    will assign when they fire, oldest first. *)
Record Episode : Type := {
  episodeIndex : Z;
  timers : list Z
}.

(** [handleEpisodeChange], [handlePreviousEpisode] and
    [handleNextEpisode], as functions of the episode index. *)
Definition handleEpisodeChange (detail : option Scoring.SearchResult)
    (episodeNumber idx : Z) : Z :=
  if (episodeNumber >=? 0)%Z && (episodeNumber <? totalEpisodes detail)%Z
  then episodeNumber else idx.

Definition handlePreviousEpisode (detail : option Scoring.SearchResult) (idx : Z) : Z :=
  match detail with
  | Some d =>
      match Scoring.episodes d with
      | Some _ => if (idx >? 0)%Z then (idx - 1)%Z else idx
      | None => idx
      end
  | None => idx
  end.

Definition handleNextEpisode (detail : option Scoring.SearchResult) (idx : Z) : Z :=
  match detail with
  | Some d =>
      match Scoring.episodes d with
      | Some eps =>
          if (idx <? Z.of_nat (List.length eps) - 1)%Z then (idx + 1)%Z else idx
      | None => idx
      end
  | None => idx
  end.

(** The [video:ended] handler: the timer it sets, if any. *)
Definition onEnded (detail : option Scoring.SearchResult) (idx : Z) : list Z :=
  match detail with
  | Some d =>
      match Scoring.episodes d with
      | Some eps =>
          if (idx <? Z.of_nat (List.length eps) - 1)%Z then [(idx + 1)%Z] else []
      | None => []
      end
  | None => []
  end.

Definition perform (detail : option Scoring.SearchResult) (st : Episode)
    (c : Command) : Episode :=
  match c with
  | EpisodeChange episodeNumber =>
      {| episodeIndex := handleEpisodeChange detail episodeNumber (episodeIndex st);
         timers := timers st |}
  | PreviousEpisode =>
      {| episodeIndex := handlePreviousEpisode detail (episodeIndex st);
         timers := timers st |}
  | NextEpisode =>
      {| episodeIndex := handleNextEpisode detail (episodeIndex st);
         timers := timers st |}
  | Ended =>
      {| episodeIndex := episodeIndex st;
         timers := timers st ++ onEnded detail (episodeIndex st) |}
  | TimerFires =>
      match timers st with
      | next :: later => {| episodeIndex := next; timers := later |}
      | [] => st
      end
  end.

(** *** Changing source *)

(** What [handleSourceChange] reads and writes. *)
Record Page : Type := {
  currentSource : ustring;
  currentId : ustring;
  currentEpisodeIndex : Z;
  resumeTimeRef : option num;
  playerCurrentTime : option num;
  skipConfigRef : Skip.SkipConfig;
  detail : option Scoring.SearchResult;
  notFound : bool;
  playRecords : gmap (ustring * ustring) PlayRecord;
  skipConfigs : gmap (ustring * ustring) Skip.SkipConfig
}.

(** Whether each storage call of one source change succeeds. *)
Record Storage : Type := {
  deletePlayRecordOk : bool;
  deleteSkipConfigOk : bool;
  saveSkipConfigOk : bool
}.

Definition nonEmpty (s : ustring) : bool :=
  match s with [] => false | _ => true end.

(** [!resumeTimeRef.current || resumeTimeRef.current === 0]. *)
Definition noResume (r : option num) : bool :=
  match r with
  | Some x => negb (truthy x) || strictEq x n0
  | None => true
  end.

Definition handleSourceChange (answers : Storage)
    (availableSources : list Scoring.SearchResult) (newSource newId : ustring)
    (p : Page) : Page :=
  let currentPlayTime := orZero (playerCurrentTime p) in
  let current := (currentSource p, currentId p) in
  let known := nonEmpty (currentSource p) && nonEmpty (currentId p) in
  let records :=
    if known && deletePlayRecordOk answers
    then delete current (playRecords p) else playRecords p in
  let skips :=
    if known && deleteSkipConfigOk answers then
      let removed := delete current (skipConfigs p) in
      if saveSkipConfigOk answers
      then <[(newSource, newId) := skipConfigRef p]> removed else removed
    else skipConfigs p in
  match List.find (fun s => ueqb (Scoring.source s) newSource
                            && ueqb (Scoring.id s) newId) availableSources with
  | None =>
      {| currentSource := currentSource p; currentId := currentId p;
         currentEpisodeIndex := currentEpisodeIndex p;
         resumeTimeRef := resumeTimeRef p;
         playerCurrentTime := playerCurrentTime p;
         skipConfigRef := skipConfigRef p;
         detail := detail p; notFound := true;
         playRecords := records; skipConfigs := skips |}
  | Some newDetail =>
      let targetIndex :=
        if match Scoring.episodes newDetail with
           | Some eps => (currentEpisodeIndex p >=? Z.of_nat (List.length eps))%Z
           | None => true
           end
        then 0%Z else currentEpisodeIndex p in
      let resume :=
        if negb (targetIndex =? currentEpisodeIndex p)%Z then Some n0
        else if noResume (resumeTimeRef p) && (currentPlayTime >? ofZ 1)
             then Some currentPlayTime
             else resumeTimeRef p in
      {| currentSource := newSource; currentId := newId;
         currentEpisodeIndex := targetIndex;
         resumeTimeRef := resume;
         playerCurrentTime := playerCurrentTime p;
         skipConfigRef := skipConfigRef p;
         detail := Some newDetail; notFound := notFound p;
         playRecords := records; skipConfigs := skips |}
  end.

(** *** Saving on time updates *)

(** [interval]: 20000 for upstash, 5000 otherwise. *)
Definition saveInterval (storageType : option ustring) : Z :=
  match storageType with
  | Some s => if ueqb s (str "upstash") then 20000%Z else 5000%Z
  | None => 5000%Z
  end.

(** The second [video:timeupdate] handler: whether it calls
    [saveCurrentPlayProgress], and [lastSaveTimeRef] as the handler leaves
    it. *)
Definition onTimeUpdateSave (storageType : option ustring) (lastSaveTimeRef now : Z)
  : bool * Z :=
  if (now - lastSaveTimeRef >? saveInterval storageType)%Z
  then (true, now) else (false, lastSaveTimeRef).

(** What touches [lastSaveTimeRef] while the player runs: a
    [video:timeupdate] event, and the [savePlayRecord] call of a
    [saveCurrentPlayProgress] (whoever called it) resolving, after which
    the ref is set to a fresh [Date.now()].  Each carries the clock
    reading taken. *)
Inductive SaveEvent : Type :=
| TimeUpdate (now : Z)
| SaveResolved (now : Z).

Definition reading (event : SaveEvent) : Z :=
  match event with
  | TimeUpdate now | SaveResolved now => now
  end.

(** The times at which a sequence of events has the time-update handler
    call [saveCurrentPlayProgress]. *)
Fixpoint saveTimes (storageType : option ustring) (lastSaveTimeRef : Z)
    (events : list SaveEvent) : list Z :=
  match events with
  | [] => []
  | TimeUpdate now :: later =>
      let '(saved, last) := onTimeUpdateSave storageType lastSaveTimeRef now in
      (if saved then [now] else []) ++ saveTimes storageType last later
  | SaveResolved now :: later => saveTimes storageType now later
  end.

(** A clock that is never set back: no reading is below the one before
    it, nor the first below [from]. *)
Fixpoint monotone (from : Z) (events : list SaveEvent) : Prop :=
  match events with
  | [] => True
  | event :: later => (from <= reading event)%Z /\ monotone (reading event) later
  end.

(** Times each more than [gap] after the one before it, the first more
    than [gap] after [from]. *)
Fixpoint spaced (gap from : Z) (times : list Z) : Prop :=
  match times with
  | [] => True
  | t :: later => (gap < t - from)%Z /\ spaced gap t later
  end.

(** *** Sample data *)

Definition twoEpisodes (name : string) : Scoring.SearchResult :=
  {| Scoring.source := str name; Scoring.id := str "7";
     Scoring.source_name := str name;
     Scoring.episodes := Some [str "1.m3u8"; str "2.m3u8"] |}.

Definition watching (position : num) : Page :=
  {| currentSource := str "s1"; currentId := str "7";
     currentEpisodeIndex := 1;
     resumeTimeRef := None;
     playerCurrentTime := Some position;
     skipConfigRef := Skip.introConfig;
     detail := Some (twoEpisodes "s1"); notFound := false;
     playRecords := ∅; skipConfigs := ∅ |}.

Definition storageOk : Storage :=
  {| deletePlayRecordOk := true; deleteSkipConfigOk := true; saveSkipConfigOk := true |}.

(** A time update at 10000, its save resolving while the clock reads 3000,
    and a time update at 8500. *)
Definition clockSetBack : list SaveEvent :=
  [TimeUpdate 10000; SaveResolved 3000; TimeUpdate 8500].

(** Time updates and resolving saves under a clock that only advances. *)
Definition steadyClock : list SaveEvent :=
  [TimeUpdate 6000; SaveResolved 6200; TimeUpdate 9000; TimeUpdate 11201;
   SaveResolved 11300; TimeUpdate 16300; TimeUpdate 16301].

(** The record [sampleRefs] writes 12.5 seconds into the first episode. *)
Definition savedRecord : PlayRecord :=
  {| title := str "Title"; record_source_name := str "Ruyi";
     record_year := str "2024"; cover := [];
     index := 1; total_episodes := 2;
     play_time := ofZ 12; total_time := ofZ 1200;
     save_time := 5000; search_title := [] |}.

End Playback.

(* ===================================================================== *)
(** ** The danmaku filter and the volume keys *)
(* ===================================================================== *)

Module DanmakuFilter.

Record Rule : Type := {
  enabled : bool;
  type : ustring;
  keyword : ustring
}.

Section Filter.

(** [new RegExp(keyword).test(text)]; [None] when the expression does not
    compile and the constructor throws. *)
Variable regExpTest : ustring -> ustring -> option bool.

(** The [for (const rule of filterConfig.rules)] loop: [false] as soon as
    a rule matches, [true] when none did. *)
Fixpoint rulesLoop (rules : list Rule) (text : ustring) : bool :=
  match rules with
  | [] => true
  | rule :: rest =>
      if negb (enabled rule) then rulesLoop rest text
      else if ueqb (type rule) (str "normal") then
        if includes text (keyword rule) then false else rulesLoop rest text
      else if ueqb (type rule) (str "regex") then
        match regExpTest (keyword rule) text with
        | Some true => false
        | _ => rulesLoop rest text
        end
      else rulesLoop rest text
  end.

(** The [filter] option of the danmaku plugin; [filterConfig] is
    [danmakuFilterConfigRef.current]. *)
Definition filter (filterConfig : option (list Rule)) (text : ustring) : bool :=
  match filterConfig with
  | Some (rule :: rest) => rulesLoop (rule :: rest) text
  | _ => true
  end.

(** A rule that is enabled and matches the text. *)
Definition hides (text : ustring) (rule : Rule) : Prop :=
  enabled rule = true
  /\ ((type rule = str "normal" /\ includes text (keyword rule) = true)
      \/ (type rule = str "regex" /\ regExpTest (keyword rule) text = Some true)).

End Filter.

(** *** Sample data *)

Definition noRegExp (pattern text : ustring) : option bool := None.

Definition blockSpoilers : list Rule :=
  [ {| enabled := false; type := str "normal"; keyword := str "a" |};
    {| enabled := true; type := str "regex"; keyword := str "(" |};
    {| enabled := true; type := str "normal"; keyword := str "spoiler" |} ].

End DanmakuFilter.

Module Keyboard.

Import Floats JsNum JsString Double.
Local Open Scope float_scope.
#[local] Set Warnings "-inexact-float".

(** The ArrowUp and ArrowDown branches of [handleKeyboardShortcuts], in
    binary64: the volume the player is left with, the assignment taken as
    made. *)
Definition arrowUp (volume : double) : double :=
  if volume <? 1 then round ((volume + 0.1) * 10) / 10 else volume.

Definition arrowDown (volume : double) : double :=
  if 0 <? volume then round ((volume - 0.1) * 10) / 10 else volume.

Inductive Key : Type := ArrowUp | ArrowDown.

Definition press (volume : double) (key : Key) : double :=
  match key with
  | ArrowUp => arrowUp volume
  | ArrowDown => arrowDown volume
  end.

(** The numbers [k / 10]: 0, 0.1, 0.2 and so on as the engine holds
    them. *)
Definition tenths (k : Z) : double := ofZ k / 10.

(** A volume that is one of them, from 0 to 1. *)
Definition onGrid (volume : double) : Prop :=
  exists k : Z, (0 <= k <= 10)%Z /\ volume = tenths k.

End Keyboard.

(* ===================================================================== *)
(** ** Fetching the custom filter code *)
(* ===================================================================== *)

Module AdFilterCode.

Local Open Scope Z_scope.

(** The two [localStorage] items; [None] is a missing item. *)
Record LocalStorage : Type := {
  custom_ad_filter_code_cache : option ustring;
  custom_ad_filter_version_cache : option ustring
}.

(** The [version] of the first response: its value when it is an integer
    number, and what [version.toString()] gives, [None] when that call
    throws. *)
Record Version : Type := {
  integerValue : option Z;
  versionText : option ustring
}.

(** The server during one run.  [None] stands for a request that fails, a
    response that is not ok or a body that is not the expected JSON;
    [code] is [None] when the field is missing or null. *)
Record Server : Type := {
  versionResponse : option Version;
  fullResponse : option (option ustring)
}.

Inductive Fetch : Type :=
| FetchVersion
| FetchFull.

(** [customAdFilterCodeRef], the storage, and the requests made. *)
Record State : Type := {
  customAdFilterCodeRef : ustring;
  localStorage : LocalStorage;
  requests : list Fetch
}.

Definition nonEmptyItem (item : option ustring) : bool :=
  match item with
  | Some (_ :: _) => true
  | _ => false
  end.

(** [!cachedVersion || parseInt(cachedVersion) !== version]. *)
Definition versionDiffers (cachedVersion : option ustring) (version : Version) : bool :=
  match cachedVersion with
  | Some (c :: rest) =>
      match parseInt (c :: rest), integerValue version with
      | Some cached, Some current => negb (cached =? current)
      | _, _ => true
      end
  | _ => true
  end.

Definition fetchAdFilterCode (hasWindow : bool) (server : Server)
    (ref : ustring) (storage : LocalStorage) : State :=
  if negb hasWindow
  then {| customAdFilterCodeRef := ref; localStorage := storage; requests := [] |}
  else
    let cachedCode := custom_ad_filter_code_cache storage in
    let cachedVersion := custom_ad_filter_version_cache storage in
    let ref :=
      match cachedCode with
      | Some (c :: rest) => c :: rest
      | _ => ref
      end in
    match versionResponse server with
    | None =>
        {| customAdFilterCodeRef := ref; localStorage := storage;
           requests := [FetchVersion] |}
    | Some version =>
        if versionDiffers cachedVersion version then
          match fullResponse server with
          | None =>
              {| customAdFilterCodeRef := ref; localStorage := storage;
                 requests := [FetchVersion; FetchFull] |}
          | Some code =>
              match code with
              | Some (c :: rest) =>
                  match versionText version with
                  | Some text =>
                      {| customAdFilterCodeRef := c :: rest;
                         localStorage :=
                           {| custom_ad_filter_code_cache := Some (c :: rest);
                              custom_ad_filter_version_cache := Some text |};
                         requests := [FetchVersion; FetchFull] |}
                  | None =>
                      {| customAdFilterCodeRef := ref;
                         localStorage :=
                           {| custom_ad_filter_code_cache := Some (c :: rest);
                              custom_ad_filter_version_cache := cachedVersion |};
                         requests := [FetchVersion; FetchFull] |}
                  end
              | _ =>
                  {| customAdFilterCodeRef := ref;
                     localStorage :=
                       if negb (nonEmptyItem cachedCode)
                       then {| custom_ad_filter_code_cache := None;
                               custom_ad_filter_version_cache := None |}
                       else storage;
                     requests := [FetchVersion; FetchFull] |}
              end
          end
        else
          {| customAdFilterCodeRef := ref; localStorage := storage;
             requests := [FetchVersion] |}
    end.

(** *** Sample data *)

Definition versionThree : Version :=
  {| integerValue := Some 3; versionText := Some (str "3") |}.

Definition serverWithCode : Server :=
  {| versionResponse := Some versionThree;
     fullResponse := Some (Some (str "function filterAdsFromM3U8(){}")) |}.

Definition emptyStorage : LocalStorage :=
  {| custom_ad_filter_code_cache := None; custom_ad_filter_version_cache := None |}.

End AdFilterCode.

(* ===================================================================== *)
(** * Properties *)
(* ===================================================================== *)

(** ** Arithmetic of [num] *)

Module JsNumFacts.

Local Open Scope num_scope.

Lemma Qzero_true q : Qzero q = true <-> (q == 0)%Q.
Proof. unfold Qzero. apply Qeq_bool_iff. Qed.

Lemma Qzero_false q : Qzero q = false <-> ~ (q == 0)%Q.
Proof.
  rewrite <- Qzero_true. destruct (Qzero q); split; intros H; easy.
Qed.

Lemma Qneg_true q : Qneg q = true <-> (q < 0)%Q.
Proof.
  unfold Qneg. rewrite Qlt_alt. destruct (q ?= 0)%Q; split; congruence.
Qed.

Lemma Qneg_false q : Qneg q = false <-> (0 <= q)%Q.
Proof.
  unfold Qneg. rewrite Qle_alt, <- (Qcompare_antisym 0 q).
  destruct (0 ?= q)%Q; simpl; split; intros H; try easy; now contradiction H.
Qed.

Lemma lt_Fin x y : (Fin x <? Fin y) = true <-> (x < y)%Q.
Proof. simpl. rewrite Qlt_alt. destruct (x ?= y)%Q; split; congruence. Qed.

Lemma lt_Fin_false x y : (Fin x <? Fin y) = false <-> (y <= x)%Q.
Proof.
  rewrite <- not_true_iff_false, lt_Fin. split; [apply Qnot_lt_le | apply Qle_not_lt].
Qed.

Lemma le_Fin x y : (Fin x <=? Fin y) = true <-> (x <= y)%Q.
Proof. simpl. rewrite Qle_alt. destruct (x ?= y)%Q; split; congruence. Qed.

#[global] Instance Qzero_proper : Proper (Qeq ==> eq) Qzero.
Proof.
  intros x y E. destruct (Qzero y) eqn:Hy.
  - apply Qzero_true. rewrite E. now apply Qzero_true.
  - apply Qzero_false. rewrite E. now apply Qzero_false.
Qed.

#[global] Instance Qneg_proper : Proper (Qeq ==> eq) Qneg.
Proof. intros x y E. unfold Qneg. now rewrite E. Qed.

#[global] Instance numeq_equivalence : Equivalence numeq.
Proof.
  split.
  - intros []; simpl; easy.
  - intros [] []; simpl; easy.
  - intros [] [] []; simpl; try easy. intros H1 H2. now rewrite H1.
Qed.

(** Destructs every [num] in sight and clears the impossible cases. *)
Ltac num_cases :=
  repeat match goal with
         | x : num |- _ => destruct x
         end;
  simpl in *; try contradiction; try exact I; try reflexivity; try assumption.

(** Replaces the sign and zero tests of a rational by those of an equal
    one. *)
Ltac qeq_bools :=
  repeat match goal with
         | H : (?x == ?y)%Q |- context [Qzero ?x] => rewrite (Qzero_proper x y H)
         | H : (?x == ?y)%Q |- context [Qneg ?x] => rewrite (Qneg_proper x y H)
         | H : (?x == ?y)%Q, H' : (?u == ?v)%Q |- context [(?x ?= ?u)%Q] =>
             rewrite (Qcompare_comp x y H u v H')
         end.

#[global] Instance neg_proper : Proper (numeq ==> numeq) neg.
Proof. intros a a' Ha. num_cases. now rewrite Ha. Qed.

#[global] Instance add_proper : Proper (numeq ==> numeq ==> numeq) add.
Proof. intros a a' Ha b b' Hb. num_cases. now rewrite Ha, Hb. Qed.

#[global] Instance sub_proper : Proper (numeq ==> numeq ==> numeq) sub.
Proof. intros a a' Ha b b' Hb. unfold sub. now rewrite Ha, Hb. Qed.

#[global] Instance mul_proper : Proper (numeq ==> numeq ==> numeq) mul.
Proof.
  intros a a' Ha b b' Hb. num_cases; qeq_bools;
    try (now rewrite Ha, Hb);
    match goal with |- context [Qzero ?q] => destruct (Qzero q) end;
    simpl; try exact I;
    match goal with |- context [Qneg ?q] => destruct (Qneg q) end;
    exact I.
Qed.

#[global] Instance div_proper : Proper (numeq ==> numeq ==> numeq) div.
Proof.
  intros a a' Ha b b' Hb. num_cases; qeq_bools;
    repeat match goal with
           | |- context [Qzero ?q] => destruct (Qzero q)
           | |- context [Qneg ?q] => destruct (Qneg q)
           end;
    simpl; try exact I.
  now rewrite Ha, Hb.
Qed.

#[global] Instance lt_proper : Proper (numeq ==> numeq ==> eq) lt.
Proof. intros a a' Ha b b' Hb. num_cases. now qeq_bools. Qed.

#[global] Instance le_proper : Proper (numeq ==> numeq ==> eq) le.
Proof. intros a a' Ha b b' Hb. num_cases. now qeq_bools. Qed.

#[global] Instance max_proper : Proper (numeq ==> numeq ==> numeq) max.
Proof.
  intros a a' Ha b b' Hb. num_cases. qeq_bools.
  match goal with |- context [(?x ?= ?y)%Q] => destruct (x ?= y)%Q end;
    simpl; assumption.
Qed.

#[global] Instance min_proper : Proper (numeq ==> numeq ==> numeq) min.
Proof.
  intros a a' Ha b b' Hb. num_cases. qeq_bools.
  match goal with |- context [(?x ?= ?y)%Q] => destruct (x ?= y)%Q end;
    simpl; assumption.
Qed.

#[global] Instance round_proper : Proper (numeq ==> numeq) round.
Proof.
  intros [| | |x] [| | |y] H; try easy.
  cbn [round ofZ numeq] in *. now rewrite H.
Qed.

Lemma num_add_0_l a : n0 + a == a.
Proof. num_cases. ring. Qed.

Lemma num_mul_comm a b : a * b == b * a.
Proof. num_cases. ring. Qed.

End JsNumFacts.

(** ** The order of binary64 numbers *)

Module DoubleFacts.

Import Floats Double.
Local Open Scope Z_scope.

(** *** The order of the numbers *)

Lemma SFcompare_rank (x y : spec_float) :
  SFcompare x y
  = match rank x, rank y with
    | Some a, Some b => Some (lex a b)
    | _, _ => None
    end.
Proof.
  destruct x as [[|]|[|]| |[|] m1 e1], y as [[|]|[|]| |[|] m2 e2];
    try reflexivity; cbn [SFcompare rank lex fst snd].
  unfold lex. cbn [fst snd]. change (-1 ?= -1) with Eq. cbv iota.
  rewrite Z.compare_opp, (Z.compare_antisym e1 e2).
  change (Z.neg m1 ?= Z.neg m2) with (CompOpp (m1 ?= m2)%positive).
  change (PosDef.Pos.compare_cont Eq m1 m2) with (Pos.compare_cont Eq m1 m2).
  rewrite Pos.compare_cont_spec.
  now destruct (e1 ?= e2), (m1 ?= m2)%positive.
Qed.

Lemma lex_trans (a b c : Z * Z * Z) :
  lex a b <> Gt -> lex b c <> Gt -> lex a c <> Gt.
Proof.
  destruct a as [[a1 a2] a3], b as [[b1 b2] b3], c as [[c1 c2] c3].
  unfold lex. cbn [fst snd].
  destruct (Z.compare_spec a1 b1), (Z.compare_spec b1 c1), (Z.compare_spec a1 c1);
    try lia; try easy;
    destruct (Z.compare_spec a2 b2), (Z.compare_spec b2 c2), (Z.compare_spec a2 c2);
    try lia; try easy;
    destruct (Z.compare_spec a3 b3), (Z.compare_spec b3 c3), (Z.compare_spec a3 c3);
    try lia; easy.
Qed.

Lemma leb_rank (x y : float) :
  PrimFloat.leb x y = true
  <-> exists a b, rank (Prim2SF x) = Some a /\ rank (Prim2SF y) = Some b
                  /\ lex a b <> Gt.
Proof.
  rewrite leb_spec. unfold SFleb. rewrite SFcompare_rank.
  destruct (rank (Prim2SF x)) as [a|], (rank (Prim2SF y)) as [b|]; split;
    try discriminate; try (now intros (? & ? & ? & ? & ?)).
  - intros H. exists a, b. repeat split. now destruct (lex a b).
  - intros (a' & b' & [= <-] & [= <-] & H). now destruct (lex a b).
Qed.

Lemma ltb_rank (x y : float) :
  PrimFloat.ltb x y = true
  <-> exists a b, rank (Prim2SF x) = Some a /\ rank (Prim2SF y) = Some b
                  /\ lex a b = Lt.
Proof.
  rewrite ltb_spec. unfold SFltb. rewrite SFcompare_rank.
  destruct (rank (Prim2SF x)) as [a|], (rank (Prim2SF y)) as [b|]; split;
    try discriminate; try (now intros (? & ? & ? & ? & ?)).
  - intros H. exists a, b. repeat split. now destruct (lex a b).
  - intros (a' & b' & [= <-] & [= <-] & H). now rewrite H.
Qed.

Lemma leb_trans (x y z : float) :
  PrimFloat.leb x y = true -> PrimFloat.leb y z = true -> PrimFloat.leb x z = true.
Proof.
  rewrite !leb_rank. intros (a & b & Ha & Hb & Hab) (b' & c & Hb' & Hc & Hbc).
  rewrite Hb in Hb'. injection Hb' as <-.
  exists a, c. repeat split; try assumption. now apply (lex_trans a b c).
Qed.

Lemma ltb_leb (x y : float) :
  PrimFloat.ltb x y = true -> PrimFloat.leb x y = true.
Proof.
  rewrite ltb_rank, leb_rank. intros (a & b & Ha & Hb & Hab).
  exists a, b. repeat split; try assumption. now rewrite Hab.
Qed.

Lemma lex_antisym (a b : Z * Z * Z) : lex b a = CompOpp (lex a b).
Proof.
  unfold lex. rewrite (Z.compare_antisym (fst (fst a))),
    (Z.compare_antisym (snd (fst a))), (Z.compare_antisym (snd a)).
  now destruct (fst (fst a) ?= fst (fst b)), (snd (fst a) ?= snd (fst b)),
    (snd a ?= snd b).
Qed.

(** Two numbers neither of which is below the other compare as equal. *)
Lemma not_ltb_leb (x y : float) :
  PrimFloat.leb x x = true -> PrimFloat.leb y y = true ->
  PrimFloat.ltb x y = false -> PrimFloat.ltb y x = false ->
  PrimFloat.leb x y = true /\ PrimFloat.leb y x = true.
Proof.
  intros Hx Hy Hxy Hyx.
  apply leb_rank in Hx as (a & _ & Ha & _ & _).
  apply leb_rank in Hy as (b & _ & Hb & _ & _).
  assert (Hab : lex a b = Eq).
  { destruct (lex a b) eqn:E; [reflexivity| |].
    - assert (PrimFloat.ltb x y = true) by (apply ltb_rank; now exists a, b).
      congruence.
    - assert (PrimFloat.ltb y x = true).
      { apply ltb_rank. exists b, a. repeat split; try assumption.
        now rewrite lex_antisym, E. }
      congruence. }
  split; apply leb_rank.
  - exists a, b. repeat split; try assumption. now rewrite Hab.
  - exists b, a. repeat split; try assumption. now rewrite lex_antisym, Hab.
Qed.

(** What is above zero is a number, above minus infinity. *)
Lemma positive_number (x : float) :
  PrimFloat.ltb zero x = true ->
  PrimFloat.leb x x = true /\ is_nan x = false
  /\ PrimFloat.ltb neg_infinity x = true /\ PrimFloat.ltb x neg_infinity = false.
Proof.
  intros H. pose proof H as H0.
  apply ltb_rank in H as (a & b & Ha & Hb & Hab).
  assert (Hself : PrimFloat.leb x x = true).
  { apply leb_rank. exists b, b. repeat split; try assumption.
    unfold lex. now rewrite !Z.compare_refl. }
  split; [exact Hself|]. split.
  - unfold is_nan. rewrite eqb_spec. unfold SFeqb. rewrite SFcompare_rank, Hb.
    unfold lex. now rewrite !Z.compare_refl.
  - rewrite ltb_spec in H0. rewrite ltb_spec, (ltb_spec x).
    change (Prim2SF zero) with (S754_zero false) in H0.
    change (Prim2SF neg_infinity) with (S754_infinity true).
    destruct (Prim2SF x) as [[|]|[|]| |[|] m e]; try discriminate H0;
      split; reflexivity.
Qed.

(** [Math.max] of two numbers is one of them and neither is above it. *)
Lemma max_greatest (a b : float) :
  PrimFloat.leb a a = true -> PrimFloat.leb b b = true ->
  is_nan a = false -> is_nan b = false ->
  (max a b = a \/ max a b = b)
  /\ PrimFloat.leb a (max a b) = true /\ PrimFloat.leb b (max a b) = true.
Proof.
  intros Ha Hb Hna Hnb. unfold max. rewrite Hna, Hnb. cbn [orb].
  destruct (PrimFloat.ltb a b) eqn:Hab.
  { split; [now right|]. split; [now apply ltb_leb | exact Hb]. }
  destruct (PrimFloat.ltb b a) eqn:Hba.
  { split; [now left|]. split; [exact Ha | now apply ltb_leb]. }
  destruct (not_ltb_leb a b Ha Hb Hab Hba) as [H1 H2].
  destruct (get_sign a); [split; [now right|] | split; [now left|]]; now split.
Qed.

End DoubleFacts.

(** ** The composite score *)

Module ScoringFacts.

Import JsNumFacts Scoring.
Local Open Scope num_scope.

Lemma span_fst_Forall (p : N -> bool) (s : ustring) :
  Forall (fun c => p c = true) (fst (span p s)).
Proof.
  induction s as [|c s IH]; simpl; [constructor|].
  destruct (p c) eqn:E; [|constructor].
  destruct (span p s) as [a b]. simpl in *. now constructor.
Qed.

Lemma decimal_fold_nonneg (digits : ustring) (acc : Z) :
  Forall (fun c => isDigit c = true) digits -> (0 <= acc)%Z ->
  (0 <= fold_left (fun a c => 10 * a + digitValue c)%Z digits acc)%Z.
Proof.
  intros H. revert acc. induction H as [|c digits Hc _ IH]; intros acc Hacc; simpl.
  - exact Hacc.
  - apply IH. unfold isDigit in Hc. apply andb_true_iff in Hc as [H1 _].
    apply N.leb_le in H1. unfold digitValue. lia.
Qed.

Lemma decimalValue_nonneg (digits : ustring) :
  Forall (fun c => isDigit c = true) digits -> (0 <= decimalValue digits)%Z.
Proof. intros H. apply decimal_fold_nonneg; [exact H | lia]. Qed.

Lemma parseFloat_notNegative (s : ustring) : notNegative (parseFloat s).
Proof.
  unfold parseFloat.
  pose proof (span_fst_Forall isDigit s) as Hip.
  destruct (span isDigit s) as [ip rest]. simpl in Hip.
  set (fp := match rest with
             | c :: rest' => if (c =? 46)%N then fst (span isDigit rest') else []
             | [] => []
             end).
  assert (Hfp : Forall (fun c => isDigit c = true) fp).
  { subst fp. destruct rest as [|c rest']; [constructor|].
    destruct (c =? 46)%N; [apply span_fst_Forall | constructor]. }
  assert (Hval : (0 <= inject_Z (decimalValue ip) +
                      inject_Z (decimalValue fp) /
                      inject_Z (10 ^ Z.of_nat (List.length fp)))%Q).
  { apply decimalValue_nonneg in Hip, Hfp.
    assert (H10 : (0 < 10 ^ Z.of_nat (List.length fp))%Z) by (apply Z.pow_pos_nonneg; lia).
    apply Qle_trans with (inject_Z (decimalValue ip) + 0)%Q.
    - rewrite Qplus_0_r. change 0%Q with (inject_Z 0). now rewrite <- Zle_Qle.
    - apply Qplus_le_r. apply Qle_shift_div_l.
      + change 0%Q with (inject_Z 0). now rewrite <- Zlt_Qlt.
      + rewrite Qmult_0_l. change 0%Q with (inject_Z 0). now rewrite <- Zle_Qle. }
  destruct ip, fp; simpl; try exact I; exact Hval.
Qed.

Lemma Qzero_scale (x : Q) : Qzero (100 * x) = Qzero x.
Proof.
  destruct (Qzero x) eqn:E.
  - apply Qzero_true in E. apply Qzero_true. rewrite E. ring.
  - apply Qzero_false in E. apply Qzero_false. intros H. apply E.
    apply Qmult_integral in H as [H|H]; [discriminate H | exact H].
Qed.

Lemma Qneg_scale (x : Q) : Qneg (100 * x) = Qneg x.
Proof.
  destruct (Qneg x) eqn:E.
  - apply Qneg_true in E. apply Qneg_true. lra.
  - apply Qneg_false in E. apply Qneg_false. lra.
Qed.

(** [(a / b) * 100] and [100 * a / b] agree, whatever [a] and [b] are. *)
Lemma div_mul_swap (a b : num) : a / b * n100 == n100 * a / b.
Proof.
  destruct a as [| | |x], b as [| | |y]; try exact I; simpl.
  all: try change (Qzero (inject_Z 100 * x)) with (Qzero (100 * x)).
  all: try change (Qneg (inject_Z 100 * x)) with (Qneg (100 * x)).
  all: rewrite ?Qzero_scale, ?Qneg_scale.
  all: repeat match goal with
           | |- context [Qzero ?q] => destruct (Qzero q)
           | |- context [Qneg ?q] => destruct (Qneg q)
           end; simpl; try exact I; try reflexivity.
  unfold Qdiv. ring.
Qed.

Lemma max_zero_notNegative (x : num) : notNegative x -> max n0 x == x.
Proof.
  destruct x as [| | |q]; try easy.
  intros H. cbn [notNegative] in H. unfold max, n0, ofZ.
  destruct (Fin (inject_Z 0) <? Fin q) eqn:E; [reflexivity|].
  apply lt_Fin_false in E. cbn [numeq]. change (inject_Z 0) with 0%Q in *. lra.
Qed.

Lemma notNegative_proper (a b : num) : a == b -> notNegative a -> notNegative b.
Proof. destruct a, b; simpl; try easy. intros E H. now rewrite <- E. Qed.

Lemma notNegative_mul (a b : num) :
  notNegative a -> notNegative b -> notNegative (a * b).
Proof.
  destruct a as [| | |x], b as [| | |y]; simpl; try easy.
  - intros _ H. destruct (Qzero y); [exact I|].
    apply Qneg_false in H. now rewrite H.
  - intros H _. destruct (Qzero x); [exact I|].
    apply Qneg_false in H. now rewrite H.
  - apply Qmult_le_0_compat.
Qed.

Lemma notNegative_div (a m : num) :
  notNegative a -> (n0 <? m) = true -> notNegative (a / m).
Proof.
  destruct a as [| | |x], m as [| | |y]; simpl; try easy.
  - intros _ H. assert (Hy : (0 < y)%Q) by now apply lt_Fin.
    assert (Hn : Qneg y = false) by (apply Qneg_false; lra). now rewrite Hn.
  - intros Hx H. assert (Hy : (0 < y)%Q) by now apply lt_Fin.
    assert (Hz : Qzero y = false) by (apply Qzero_false; lra). rewrite Hz.
    simpl. apply Qle_shift_div_l; lra.
Qed.

(** *** Sub-scores *)

Lemma ueqb_true (a b : ustring) : ueqb a b = true <-> a = b.
Proof. unfold ueqb. apply bool_decide_eq_true. Qed.

Lemma speedScore_spec (speedStr : ustring) (reading : SpeedReading) (maxSpeed : num) :
  (n0 <? maxSpeed) = true ->
  speedReading speedStr = Some reading ->
  speedScore speedStr maxSpeed == spec_speed reading maxSpeed.
Proof.
  intros Hmax. unfold speedReading, speedScore.
  destruct (ueqb speedStr speedUnknown); cbn [orb].
  { intros [= <-]. reflexivity. }
  destruct (ueqb speedStr speedMeasuring); cbn [orb].
  { intros [= <-]. reflexivity. }
  destruct (matchSpeed speedStr) as [[digits unit]|]; [|discriminate].
  intros [= <-]. cbn [spec_speed]. cbv zeta.
  change (ofZ 100) with n100.
  set (value := parseFloat digits).
  assert (Hv : notNegative value) by apply parseFloat_notNegative.
  set (code := if ueqb unit (str "MB/s") then value * n1024 else value).
  set (kbps := if ueqb unit (str "MB/s") then n1024 * value else value).
  assert (Hk : code == kbps).
  { subst code kbps. destruct (ueqb unit (str "MB/s")); [apply num_mul_comm | reflexivity]. }
  assert (Hc : notNegative code).
  { subst code. destruct (ueqb unit (str "MB/s")); [|exact Hv].
    apply notNegative_mul; [exact Hv | easy]. }
  rewrite max_zero_notNegative.
  - rewrite div_mul_swap. now rewrite Hk.
  - apply notNegative_mul; [|easy]. now apply notNegative_div.
Qed.

Lemma pingScore_spec (ping minPing maxPing : num) :
  pingScore ping minPing maxPing == spec_latency ping minPing maxPing.
Proof.
  unfold pingScore, spec_latency, clamp.
  change (ofZ 0) with n0. change (ofZ 100) with n100.
  destruct (ping <=? n0); [reflexivity|].
  destruct (strictEq maxPing minPing); [reflexivity|].
  now rewrite div_mul_swap.
Qed.

(** *** Rounding *)

#[global] Instance round2_proper : Proper (numeq ==> numeq) round2.
Proof.
  intros [| | |x] [| | |y] H; try easy.
  cbn [round2 numeq] in *. now rewrite H.
Qed.

Lemma round_hundredths (x : num) : round (x * n100) / n100 == round2 x.
Proof.
  destruct x as [| | |q]; try exact I.
  cbn [mul round n100 ofZ div]. change (Qzero (inject_Z 100)) with false.
  cbn [numeq round2].
  rewrite (Qmake_Qdiv _ 100). reflexivity.
Qed.

(** [round2 x] is the multiple of 0.01 nearest to [x], halves going up. *)
Lemma round2_nearest (q : Q) :
  exists k : Z, round2 (Fin q) == Fin (k # 100) /\
                (q - (1 # 200) < k # 100 <= q + (1 # 200))%Q.
Proof.
  exists (Qfloor (q * 100 + (1 # 2))). split; [reflexivity|].
  pose proof (Qfloor_le (q * 100 + (1 # 2))) as Hle.
  pose proof (Qlt_floor (q * 100 + (1 # 2))) as Hlt.
  rewrite (Qmake_Qdiv _ 100).
  set (k := Qfloor (q * 100 + (1 # 2))) in *.
  rewrite inject_Z_plus in Hlt. change (inject_Z 1) with 1%Q in Hlt.
  change (inject_Z (Z.pos 100)) with 100%Q.
  split.
  - apply Qlt_shift_div_l; lra.
  - apply Qle_shift_div_r; lra.
Qed.

(** *** Batch bounds *)

Lemma maxOf_positive (xs : list num) :
  xs <> [] -> Forall (fun x => (x >? n0) = true) xs -> (n0 <? maxOf xs) = true.
Proof.
  intros Hne H. induction H as [|x xs Hx Hxs IH]; [congruence|].
  cbn [maxOf fold_right]. fold (maxOf xs). unfold gt in Hx.
  destruct xs as [|y ys].
  - cbn [maxOf fold_right]. destruct x; try discriminate Hx; exact Hx.
  - assert (Hm : (n0 <? maxOf (y :: ys)) = true) by (apply IH; congruence).
    destruct x as [| | |q]; try discriminate Hx;
      destruct (maxOf (y :: ys)) as [| | |m]; try discriminate Hm;
      try reflexivity.
    unfold max. destruct (Fin q <? Fin m); assumption.
Qed.

Lemma positive_not_NaN (x : num) : (x >? n0) = true -> isNaN x = false.
Proof. now destruct x. Qed.

Lemma le_reflexive (x : num) : isNaN x = false -> (x <=? x) = true.
Proof. destruct x as [| | |q]; try easy. intros _. apply le_Fin, Qle_refl. Qed.

Lemma lt_le (x y : num) : (x <? y) = true -> (x <=? y) = true.
Proof.
  destruct x as [| | |a], y as [| | |b]; try easy.
  intros H. apply lt_Fin in H. apply le_Fin. lra.
Qed.

Lemma not_lt_le (x y : num) :
  isNaN x = false -> isNaN y = false -> (x <? y) = false -> (y <=? x) = true.
Proof.
  destruct x as [| | |a], y as [| | |b]; try easy.
  intros _ _ H. apply lt_Fin_false in H. now apply le_Fin.
Qed.

Lemma le_transitive (x y z : num) :
  (x <=? y) = true -> (y <=? z) = true -> (x <=? z) = true.
Proof.
  destruct x as [| | |a], y as [| | |b], z as [| | |c]; try easy.
  intros H1 H2. apply le_Fin in H1, H2. apply le_Fin. lra.
Qed.

(** [Math.max] of numbers is one of them and none is above it. *)
Lemma maxOf_greatest (xs : list num) :
  xs <> [] -> Forall (fun x => isNaN x = false) xs ->
  In (maxOf xs) xs /\ Forall (fun x => (x <=? maxOf xs) = true) xs.
Proof.
  intros Hne H. induction H as [|x xs Hx Hxs IH]; [congruence|].
  cbn [maxOf fold_right]. fold (maxOf xs).
  destruct xs as [|y ys].
  - cbn [maxOf fold_right].
    assert (E : max x NInf = x) by (now destruct x).
    rewrite E. split; [now left|]. constructor; [now apply le_reflexive | constructor].
  - destruct IH as [Hin Hall]; [discriminate|].
    set (m := maxOf (y :: ys)) in *.
    assert (Hm : isNaN m = false).
    { rewrite List.Forall_forall in Hxs. now apply Hxs. }
    assert (E : max x m = if x <? m then m else x).
    { unfold max. destruct x, m; try discriminate; reflexivity. }
    rewrite E. destruct (x <? m) eqn:Elt.
    + split; [now right|]. constructor; [now apply lt_le | exact Hall].
    + split; [now left|]. constructor; [now apply le_reflexive|].
      apply (Forall_impl _ _ _ Hall). intros z Hz.
      apply (le_transitive z m x Hz). now apply not_lt_le.
Qed.

(** When some speed is above zero, the base is the largest such speed. *)
Lemma batchMaxSpeed_greatest (batch : list TestResult) :
  validSpeeds batch <> [] ->
  In (batchMaxSpeed batch) (validSpeeds batch)
  /\ Forall (fun v => (v <=? batchMaxSpeed batch) = true) (validSpeeds batch).
Proof.
  intros Hne. unfold batchMaxSpeed.
  destruct (validSpeeds batch) as [|v vs] eqn:E; [congruence|].
  apply maxOf_greatest; [discriminate|]. rewrite <- E. unfold validSpeeds.
  apply List.Forall_forall. intros x Hx. apply List.filter_In in Hx as [_ Hx].
  now apply positive_not_NaN.
Qed.

Lemma batchMaxSpeed_positive (batch : list TestResult) :
  (n0 <? batchMaxSpeed batch) = true.
Proof.
  unfold batchMaxSpeed. destruct (validSpeeds batch) as [|x xs] eqn:E; [reflexivity|].
  apply maxOf_positive; [congruence|]. rewrite <- E. unfold validSpeeds.
  apply List.Forall_forall. intros v Hv. now apply List.filter_In in Hv.
Qed.

(** With no speed above zero in the batch the base is 1024 KB/s. *)
Lemma batchMaxSpeed_default (batch : list TestResult) :
  Forall (fun r => (speedKBpsOf (loadSpeed r) >? n0) = false) batch ->
  batchMaxSpeed batch = n1024.
Proof.
  intros H. unfold batchMaxSpeed, validSpeeds.
  replace (List.filter _ _) with (@nil num); [reflexivity|].
  induction H as [|r batch Hr _ IH]; [reflexivity|].
  cbn [List.map List.filter]. now rewrite Hr.
Qed.

(** A result whose speed is unknown or still being measured has no speed
    above zero. *)
Lemma placeholder_not_measurable (speedStr : ustring) :
  speedReading speedStr = Some Unknown \/ speedReading speedStr = Some Measuring ->
  (speedKBpsOf speedStr >? n0) = false.
Proof.
  unfold speedReading, speedKBpsOf.
  destruct (ueqb speedStr speedUnknown); [reflexivity|].
  destruct (ueqb speedStr speedMeasuring); [reflexivity|].
  destruct (matchSpeed speedStr) as [[d u]|]; intros [H|H]; discriminate H.
Qed.

(** A speed text that is neither placeholder nor a reading scores 30 as
    well. *)
Lemma speedScore_other_text (speedStr : ustring) (maxSpeed : num) :
  speedReading speedStr = None -> speedScore speedStr maxSpeed = n30.
Proof.
  unfold speedReading, speedScore.
  destruct (ueqb speedStr speedUnknown); [discriminate|].
  destruct (ueqb speedStr speedMeasuring); [discriminate|].
  destruct (matchSpeed speedStr) as [[digits unit]|]; [discriminate | reflexivity].
Qed.

(** *** The quality table *)

Lemma qualityScore_table :
  qualityScore (str "4K") = ofZ 100 /\ qualityScore (str "2K") = ofZ 85 /\
  qualityScore (str "1080p") = ofZ 75 /\ qualityScore (str "720p") = ofZ 60 /\
  qualityScore (str "480p") = ofZ 40 /\ qualityScore (str "SD") = ofZ 20 /\
  forall other : ustring,
    ~ In other (List.map str ["4K"; "2K"; "1080p"; "720p"; "480p"; "SD"]%string) ->
    qualityScore other = ofZ 0.
Proof.
  repeat (split; [reflexivity|]).
  intros other H. unfold qualityScore.
  repeat match goal with
         | |- context [ueqb other ?s] =>
             let E := fresh "E" in
             destruct (ueqb other s) eqn:E;
             [apply ueqb_true in E; subst other; exfalso; apply H; simpl; tauto|]
         end.
  reflexivity.
Qed.

End ScoringFacts.

(** ** The score in binary64 *)

Module ScoringDoubleFacts.

Import Floats ScoringFacts Double DoubleFacts ScoringDouble.
Local Open Scope float_scope.

(** *** Reading a text *)

Lemma span_stop (p : N -> bool) (a b : ustring) :
  Forall (fun c => p c = true) a ->
  (b = [] \/ exists c b', b = c :: b' /\ p c = false) ->
  span p (a ++ b) = (a, b).
Proof.
  intros Ha Hb. induction Ha as [|c a Hc _ IH]; cbn [app span].
  - destruct Hb as [->|(c & b' & -> & Hc)]; [reflexivity|].
    cbn [span]. now rewrite Hc.
  - now rewrite Hc, IH.
Qed.

Lemma span_parts (p : N -> bool) (s : ustring) :
  s = fst (span p s) ++ snd (span p s)
  /\ (snd (span p s) = []
      \/ exists c b', snd (span p s) = c :: b' /\ p c = false).
Proof.
  induction s as [|c s [IH1 IH2]]; cbn [span].
  - split; [reflexivity | now left].
  - destruct (p c) eqn:E.
    + destruct (span p s) as [a b]. cbn [fst snd] in *.
      split; [cbn [app]; congruence | exact IH2].
    + cbn [fst snd app]. split; [reflexivity|]. right. now exists c, s.
Qed.

Lemma digit_cases (c : N) :
  isDigit c = true <-> (48 <= c <= 57)%N.
Proof.
  unfold isDigit. rewrite andb_true_iff, !N.leb_le. tauto.
Qed.

Lemma space_no_digit (c : N) :
  isSpace c = true -> isDigit c = false /\ c <> 46%N.
Proof.
  intros Hs. split.
  - destruct (isDigit c) eqn:E; [|reflexivity]. apply digit_cases in E.
    assert (Hc : In c [48; 49; 50; 51; 52; 53; 54; 55; 56; 57]%N).
    { cbn [In]. lia. }
    cbn [In] in Hc. decompose [or] Hc; subst; try discriminate Hs. contradiction.
  - intros ->. discriminate Hs.
Qed.

Lemma unit_first (unit : ustring) :
  unitText unit ->
  exists c rest, unit = c :: rest /\ isDigit c = false /\ c <> 46%N
                 /\ isSpace c = false.
Proof.
  intros [->| ->]; eexists _, _; (split; [reflexivity|]);
    repeat split; discriminate.
Qed.

Lemma matchSpeed_reads (text blank unit : ustring) :
  text <> [] -> digitsAndDots text -> spaces blank -> unitText unit ->
  Scoring.matchSpeed (text ++ blank ++ unit) = Some (text, unit).
Proof.
  intros Hne Htext Hblank Hunit.
  destruct (unit_first unit Hunit) as (u & rest & Hu & Hud & Hu46 & Hus).
  unfold Scoring.matchSpeed.
  rewrite (span_stop Scoring.isDigitOrDot text (blank ++ unit)).
  - unfold skipSpace. rewrite (span_stop isSpace blank unit).
    + cbn [snd]. destruct text as [|c text]; [congruence|].
      unfold ueqb. destruct Hunit as [->| ->]; reflexivity.
    + exact Hblank.
    + right. now exists u, rest.
  - eapply Forall_impl; [exact Htext|]. intros c [Hc| ->]; unfold Scoring.isDigitOrDot.
    + now rewrite Hc.
    + reflexivity.
  - right. destruct blank as [|b blank].
    + exists u, rest. split; [exact Hu|]. unfold Scoring.isDigitOrDot.
      rewrite Hud. cbn [orb]. now apply N.eqb_neq.
    + apply Forall_cons in Hblank as [Hb _]. exists b, (blank ++ unit).
      split; [reflexivity|]. destruct (space_no_digit b Hb) as [Hd H46].
      unfold Scoring.isDigitOrDot. rewrite Hd. cbn [orb]. now apply N.eqb_neq.
Qed.

(** *** The value of a numeral *)

Lemma ofQ_proper (q q' : Q) : (q == q')%Q -> ofQ q = ofQ q'.
Proof. intros H. unfold ofQ. now rewrite (Qred_complete q q' H). Qed.

Lemma decimal_fold (ds : ustring) (acc : Z) :
  fold_left (fun a c => 10 * a + digitValue c)%Z ds acc
  = (acc * 10 ^ Z.of_nat (List.length ds) + natural ds)%Z.
Proof.
  revert acc. induction ds as [|c ds IH]; intros acc; cbn [fold_left natural List.length].
  - cbn. lia.
  - rewrite IH. unfold digitValue. rewrite Nat2Z.inj_succ, Z.pow_succ_r by lia. ring.
Qed.

Lemma decimalValue_natural (ds : ustring) : decimalValue ds = natural ds.
Proof. unfold decimalValue. rewrite decimal_fold. lia. Qed.

Lemma natural_cons (c : N) (ds : ustring) :
  natural (c :: ds)
  = ((Z.of_N c - 48) * 10 ^ Z.of_nat (List.length ds) + natural ds)%Z.
Proof. reflexivity. Qed.

Lemma fraction_natural (ds : ustring) :
  (fraction ds == inject_Z (natural ds) / inject_Z (10 ^ Z.of_nat (List.length ds)))%Q.
Proof.
  induction ds as [|c ds IH].
  - reflexivity.
  - cbn [fraction]. rewrite IH, natural_cons. cbn [List.length].
    rewrite Nat2Z.inj_succ, Z.pow_succ_r by lia.
    assert (Hpow : (0 < 10 ^ Z.of_nat (List.length ds))%Z)
      by (apply Z.pow_pos_nonneg; lia).
    rewrite !inject_Z_plus, !inject_Z_mult.
    assert (Hq : ~ (inject_Z (10 ^ Z.of_nat (List.length ds)) == 0)%Q).
    { change 0%Q with (inject_Z 0). rewrite inject_Z_injective. lia. }
    field. exact Hq.
Qed.

Lemma parseFloat_numeral (text ip fp : ustring) :
  numeral text ip fp -> parseFloat text = decimal ip fp.
Proof.
  intros H. unfold parseFloat, JsString.parseFloat.
  destruct H as [ip Hne Hip|ip fp more Hip Hfp Hmore Hstop].
  - rewrite <- (app_nil_r ip) at 1.
    rewrite (span_stop isDigit ip []) by (assumption || now left).
    destruct ip as [|c ip]; [congruence|]. cbn [ofNum decimal].
    apply ofQ_proper. rewrite decimalValue_natural. cbn [fraction List.length].
    change (inject_Z (decimalValue []) / inject_Z (10 ^ Z.of_nat 0))%Q with (0 / 1)%Q.
    now rewrite Qplus_inj_l.
  - rewrite (span_stop isDigit ip (46%N :: fp ++ more)).
    2: exact Hip.
    2:{ right. now exists 46%N, (fp ++ more). }
    rewrite N.eqb_refl.
    rewrite (span_stop isDigit fp more).
    2: exact Hfp.
    2:{ destruct Hstop as [->|(more' & ->)]; [now left|]. right.
        now exists 46%N, more'. }
    cbn [fst]. unfold decimal.
    destruct ip as [|c ip], fp as [|d fp]; try reflexivity;
      cbn [ofNum]; apply ofQ_proper;
      rewrite !decimalValue_natural, <- fraction_natural; reflexivity.
Qed.

(** *** The score *)

Lemma matchSpeed_inv (speedStr text unit : ustring) :
  Scoring.matchSpeed speedStr = Some (text, unit) ->
  exists blank,
    speedStr = text ++ blank ++ unit
    /\ text <> [] /\ spaces blank /\ unitText unit
    /\ Forall (fun c => Scoring.isDigitOrDot c = true) text.
Proof.
  unfold Scoring.matchSpeed, skipSpace.
  pose proof (span_parts Scoring.isDigitOrDot speedStr) as [Hsplit _].
  pose proof (span_fst_Forall Scoring.isDigitOrDot speedStr) as Hvalue.
  destruct (span Scoring.isDigitOrDot speedStr) as [value rest].
  cbn [fst snd] in *.
  pose proof (span_parts isSpace rest) as [Hrest _].
  pose proof (span_fst_Forall isSpace rest) as Hblank.
  destruct (span isSpace rest) as [blank unit']. cbn [fst snd] in *.
  destruct value as [|c value]; [discriminate|].
  destruct (ueqb unit' (str "KB/s") || ueqb unit' (str "MB/s")) eqn:E;
    [|discriminate].
  intros [= <- <-]. exists blank. split; [now rewrite Hsplit, Hrest|].
  split; [discriminate|]. split; [exact Hblank|]. split; [|exact Hvalue].
  unfold ueqb in E. apply orb_true_iff in E as [E|E];
    apply bool_decide_eq_true in E; [now left | now right].
Qed.

Lemma digitsAndDots_test (text : ustring) :
  Forall (fun c => Scoring.isDigitOrDot c = true) text <-> digitsAndDots text.
Proof.
  unfold digitsAndDots. split; intros H; (eapply Forall_impl; [exact H|]);
    intros c; unfold Scoring.isDigitOrDot; rewrite orb_true_iff, N.eqb_eq; tauto.
Qed.

Lemma numeral_text (text ip fp : ustring) :
  numeral text ip fp -> text <> [] /\ digitsAndDots text.
Proof.
  intros [ip' Hne Hip|ip' fp' more Hip Hfp Hmore _].
  - split; [exact Hne|]. eapply Forall_impl; [exact Hip|]. now left.
  - split; [now destruct ip'|]. apply Forall_app. split.
    + eapply Forall_impl; [exact Hip|]. now left.
    + constructor; [now right|]. apply Forall_app. split; [|exact Hmore].
      eapply Forall_impl; [exact Hfp|]. now left.
Qed.

Lemma numeral_exists (text : ustring) :
  text <> [] -> digitsAndDots text -> exists ip fp, numeral text ip fp.
Proof.
  intros Hne Htext.
  pose proof (span_parts isDigit text) as [Hsplit Hstop].
  pose proof (span_fst_Forall isDigit text) as Hip.
  destruct (span isDigit text) as [ip rest]. cbn [fst snd] in *.
  destruct Hstop as [->|(c & rest' & -> & Hc)].
  - rewrite app_nil_r in Hsplit. subst ip. exists text, []. now constructor.
  - assert (Hrest : digitsAndDots (c :: rest')).
    { rewrite Hsplit in Htext. now apply Forall_app in Htext as [_ H]. }
    apply Forall_cons in Hrest as [[Hd| ->] Hrest']; [congruence|].
    pose proof (span_parts isDigit rest') as [Hsplit' Hstop'].
    pose proof (span_fst_Forall isDigit rest') as Hfp.
    destruct (span isDigit rest') as [fp more]. cbn [fst snd] in *.
    assert (Hmore : digitsAndDots more).
    { rewrite Hsplit' in Hrest'. now apply Forall_app in Hrest' as [_ H]. }
    exists ip, fp. rewrite Hsplit, Hsplit'. constructor; try assumption.
    destruct Hstop' as [->|(d & more' & -> & Hd)]; [now left|]. right.
    apply Forall_cons in Hmore as [[Hd'| ->] _]; [congruence|]. now exists more'.
Qed.

(** What the code makes of a text, by its reading. *)
Lemma reads_code (speedStr : ustring) (reading : SpeedReading) :
  reads speedStr reading ->
  (forall maxSpeed, speedScore speedStr maxSpeed = spec_speed reading maxSpeed)
  /\ (if 0 <? speedKBpsOf speedStr then Some (speedKBpsOf speedStr) else None)
     = measurable reading.
Proof.
  intros [| |text ip fp blank unit Hnum Hblank Hunit|text Hu Hm Hno].
  - split; reflexivity.
  - split; reflexivity.
  - destruct (numeral_text _ _ _ Hnum) as [Hne Htext].
    pose proof (matchSpeed_reads text blank unit Hne Htext Hblank Hunit) as Hmatch.
    assert (Hplace : ueqb (text ++ blank ++ unit) Scoring.speedUnknown
                     || ueqb (text ++ blank ++ unit) Scoring.speedMeasuring = false).
    { unfold ueqb. apply orb_false_iff.
      split; apply bool_decide_eq_false; intros Heq; rewrite Heq in Hmatch;
        discriminate Hmatch. }
    unfold speedScore, speedKBpsOf. rewrite Hplace, Hmatch.
    rewrite (parseFloat_numeral _ _ _ Hnum). split; reflexivity.
  - assert (Hplace : ueqb text Scoring.speedUnknown
                     || ueqb text Scoring.speedMeasuring = false).
    { unfold ueqb. apply orb_false_iff. split; now apply bool_decide_eq_false. }
    assert (Hmatch : Scoring.matchSpeed text = None).
    { destruct (Scoring.matchSpeed text) as [[value unit]|] eqn:E; [|reflexivity].
      destruct (matchSpeed_inv _ _ _ E) as (blank & Heq & Hne & Hb & Hunit & Hv).
      apply digitsAndDots_test in Hv.
      now destruct (Hno value blank unit Hne Hv Hb Hunit). }
    unfold speedScore, speedKBpsOf. rewrite Hplace, Hmatch. split; reflexivity.
Qed.

(** Every text has a reading. *)
Lemma reads_total (speedStr : ustring) : exists reading, reads speedStr reading.
Proof.
  destruct (decide (speedStr = Scoring.speedUnknown)) as [->|Hu];
    [exists Placeholder; constructor|].
  destruct (decide (speedStr = Scoring.speedMeasuring)) as [->|Hm];
    [exists Placeholder; constructor|].
  destruct (Scoring.matchSpeed speedStr) as [[value unit]|] eqn:E.
  - destruct (matchSpeed_inv _ _ _ E) as (blank & -> & Hne & Hb & Hunit & Hv).
    apply digitsAndDots_test in Hv.
    destruct (numeral_exists value Hne Hv) as (ip & fp & Hnum).
    eexists. now apply (reads_measured value ip fp blank unit).
  - exists Unreadable. constructor; [exact Hu | exact Hm |].
    intros text blank unit Hne Ht Hb Hunit ->.
    rewrite matchSpeed_reads in E by assumption. discriminate E.
Qed.

#[local] Set Warnings "-inexact-float".

Lemma quality_term (quality : ustring) :
  (0 + qualityScore quality * 0.4 = spec_quality quality * 0.4)%float.
Proof.
  unfold qualityScore, spec_quality, qualityTable, ueqb. cbn [List.find fst snd].
  repeat match goal with
         | |- context [bool_decide (quality = ?name)] =>
             destruct (decide (quality = name)) as [->|?];
             [reflexivity|];
             rewrite (bool_decide_eq_false_2 (quality = name)) by assumption;
             rewrite (bool_decide_eq_false_2 (name = quality)) by congruence
         end.
  reflexivity.
Qed.

Lemma validSpeeds_readings (results : list TestResult)
    (readings : list SpeedReading) :
  Forall2 reads (List.map loadSpeed results) readings ->
  validSpeeds results = omap measurable readings.
Proof.
  unfold validSpeeds. revert readings.
  induction results as [|r results IH]; intros readings H; cbn [List.map] in H.
  - apply Forall2_nil_inv_l in H. now subst.
  - apply Forall2_cons_inv_l in H as (reading & readings' & Hr & Hrest & ->).
    change (omap measurable (reading :: readings'))
      with (match measurable reading with
            | Some speed => speed :: omap measurable readings'
            | None => omap measurable readings'
            end).
    cbn [List.map List.filter]. destruct (reads_code _ _ Hr) as [_ Hm].
    rewrite <- Hm, <- (IH readings' Hrest).
    now destruct (0 <? speedKBpsOf (loadSpeed r))%float.
Qed.

(** *** The largest speed *)

Lemma measurable_above_zero (readings : list SpeedReading) :
  Forall (fun v => (0 <? v) = true) (omap measurable readings).
Proof.
  induction readings as [|reading readings IH]; [constructor|].
  change (omap measurable (reading :: readings))
    with (match measurable reading with
          | Some speed => speed :: omap measurable readings
          | None => omap measurable readings
          end).
  destruct reading as [|kbps|]; cbn [measurable]; try exact IH.
  destruct (0 <? kbps) eqn:E; [now constructor | exact IH].
Qed.

Lemma largest_of_speeds (speeds : list double) :
  speeds <> [] -> Forall (fun v => (0 <? v) = true) speeds ->
  In (maxOf speeds) speeds
  /\ Forall (fun v => (v <=? maxOf speeds) = true) speeds
  /\ (0 <? maxOf speeds) = true.
Proof.
  induction speeds as [|x l IH]; intros Hne Hpos; [now contradiction Hne|].
  apply Forall_cons in Hpos as [Hx Hl].
  destruct (positive_number x Hx) as (Hxx & Hnx & Hinf & Hinf').
  destruct l as [|y l].
  - assert (Hmax : maxOf [x] = x).
    { unfold maxOf. cbn [fold_right]. unfold max. rewrite Hnx.
      change (is_nan neg_infinity) with false. cbn [orb].
      now rewrite Hinf', Hinf. }
    rewrite Hmax. split; [now left|]. split; [|exact Hx]. now repeat constructor.
  - destruct IH as (Hin & Hall & Hm); [discriminate | exact Hl |].
    set (m := maxOf (y :: l)) in *.
    destruct (positive_number m Hm) as (Hmm & Hnm & _ & _).
    change (maxOf (x :: y :: l)) with (max x m).
    destruct (max_greatest x m Hxx Hmm Hnx Hnm) as (Hor & Hxr & Hmr).
    split; [|split].
    + destruct Hor as [-> | ->]; [now left | now right].
    + constructor; [exact Hxr|]. eapply Forall_impl; [exact Hall|].
      intros v Hv. now apply (leb_trans v m).
    + now destruct Hor as [-> | ->].
Qed.

(** C1, counterexample. 4K at 125 KB/s and 70 ms under the bounds
    192 KB/s, 40 ms and 130 ms: the formula's value is 79.375 and rounds
    to 79.38, while the code, rounding each operation to the nearest
    number, reaches 79.374999999999986 and returns 79.37. *)
Lemma score_below_half_cent :
  Scoring.speedReading (loadSpeed nearHalfCent)
  = Some (Scoring.KBps (JsNum.ofZ 125))
  /\ numeq (Scoring.spec_score (quality nearHalfCent)
                               (Scoring.KBps (JsNum.ofZ 125)) (JsNum.ofZ 70)
                               (JsNum.ofZ 192) (JsNum.ofZ 40) (JsNum.ofZ 130))
           (dec 7938 100)
  /\ calculateSourceScore nearHalfCent (ofZ 192) (ofZ 40) (ofZ 130)
     = ofQ (7937 # 100)
  /\ ofQ (7937 # 100) <> ofQ (7938 # 100).
Proof.
  split; [reflexivity|]. split; [reflexivity|]. split; [reflexivity|].
  intros H. apply (f_equal Prim2SF) in H. vm_compute in H. discriminate H.
Qed.

(** A numeral without a digit reads as NaN, and so does the score. *)
Lemma no_digit_no_score :
  reads (loadSpeed noDigit) (Measured nan)
  /\ is_nan (calculateSourceScore noDigit (ofZ 192) (ofZ 40) (ofZ 130)) = true.
Proof.
  split; [|reflexivity].
  apply (reads_measured (str ".") [] [] (str " ") (str "KB/s")).
  - apply (numeral_fraction [] [] []); [constructor | constructor | constructor | now left].
  - repeat constructor.
  - now left.
Qed.

(** C1, as amended. In binary64, each operation rounded to the nearest
    number, the score is [Math.round(x * 100) / 100] of
    [q * 0.4 + s * 0.4 + l * 0.2], for every measurement and all bounds:
    [q] by the table, 0 for any other quality; [s] is 30 for the two
    placeholders and for a text that is not a numeral, blanks and KB/s or
    MB/s, and otherwise [measured_kbps / max_speed_observed * 100]
    clamped to 0..100; [l] is 0 for a latency of 0 or less, 100 when the
    two latency bounds are equal, and otherwise
    [(max_latency - latency) / (max_latency - min_latency) * 100] clamped
    to 0..100.  Every text has a reading, and the largest speed of a
    batch is above 0: 1024 when no reading is above 0, and otherwise one
    of the readings above 0 that none of them exceeds. *)
Theorem calculateSourceScore_binary64 (testResult : TestResult)
    (reading : SpeedReading) (maxSpeed minPing maxPing : double) :
  reads (loadSpeed testResult) reading ->
  calculateSourceScore testResult maxSpeed minPing maxPing
  = spec_score (quality testResult) reading (pingTime testResult)
               maxSpeed minPing maxPing
  /\ (forall speedStr, exists any, reads speedStr any)
  /\ (forall results readings,
        Forall2 reads (List.map loadSpeed results) readings ->
        batchMaxSpeed results = max_speed_observed readings
        /\ (0 <? batchMaxSpeed results) = true
        /\ (omap measurable readings = [] -> batchMaxSpeed results = 1024)
        /\ (omap measurable readings <> [] ->
            In (batchMaxSpeed results) (omap measurable readings)
            /\ Forall (fun v => (v <=? batchMaxSpeed results) = true)
                      (omap measurable readings))).
Proof.
  intros Hreads. split; [|split].
  - unfold calculateSourceScore, spec_score, round2. cbv zeta.
    rewrite quality_term. destruct (reads_code _ _ Hreads) as [-> _].
    reflexivity.
  - exact reads_total.
  - intros results readings H. unfold batchMaxSpeed, max_speed_observed.
    rewrite (validSpeeds_readings results readings H).
    pose proof (measurable_above_zero readings) as Hpos.
    destruct (omap measurable readings) as [|speed speeds] eqn:E.
    + split; [reflexivity|]. split; [reflexivity|]. split; [reflexivity|].
      intros Hc. now contradiction Hc.
    + destruct (largest_of_speeds (speed :: speeds)) as (Hin & Hall & Hm);
        [discriminate | exact Hpos |].
      split; [reflexivity|]. split; [exact Hm|]. split; [discriminate|].
      intros _. now split.
Qed.

Lemma calculateSourceScore_binary64_witness :
  calculateSourceScore threeMegabytes (ofZ 4096) (ofZ 40) (ofZ 90)
  = spec_score (str "1080p")
               (Measured (kilobytes (str "MB/s") (decimal (str "3") (str "2"))))
               (ofZ 40) (ofZ 4096) (ofZ 40) (ofZ 90).
Proof.
  apply (calculateSourceScore_binary64 threeMegabytes
           (Measured (kilobytes (str "MB/s") (decimal (str "3") (str "2"))))
           (ofZ 4096) (ofZ 40) (ofZ 90)).
  apply (reads_measured (str "3.2") (str "3") (str "2") (str " ") (str "MB/s")).
  - apply (numeral_fraction (str "3") (str "2") []); repeat constructor.
  - repeat constructor.
  - now right.
Defined.

End ScoringDoubleFacts.

(** ** Ranking and selection *)

Module SelectionFacts.

Import JsNumFacts Scoring ScoringFacts.
Local Open Scope num_scope.

Lemma lt_sub_zero (a b : num) : (a - b <? n0) = (a <? b).
Proof.
  destruct a as [| | |x], b as [| | |y]; try reflexivity.
  unfold sub, n0, ofZ. cbn [neg add].
  destruct (Fin x <? Fin y) eqn:E.
  - apply lt_Fin in E. apply lt_Fin. change (inject_Z 0) with 0%Q. lra.
  - apply lt_Fin_false in E. apply lt_Fin_false. change (inject_Z 0) with 0%Q. lra.
Qed.

Lemma lt_asymmetric (a b : num) : (a <? b) = true -> (b <? a) = false.
Proof.
  destruct a as [| | |x], b as [| | |y]; try easy.
  intros H. apply lt_Fin in H. apply lt_Fin_false. lra.
Qed.

Lemma insertSorted_perm (x : Probed * num) (l : list (Probed * num)) :
  insertSorted x l ≡ₚ x :: l.
Proof.
  induction l as [|y l IH]; cbn [insertSorted]; [reflexivity|].
  destruct (comparator x y <? n0); [reflexivity|].
  rewrite IH. apply Permutation_swap.
Qed.

Lemma sort_fold_perm (l acc : list (Probed * num)) :
  fold_left (fun sorted x => insertSorted x sorted) l acc ≡ₚ acc ++ l.
Proof.
  revert acc. induction l as [|x l IH]; intros acc; cbn [fold_left].
  - now rewrite app_nil_r.
  - rewrite IH, insertSorted_perm. cbn [app]. apply Permutation_middle.
Qed.

Lemma insertSorted_sorted (x : Probed * num) (l : list (Probed * num)) :
  Sorted notBelow l -> Sorted notBelow (insertSorted x l).
Proof.
  induction 1 as [|y l Hl IH Hhd]; cbn [insertSorted].
  - repeat constructor.
  - unfold comparator. rewrite lt_sub_zero.
    destruct (snd y <? snd x) eqn:E.
    + constructor; [now constructor|]. constructor.
      unfold notBelow. now apply lt_asymmetric.
    + constructor; [exact IH|].
      destruct Hhd as [|z l Hz]; cbn [insertSorted].
      * now constructor.
      * unfold comparator. rewrite lt_sub_zero.
        destruct (snd z <? snd x); now constructor.
Qed.

Lemma sort_fold_sorted (l acc : list (Probed * num)) :
  Sorted notBelow acc ->
  Sorted notBelow (fold_left (fun sorted x => insertSorted x sorted) l acc).
Proof.
  revert acc. induction l as [|x l IH]; intros acc H; cbn [fold_left]; [exact H|].
  apply IH. now apply insertSorted_sorted.
Qed.

#[global] Instance pingScore_proper :
  Proper (numeq ==> eq ==> eq ==> numeq) pingScore.
Proof.
  intros p p' Hp mn ? <- mx ? <-. unfold pingScore.
  rewrite (le_proper _ _ Hp n0 n0) by reflexivity.
  destruct (p' <=? n0); [reflexivity|].
  destruct (strictEq mx mn); [reflexivity|].
  now rewrite Hp.
Qed.

(** *** Stability *)

Lemma lt_irreflexive_eq (a b : num) : numeq a b -> (a <? b) = false.
Proof.
  destruct a as [| | |x], b as [| | |y]; try easy.
  intros H. apply lt_Fin_false. cbn [numeq] in H. rewrite H. apply Qle_refl.
Qed.

Lemma numeqb_true (a b : num) : numeqb a b = true <-> numeq a b.
Proof.
  destruct a as [| | |x], b as [| | |y]; try easy. apply Qeq_bool_iff.
Qed.

(** Below a score that is below another one. *)
Lemma lt_below (a b c : num) :
  isNaN c = false -> (a <? b) = true -> (a <? c) = false -> (c <? b) = true.
Proof.
  destruct a as [| | |x], b as [| | |y], c as [| | |z]; try easy.
  intros _ H1 H2. apply lt_Fin in H1. apply lt_Fin_false in H2. apply lt_Fin. lra.
Qed.

Lemma insertSorted_strongly (x : Probed * num) (l : list (Probed * num)) :
  isNaN (snd x) = false -> scored l ->
  StronglySorted notBelow l -> StronglySorted notBelow (insertSorted x l).
Proof.
  intros Hx Hl H. induction H as [|y l Hs IH Hy]; cbn [insertSorted].
  - repeat constructor.
  - inversion Hl as [|? ? Hny Hnl]; subst.
    unfold comparator. rewrite lt_sub_zero.
    destruct (snd y <? snd x) eqn:E.
    + constructor; [now constructor|]. constructor.
      * now apply lt_asymmetric.
      * apply List.Forall_forall. intros z Hz.
        apply lt_asymmetric, (lt_below (snd y)); [|exact E|].
        -- rewrite List.Forall_forall in Hnl. now apply Hnl.
        -- rewrite List.Forall_forall in Hy. now apply Hy.
    + constructor; [now apply IH|].
      rewrite insertSorted_perm. now constructor.
Qed.

Lemma filter_none {A : Type} (f : A -> bool) (l : list A) :
  Forall (fun z => f z = false) l -> List.filter f l = [].
Proof.
  induction 1 as [|z l Hz _ IH]; [reflexivity|].
  cbn [List.filter]. now rewrite Hz.
Qed.

Lemma filter_head {A : Type} (f : A -> bool) (x : A) (l : list A) :
  List.filter f (x :: l) = (if f x then [x] else []) ++ List.filter f l.
Proof. cbn [List.filter]. destruct (f x); reflexivity. Qed.

(** An entry goes behind the entries it ties with. *)
Lemma insertSorted_tied (v : num) (x : Probed * num) (l : list (Probed * num)) :
  isNaN (snd x) = false -> scored l -> StronglySorted notBelow l ->
  List.filter (tiedAt v) (insertSorted x l)
  = List.filter (tiedAt v) l ++ (if tiedAt v x then [x] else []).
Proof.
  intros Hx Hl H. induction H as [|y l Hs IH Hy]; cbn [insertSorted].
  - rewrite filter_head. cbn [List.filter app]. apply app_nil_r.
  - inversion Hl as [|? ? Hny Hnl]; subst.
    unfold comparator. rewrite lt_sub_zero.
    destruct (snd y <? snd x) eqn:E.
    + assert (Hbelow : Forall (fun z => (snd z <? snd x) = true) (y :: l)).
      { constructor; [exact E|]. apply List.Forall_forall. intros z Hz.
        apply (lt_below (snd y)); [|exact E|].
        - rewrite List.Forall_forall in Hnl. now apply Hnl.
        - rewrite List.Forall_forall in Hy. now apply Hy. }
      rewrite (filter_head _ x (y :: l)).
      destruct (tiedAt v x) eqn:Ex; [|now rewrite app_nil_r].
      rewrite (filter_none (tiedAt v) (y :: l)); [reflexivity|].
      apply (Forall_impl _ _ _ Hbelow). intros z Hz.
      destruct (tiedAt v z) eqn:Ez; [|reflexivity].
      unfold tiedAt in Ex, Ez. apply numeqb_true in Ex, Ez.
      rewrite lt_irreflexive_eq in Hz; [discriminate Hz|].
      now rewrite Ex, Ez.
    + rewrite !(filter_head _ y), (IH Hnl). now rewrite app_assoc.
Qed.

Lemma sort_fold_tied (v : num) (l acc : list (Probed * num)) :
  scored l -> scored acc -> StronglySorted notBelow acc ->
  List.filter (tiedAt v) (fold_left (fun sorted x => insertSorted x sorted) l acc)
  = List.filter (tiedAt v) acc ++ List.filter (tiedAt v) l.
Proof.
  intros Hl. revert acc. induction Hl as [|x l Hx Hl IH]; intros acc Hacc Hs;
    cbn [fold_left].
  - cbn [List.filter]. now rewrite app_nil_r.
  - rewrite IH.
    + rewrite insertSorted_tied by assumption.
      now rewrite (filter_head _ x l), app_assoc.
    + unfold scored. rewrite insertSorted_perm. now constructor.
    + now apply insertSorted_strongly.
Qed.

Lemma sort_fold_strongly (l acc : list (Probed * num)) :
  scored l -> scored acc -> StronglySorted notBelow acc ->
  StronglySorted notBelow (fold_left (fun sorted x => insertSorted x sorted) l acc).
Proof.
  intros Hl. revert acc. induction Hl as [|x l Hx Hl IH]; intros acc Hacc Hs;
    cbn [fold_left]; [exact Hs|].
  apply IH.
  - unfold scored. rewrite insertSorted_perm. now constructor.
  - now apply insertSorted_strongly.
Qed.

Lemma numeqb_refl (a : num) : isNaN a = false -> numeqb a a = true.
Proof.
  destruct a as [| | |x]; try easy. intros _. apply Qeq_bool_iff. reflexivity.
Qed.

(** The head of the ranking: no score is above its score, and among the
    entries with that score it is the one seen first. *)
Lemma winner_first_seen (l : list (Probed * num)) :
  scored l -> l <> [] ->
  exists best,
    sortByScore l !! 0%nat = Some best
    /\ Forall (notBelow best) l
    /\ head (List.filter (tiedAt (snd best)) l) = Some best.
Proof.
  intros Hl Hne.
  pose proof (sort_fold_perm l []) as Hperm. cbn [app] in Hperm.
  pose proof (sort_fold_strongly l [] Hl ltac:(constructor) ltac:(constructor)) as Hs.
  pose proof (sort_fold_tied) as Htied.
  fold (sortByScore l) in Hperm, Hs.
  destruct (sortByScore l) as [|best rest] eqn:E.
  { apply Permutation_nil in Hperm. congruence. }
  exists best. split; [reflexivity|].
  assert (Hbest : isNaN (snd best) = false).
  { unfold scored in Hl. rewrite <- Hperm in Hl. now inversion Hl. }
  split.
  - rewrite <- Hperm. inversion Hs as [|? ? _ Hall]; subst.
    constructor; [|exact Hall].
    unfold notBelow. apply lt_irreflexive_eq. reflexivity.
  - specialize (Htied (snd best) l [] Hl ltac:(constructor) ltac:(constructor)).
    fold (sortByScore l) in Htied. rewrite E in Htied. cbn [List.filter app] in Htied.
    unfold tiedAt at 1 in Htied. rewrite (numeqb_refl _ Hbest) in Htied.
    now rewrite <- Htied.
Qed.

(** *** C8 *)

(** C8, counterexample. A 720p result at 2.0 MB/s and a 4K result at
    1.2 MB/s, both at 80 ms, differ in quality and speed and both score 84
    under the bounds of the batch they form. *)
Lemma different_results_tie :
  quality tieA <> quality tieB /\ loadSpeed tieA <> loadSpeed tieB /\
  calculateSourceScore tieA (batchMaxSpeed [tieA; tieB]) (batchMinPing [tieA; tieB])
                       (batchMaxPing [tieA; tieB]) == dec 84 1 /\
  calculateSourceScore tieB (batchMaxSpeed [tieA; tieB]) (batchMinPing [tieA; tieB])
                       (batchMaxPing [tieA; tieB]) == dec 84 1 /\
  ~ noTiesUnlessIdentical.
Proof.
  split; [discriminate|]. split; [discriminate|].
  split; [reflexivity|]. split; [reflexivity|].
  intros H.
  apply (H tieA tieB (batchMaxSpeed [tieA; tieB]) (batchMinPing [tieA; tieB])
           (batchMaxPing [tieA; tieB])).
  - left. discriminate.
  - reflexivity.
Qed.

(** C8, as amended. Under the same bounds, results that agree in quality,
    speed text and latency score the same; sorting by the comparator of
    [preferBestSource] rearranges the scored results so that no score is
    below the one after it; and, the scores being numbers, the entries
    that share a score keep the order in which they were seen. *)
Theorem ranking_with_ties :
  (forall (a b : TestResult) (maxSpeed minPing maxPing : num),
      quality a = quality b -> loadSpeed a = loadSpeed b ->
      pingTime a == pingTime b ->
      calculateSourceScore a maxSpeed minPing maxPing
      == calculateSourceScore b maxSpeed minPing maxPing)
  /\ (forall l : list (Probed * num),
        sortByScore l ≡ₚ l /\ Sorted notBelow (sortByScore l))
  /\ (forall (l : list (Probed * num)) (v : num),
        scored l ->
        List.filter (tiedAt v) (sortByScore l) = List.filter (tiedAt v) l).
Proof.
  split; [|split].
  - intros a b maxSpeed minPing maxPing Hq Hs Hp.
    unfold calculateSourceScore. cbv zeta. rewrite Hq, Hs.
    now rewrite (pingScore_proper _ _ Hp minPing minPing eq_refl maxPing maxPing eq_refl).
  - intros l. unfold sortByScore. split.
    + apply sort_fold_perm.
    + apply sort_fold_sorted. constructor.
  - intros l v Hl. unfold sortByScore.
    now rewrite sort_fold_tied by (assumption || constructor).
Qed.

Lemma ranking_with_ties_witness :
  calculateSourceScore tieA n1024 (ofZ 50) (ofZ 1000)
  == calculateSourceScore tieA n1024 (ofZ 50) (ofZ 1000)
  /\ List.filter (tiedAt (dec 84 1)) (sortByScore tiedRanking)
     = List.filter (tiedAt (dec 84 1)) tiedRanking.
Proof.
  destruct ranking_with_ties as (Hsame & _ & Hstable). split.
  - apply (Hsame tieA tieA n1024 (ofZ 50) (ofZ 1000)); reflexivity.
  - apply (Hstable tiedRanking (dec 84 1)). repeat constructor.
Defined.

(** *** C5 *)

Section AllProbesFail.

Variable getVideoResolutionFromM3u8 : ustring -> option TestResult.

Abbreviation probeSource := (probeSource getVideoResolutionFromM3u8).
Abbreviation probeBatches := (probeBatches getVideoResolutionFromM3u8).

(** The batches cover the list in order: with a positive batch size and
    fuel for every batch, the loop returns one entry per source. *)
Lemma probeBatches_all (sources : list SearchResult) (batchSize : nat) :
  (0 < batchSize)%nat ->
  forall (fuel start : nat) (acc : list (option Probed)),
    (List.length sources - start <= fuel * batchSize)%nat ->
    probeBatches fuel start batchSize sources acc
    = acc ++ List.map probeSource (drop start sources).
Proof.
  intros Hb. induction fuel as [|fuel IH]; intros start acc Hfuel;
    cbn [Scoring.probeBatches].
  - rewrite drop_ge by lia. now rewrite app_nil_r.
  - destruct (start <? List.length sources)%nat eqn:E.
    + apply Nat.ltb_lt in E. rewrite IH by lia.
      rewrite <- app_assoc. f_equal. rewrite <- List.map_app. f_equal.
      unfold slice. replace (start + batchSize - start)%nat with batchSize by lia.
      rewrite <- drop_drop. apply take_drop.
    + apply Nat.ltb_ge in E. rewrite drop_ge by lia. now rewrite app_nil_r.
Qed.

Lemma recordResult_failures (sources : list SearchResult)
    (m : gmap ustring TestResult) (n k : nat) :
  (k + n <= List.length sources)%nat ->
  fold_left (recordResult sources)
            (imap (fun i r => (k + i, r)%nat) (replicate n (@None Probed)))
            (Returned m)
  = Returned m.
Proof.
  revert k. induction n as [|n IH]; intros k Hk; [reflexivity|].
  cbn [replicate]. rewrite imap_cons. cbn [fold_left].
  assert (Hstep : recordResult sources (Returned m) ((k + 0)%nat, None) = Returned m).
  { unfold recordResult. cbn [bind fst snd].
    destruct (lookup_lt_is_Some_2 sources (k + 0)) as [s Hs]; [lia|].
    now rewrite Hs. }
  rewrite Hstep.
  rewrite (imap_ext _ (fun i r => ((S k + i)%nat, r))).
  - apply IH. lia.
  - intros i x _. cbn. f_equal. lia.
Qed.

Lemma failed_probes (l : list SearchResult) :
  Forall (fun src => probeSource src = None) l ->
  List.map probeSource l = replicate (List.length l) None.
Proof.
  induction 1 as [|s l Hs _ IH]; [reflexivity|].
  cbn [List.map List.length replicate]. now rewrite Hs, IH.
Qed.

(** C5. For every non-empty candidate list, if every probe fails, the
    selection returns the first candidate and does not throw (a list of
    one is returned without probing; otherwise the map published is
    empty). *)
Theorem preferBestSource_all_probes_fail
    (first : SearchResult) (others : list SearchResult) :
  Forall (fun src => probeSource src = None) (first :: others) ->
  preferBestSource getVideoResolutionFromM3u8 (first :: others)
  = Returned {| chosen := Some first;
                published := match others with
                             | [] => None
                             | _ => Some ∅
                             end |}.
Proof.
  intros Hfail. unfold preferBestSource.
  set (sources := first :: others) in *.
  destruct others as [|second others]; [reflexivity|].
  change (List.length sources =? 1)%nat with false. cbv iota.
  assert (Hlen : (2 <= List.length sources)%nat) by (subst sources; simpl; lia).
  assert (Hall : probeBatches (List.length sources) 0
                   (Nat.div (List.length sources + 1) 2) sources []
                 = replicate (List.length sources) None).
  { rewrite probeBatches_all.
    - cbn [app drop]. now apply failed_probes.
    - apply Nat.div_str_pos. lia.
    - assert (1 <= Nat.div (List.length sources + 1) 2)%nat
        by (apply Nat.div_le_lower_bound; lia).
      nia. }
  rewrite Hall.
  rewrite (recordResult_failures sources ∅ (List.length sources) 0) by lia.
  cbn [bind].
  assert (Hnone : omap (fun r : option Probed => r)
                       (replicate (List.length sources) None) = []).
  { clear. induction (List.length sources) as [|n IH]; [reflexivity | exact IH]. }
  rewrite Hnone. reflexivity.
Qed.

End AllProbesFail.

Lemma preferBestSource_all_probes_fail_witness :
  preferBestSource (fun _ => None) [noEpisodes; oneEpisode]
  = Returned {| chosen := Some noEpisodes; published := Some ∅ |}.
Proof.
  apply (preferBestSource_all_probes_fail (fun _ => None) noEpisodes [oneEpisode]).
  repeat constructor.
Defined.

(** Two of four candidates measured, 720p at 1.5 MB/s and 90 ms against
    1080p at 3.2 MB/s and 40 ms: the 1080p source wins, and the map
    published holds the two measurements. *)
Lemma two_of_four_measured :
  exists info,
    preferBestSource twoAnswer fourCandidates
    = Returned {| chosen := Some (candidate "s4"); published := Some info |}
    /\ quality <$> info !! str "s2-7" = Some (str "720p")
    /\ quality <$> info !! str "s4-7" = Some (str "1080p")
    /\ info !! str "s1-7" = None /\ info !! str "s3-7" = None.
Proof. eexists. split; [vm_compute; reflexivity|]. repeat split. Qed.

End SelectionFacts.

(** ** The default ad filter *)

Module AdFilterFacts.

Import AdFilter.

Lemma split_not_nil (sep : N) (s : ustring) : split sep s <> [].
Proof.
  destruct s as [|c s]; cbn [split]; [discriminate|].
  destruct (c =? sep)%N; [discriminate|]. destruct (split sep s); discriminate.
Qed.

Lemma split_no_sep (sep : N) (s : ustring) :
  Forall (fun l => sep ∉ l) (split sep s).
Proof.
  induction s as [|c s IH]; cbn [split].
  - repeat constructor. apply not_elem_of_nil.
  - destruct (c =? sep)%N eqn:E.
    + constructor; [apply not_elem_of_nil | exact IH].
    + apply N.eqb_neq in E. destruct (split sep s) as [|l ls].
      * repeat constructor. intros H. apply list_elem_of_singleton in H. congruence.
      * inversion IH as [|? ? Hl Hls]; subst. constructor; [|exact Hls].
        intros H. apply elem_of_cons in H as [H|H]; [congruence | now apply Hl].
Qed.

Lemma split_single (sep : N) (l : ustring) : sep ∉ l -> split sep l = [l].
Proof.
  induction l as [|c l IH]; intros H; cbn [split]; [reflexivity|].
  apply not_elem_of_cons in H as [Hc Hl].
  destruct (c =? sep)%N eqn:E; [apply N.eqb_eq in E; congruence|].
  now rewrite (IH Hl).
Qed.

Lemma split_app (sep : N) (l t : ustring) :
  sep ∉ l -> split sep (l ++ sep :: t) = l :: split sep t.
Proof.
  induction l as [|c l IH]; intros H; cbn [app split].
  - now rewrite N.eqb_refl.
  - apply not_elem_of_cons in H as [Hc Hl].
    destruct (c =? sep)%N eqn:E; [apply N.eqb_eq in E; congruence|].
    now rewrite (IH Hl).
Qed.

(** Splitting what was joined gives the parts back. *)
Lemma split_join (sep : N) (parts : list ustring) :
  parts <> [] -> Forall (fun l => sep ∉ l) parts ->
  split sep (join sep parts) = parts.
Proof.
  intros Hne H. induction H as [|l parts Hl Hparts IH]; [congruence|].
  destruct parts as [|l' parts]; cbn [join].
  - now apply split_single.
  - rewrite split_app by exact Hl. f_equal. apply IH. discriminate.
Qed.

Lemma join_nil_inv (sep : N) (parts : list ustring) :
  join sep parts = [] -> parts = [] \/ parts = [[]].
Proof.
  destruct parts as [|l [|l' parts]]; cbn [join]; intros H; auto.
  - right. now subst.
  - destruct l; discriminate H.
Qed.

(** *** The loop is the scan *)

Lemma step_scan (type : ustring) (lines : list ustring) (st : LoopState) :
  filteredLines (fold_left (step type) lines st)
  = filteredLines st ++
    scan (isRuyi type) (if nextdelete st then tail lines else lines).
Proof.
  revert st. induction lines as [|line rest IH]; intros [nd fl]; cbn [fold_left].
  - cbn. destruct nd; now rewrite app_nil_r.
  - rewrite IH. unfold step. cbn [nextdelete filteredLines].
    destruct nd; cbn [nextdelete filteredLines tail]; [reflexivity|].
    cbn [scan]. fold (isRuyi type).
    destruct (includes line discontinuity); cbn [negb nextdelete filteredLines];
      [reflexivity|].
    destruct (isRuyi type && isFiller line); cbn [nextdelete filteredLines].
    + destruct rest; reflexivity.
    + now rewrite <- app_assoc.
Qed.

Lemma defaultFilter_scan (type m : ustring) :
  m <> [] -> defaultFilter type m = join LF (scan (isRuyi type) (split LF m)).
Proof.
  intros H. unfold defaultFilter. destruct m as [|c m]; [congruence|].
  now rewrite step_scan.
Qed.

(** The scan induction: a line is dropped, dropped with its successor, or
    kept. *)
Lemma scan_ind (ruyi : bool) (P : list ustring -> Prop) :
  P [] ->
  (forall line rest, includes line discontinuity = true -> P rest -> P (line :: rest)) ->
  (forall line, includes line discontinuity = false ->
                ruyi && isFiller line = true -> P [line]) ->
  (forall line next rest, includes line discontinuity = false ->
                          ruyi && isFiller line = true ->
                          P rest -> P (line :: next :: rest)) ->
  (forall line rest, plain ruyi line = true -> P rest -> P (line :: rest)) ->
  forall lines, P lines.
Proof.
  intros Hnil Hdisc Hlast Hpair Hplain lines.
  assert (H : P lines /\ forall l, P (l :: lines)); [|apply H].
  induction lines as [|next rest [IH1 IH2]].
  - split; [exact Hnil|]. intros l.
    destruct (includes l discontinuity) eqn:Ed; [now apply Hdisc|].
    destruct (ruyi && isFiller l) eqn:Ef; [now apply Hlast|].
    apply Hplain; [|exact Hnil]. unfold plain. now rewrite Ed, Ef.
  - split; [apply IH2|]. intros l.
    destruct (includes l discontinuity) eqn:Ed; [apply Hdisc; auto|].
    destruct (ruyi && isFiller l) eqn:Ef; [now apply Hpair|].
    apply Hplain; [|apply IH2]. unfold plain. now rewrite Ed, Ef.
Qed.

Lemma plain_inv (ruyi : bool) (line : ustring) :
  plain ruyi line = true ->
  includes line discontinuity = false /\ ruyi && isFiller line = false.
Proof.
  unfold plain. intros H. apply andb_true_iff in H as [Hd Hf].
  now apply negb_true_iff in Hd, Hf.
Qed.

Lemma scan_plain (ruyi : bool) (lines : list ustring) :
  Forall (fun line => plain ruyi line = true) (scan ruyi lines).
Proof.
  induction lines
    as [|line rest Hd IH|line Hd Hf|line next rest Hd Hf IH|line rest Hp IH]
    using (scan_ind ruyi); cbn [scan].
  - constructor.
  - now rewrite Hd.
  - rewrite Hd, Hf. constructor.
  - now rewrite Hd, Hf.
  - destruct (plain_inv _ _ Hp) as [Hd Hf]. rewrite Hd, Hf. now constructor.
Qed.

Lemma scan_fixed (ruyi : bool) (lines : list ustring) :
  Forall (fun line => plain ruyi line = true) lines -> scan ruyi lines = lines.
Proof.
  induction 1 as [|line rest Hp _ IH]; cbn [scan]; [reflexivity|].
  destruct (plain_inv _ _ Hp) as [Hd Hf]. now rewrite Hd, Hf, IH.
Qed.

(** The lines kept are lines of the manifest, in their order. *)
Lemma scan_sublist (ruyi : bool) (lines : list ustring) :
  scan ruyi lines `sublist_of` lines.
Proof.
  induction lines
    as [|line rest Hd IH|line Hd Hf|line next rest Hd Hf IH|line rest Hp IH]
    using (scan_ind ruyi); cbn [scan].
  - constructor.
  - rewrite Hd. now constructor.
  - rewrite Hd, Hf. apply sublist_nil_l.
  - rewrite Hd, Hf. now do 2 constructor.
  - destruct (plain_inv _ _ Hp) as [Hd Hf]. rewrite Hd, Hf. now constructor.
Qed.

Lemma sublist_Forall {A : Type} (P : A -> Prop) (kept l : list A) :
  kept `sublist_of` l -> Forall P l -> Forall P kept.
Proof.
  induction 1 as [|x k l _ IH|x k l _ IH]; intros H.
  - constructor.
  - inversion H; subst. constructor; auto.
  - inversion H; subst. auto.
Qed.

(** A second pass changes nothing, whatever the manifest holds. *)
Lemma defaultFilter_idempotent (type m : ustring) :
  defaultFilter type (defaultFilter type m) = defaultFilter type m.
Proof.
  destruct m as [|c m]; [reflexivity|].
  rewrite (defaultFilter_scan type (c :: m)) by discriminate.
  set (kept := scan (isRuyi type) (split LF (c :: m))).
  destruct (join LF kept) as [|c' out] eqn:E; [reflexivity|].
  rewrite defaultFilter_scan by discriminate. rewrite <- E.
  rewrite split_join.
  - now rewrite scan_fixed by apply scan_plain.
  - intros ->. discriminate E.
  - apply (sublist_Forall _ _ (split LF (c :: m))); [apply scan_sublist|].
    apply split_no_sep.
Qed.

(** *** The specification's reading *)

Lemma markersIsolated_tail (line : ustring) (rest : list ustring) :
  markersIsolated (line :: rest) = true -> markersIsolated rest = true.
Proof. cbn [markersIsolated]. intros H. now apply andb_true_iff in H. Qed.

(** Where filler marker lines stand alone the scan removes what the
    specification says. *)
Lemma scan_as_claimed (ruyi : bool) (lines : list ustring) :
  (ruyi = true -> markersIsolated lines = true) ->
  scan ruyi lines = keptAsClaimed ruyi false lines.
Proof.
  induction lines
    as [|line rest Hd IH|line Hd Hf|line next rest Hd Hf IH|line rest Hp IH]
    using (scan_ind ruyi); intros Hiso; cbn [scan keptAsClaimed].
  - reflexivity.
  - rewrite Hd. cbn [orb app].
    assert (Hm : ruyi && isFiller line = false).
    { destruct ruyi; [|reflexivity]. specialize (Hiso eq_refl).
      cbn [markersIsolated] in Hiso. rewrite Hd in Hiso.
      destruct (isFiller line); [discriminate Hiso | reflexivity]. }
    rewrite Hm. apply IH.
    intros ->. eapply markersIsolated_tail, Hiso. reflexivity.
  - now rewrite Hd, Hf.
  - rewrite Hd, Hf. cbn [orb app].
    assert (Hr : ruyi = true) by (now destruct ruyi).
    specialize (Hiso Hr). pose proof Hiso as Hiso'.
    cbn [markersIsolated] in Hiso.
    subst ruyi. cbn [andb] in Hf. rewrite Hf, Hd in Hiso.
    cbn [negb andb] in Hiso.
    destruct (isFiller next) eqn:En; [discriminate Hiso|].
    cbn [andb]. rewrite orb_true_r. cbn [app].
    apply IH. intros _.
    now apply markersIsolated_tail, markersIsolated_tail in Hiso'.
  - destruct (plain_inv _ _ Hp) as [Hd Hf]. rewrite Hd, Hf. cbn [orb app].
    f_equal. apply IH.
    intros ->. eapply markersIsolated_tail, Hiso. reflexivity.
Qed.

(** *** C2 *)

(** C2, counterexample. For ruyi, in a manifest whose first two lines are
    filler marker lines, the third line follows a marker line and stays:
    the second marker line was consumed as the line after the first. *)
Lemma marker_after_marker_keeps_next :
  defaultFilter (str "ruyi") adjacentMarkers = str "seg-1.ts" /\
  filterAsClaimed (str "ruyi") adjacentMarkers = [] /\
  defaultFilter (str "ruyi") adjacentMarkers
  <> filterAsClaimed (str "ruyi") adjacentMarkers.
Proof. split; [reflexivity|]. split; [reflexivity|]. discriminate. Qed.

(** C2, as amended. For every manifest the default filter is idempotent;
    its output is the scan of the lines (a discontinuity line is dropped,
    and for ruyi a filler marker line that the scan reaches is dropped
    together with the line after it), which is a subsequence of the lines;
    and when no filler marker line carries the discontinuity marker or
    directly follows another one, the lines removed are exactly the
    discontinuity lines and, for ruyi, the filler marker lines and the
    line after each. *)
Theorem defaultFilter_amended (type m3u8Content : ustring) :
  defaultFilter type (defaultFilter type m3u8Content) = defaultFilter type m3u8Content
  /\ (m3u8Content <> [] ->
      defaultFilter type m3u8Content
      = join LF (scan (isRuyi type) (split LF m3u8Content)))
  /\ scan (isRuyi type) (split LF m3u8Content) `sublist_of` split LF m3u8Content
  /\ ((isRuyi type = true -> markersIsolated (split LF m3u8Content) = true) ->
      defaultFilter type m3u8Content = filterAsClaimed type m3u8Content).
Proof.
  split; [apply defaultFilter_idempotent|].
  split; [apply defaultFilter_scan|].
  split; [apply scan_sublist|].
  intros Hiso. destruct m3u8Content as [|c m]; [reflexivity|].
  rewrite defaultFilter_scan by discriminate. unfold filterAsClaimed.
  now rewrite scan_as_claimed.
Qed.

Lemma defaultFilter_amended_witness :
  defaultFilter (str "ruyi") sampleManifest
  = join LF [str "#EXTM3U"; str "#EXTINF:6.000000,"; str "seg-1.ts"]
  /\ defaultFilter (str "ruyi") sampleManifest
     = filterAsClaimed (str "ruyi") sampleManifest.
Proof.
  split; [reflexivity|].
  apply (defaultFilter_amended (str "ruyi") sampleManifest).
  intros _. reflexivity.
Defined.

End AdFilterFacts.

(** ** Fatal stream errors *)

Module HlsRecoveryFacts.

Import HlsRecovery.

(** A run of one recoverable failure: every delivery issues the same call
    and leaves the session alive. *)
Lemma deliver_recoverable (failure : ErrorData) (call : HlsCall) :
  onError failure = [call] -> call <> destroy ->
  forall (n : nat) (issued : list HlsCall),
    fold_left deliver (replicate n failure) {| calls := issued; destroyed := false |}
    = {| calls := issued ++ replicate n call; destroyed := false |}.
Proof.
  intros Hcall Hne. induction n as [|n IH]; intros issued; cbn [replicate fold_left].
  - now rewrite app_nil_r.
  - unfold deliver at 2. cbn [destroyed calls]. rewrite Hcall.
    assert (Halive : existsb (fun c => match c with destroy => true | _ => false end)
                             [call] = false).
    { destruct call; [reflexivity | reflexivity | congruence]. }
    rewrite Halive, IH. now rewrite <- app_assoc.
Qed.

Lemma network_failures_retry (n : nat) :
  run (replicate n fatalNetwork)
  = {| calls := replicate n startLoad; destroyed := false |}.
Proof.
  unfold run, initial.
  now rewrite (deliver_recoverable fatalNetwork startLoad eq_refl).
Qed.

Lemma media_failures_retry (n : nat) :
  run (replicate n fatalMedia)
  = {| calls := replicate n recoverMediaError; destroyed := false |}.
Proof.
  unfold run, initial.
  now rewrite (deliver_recoverable fatalMedia recoverMediaError eq_refl).
Qed.

(** C3, counterexample. Two fatal network errors in a row are answered by
    two [startLoad] calls and a third by a third; the session is never
    destroyed, so no retry budget exists for network or media errors. *)
Lemma second_network_failure_retries :
  run [fatalNetwork; fatalNetwork]
  = {| calls := [startLoad; startLoad]; destroyed := false |}
  /\ run [fatalNetwork; fatalNetwork; fatalNetwork]
     = {| calls := [startLoad; startLoad; startLoad]; destroyed := false |}
  /\ ~ boundedRecovery fatalNetwork
  /\ ~ boundedRecovery fatalMedia.
Proof.
  split; [reflexivity|]. split; [reflexivity|]. split.
  - intros [budget H]. specialize (H budget (Nat.le_refl _)).
    rewrite network_failures_retry in H. discriminate H.
  - intros [budget H]. specialize (H budget (Nat.le_refl _)).
    rewrite media_failures_retry in H. discriminate H.
Qed.

(** C3, as amended. The handler keeps no retry count: after any number of
    consecutive fatal network errors it has called [startLoad] that many
    times, after any number of fatal media errors [recoverMediaError] that
    many times, and the session is not destroyed; a fatal error of any
    other type destroys the instance, and a non-fatal error does
    nothing. *)
Theorem recovery_is_unbounded (n : nat) :
  run (replicate n fatalNetwork)
  = {| calls := replicate n startLoad; destroyed := false |}
  /\ run (replicate n fatalMedia)
     = {| calls := replicate n recoverMediaError; destroyed := false |}
  /\ (forall data : ErrorData,
        fatal data = true -> type data <> NETWORK_ERROR -> type data <> MEDIA_ERROR ->
        run [data] = {| calls := [destroy]; destroyed := true |})
  /\ (forall data : ErrorData, fatal data = false -> onError data = []).
Proof.
  split; [apply network_failures_retry|].
  split; [apply media_failures_retry|].
  split.
  - intros [f t] Hf Hn Hm. cbn in Hf, Hn, Hm. subst f.
    destruct t; try congruence; reflexivity.
  - intros [f t] Hf. cbn in Hf. subst f. reflexivity.
Qed.

Lemma recovery_is_unbounded_witness :
  run (replicate 5 fatalNetwork)
  = {| calls := replicate 5 startLoad; destroyed := false |}
  /\ run [{| fatal := true; type := KEY_SYSTEM_ERROR |}]
     = {| calls := [destroy]; destroyed := true |}
  /\ onError {| fatal := false; type := NETWORK_ERROR |} = [].
Proof.
  destruct (recovery_is_unbounded 5) as (Hnet & _ & Hother & Hquiet).
  split; [exact Hnet|]. split.
  - apply Hother; [reflexivity | discriminate | discriminate].
  - apply Hquiet. reflexivity.
Defined.

End HlsRecoveryFacts.

(** ** Resume seek *)

Module ResumeFacts.

Import JsNumFacts Resume.
Local Open Scope num_scope.

Lemma positive_truthy (x : num) : (x >? n0) = true -> truthy x = true.
Proof.
  destruct x as [| | |q]; try easy.
  unfold gt. intros H. apply lt_Fin in H. cbn [truthy].
  apply negb_true_iff, Qzero_false. change (inject_Z 0) with 0%Q in H. lra.
Qed.

Lemma seeks_cleared (durations : list num) : seeks None durations = [].
Proof. induction durations as [|d later IH]; [reflexivity | exact IH]. Qed.

(** Whatever the ref holds, it yields at most one seek. *)
Lemma seeks_at_most_once (resumeTimeRef : option num) (durations : list num) :
  (List.length (seeks resumeTimeRef durations) <= 1)%nat.
Proof.
  destruct durations as [|d later]; cbn [seeks]; [cbn; lia|].
  cbn [resumeTimeRef' onCanPlay].
  destruct (seek _); cbn [List.length]; rewrite seeks_cleared; cbn; lia.
Qed.

(** C4, counterexample. A 3-second stream with resume target 2: the
    target is within 2 seconds of the end, and the seek goes to 0, not to
    [duration - 5 = -2]. *)
Lemma short_stream_seeks_to_zero :
  (ofZ 2 >=? ofZ 3 - n2) = true
  /\ seek (onCanPlay (Some (ofZ 2)) (ofZ 3)) = Some n0
  /\ claimedClamp (ofZ 3) == ofZ (-2)
  /\ ~ n0 == claimedClamp (ofZ 3).
Proof.
  split; [reflexivity|]. split; [reflexivity|]. split; [reflexivity|].
  discriminate.
Qed.

(** C4, as amended. With a pending resume target above zero and a known
    duration, a target within 2 seconds of the end is sought at
    [max(0, duration - 5)]; for duration 100 and target 99 that is 95;
    the ref is cleared, so further canplay events seek nowhere. *)
Theorem resume_seek_clamped (resumeTime duration : num) (later : list num) :
  (resumeTime >? n0) = true ->
  truthy duration = true ->
  (resumeTime >=? duration - n2) = true ->
  seek (onCanPlay (Some resumeTime) duration) = Some (max n0 (duration - n5))
  /\ resumeTimeRef' (onCanPlay (Some resumeTime) duration) = None
  /\ seeks (Some resumeTime) (duration :: later) = [max n0 (duration - n5)]
  /\ seek (onCanPlay (Some (ofZ 99)) (ofZ 100)) = Some (ofZ 95).
Proof.
  intros Hpos Hdur Hnear.
  assert (Hseek : seek (onCanPlay (Some resumeTime) duration)
                  = Some (max n0 (duration - n5))).
  { unfold onCanPlay. cbn [seek]. rewrite positive_truthy, Hpos by exact Hpos.
    cbn [andb]. unfold orElse. rewrite Hdur. cbv iota. rewrite Hdur, Hnear.
    reflexivity. }
  split; [exact Hseek|]. split; [reflexivity|]. split; [|reflexivity].
  cbn [seeks]. rewrite Hseek. cbn [resumeTimeRef' onCanPlay].
  now rewrite seeks_cleared.
Qed.

Lemma resume_seek_clamped_witness :
  seek (onCanPlay (Some (ofZ 99)) (ofZ 100)) = Some (max n0 (ofZ 100 - n5))
  /\ resumeTimeRef' (onCanPlay (Some (ofZ 99)) (ofZ 100)) = None
  /\ seeks (Some (ofZ 99)) [ofZ 100; ofZ 100] = [max n0 (ofZ 100 - n5)]
  /\ seek (onCanPlay (Some (ofZ 99)) (ofZ 100)) = Some (ofZ 95).
Proof.
  apply (resume_seek_clamped (ofZ 99) (ofZ 100) [ofZ 100]); reflexivity.
Defined.

End ResumeFacts.

(** ** Progress flush *)

Module ProgressFacts.

Import JsNumFacts Progress.
Local Open Scope num_scope.

Lemma orZero_below_one (t : num) :
  (t <? ofZ 1) = true -> (orZero (Some t) <? ofZ 1) = true.
Proof.
  intros H. cbn [orZero]. unfold orElse. destruct (truthy t); [exact H | reflexivity].
Qed.

Lemma orZero_unknown (d : option num) :
  d = None \/ (exists v, d = Some v /\ truthy v = false) ->
  truthy (orZero d) = false.
Proof.
  intros [->|(v & -> & Hv)]; [reflexivity|].
  cbn [orZero]. unfold orElse. now rewrite Hv.
Qed.

(** The shape of the early return. *)
Lemma skip_when_junk (refs : Refs) (now later : Z) (saveOk : bool) :
  (forall player, artPlayerRef refs = Some player ->
                  (orZero (currentTime player) <? ofZ 1) = true \/
                  truthy (orZero (duration player)) = false) ->
  saveCurrentPlayProgress refs now later saveOk
  = {| written := None; lastSaveTimeRef' := lastSaveTimeRef refs |}.
Proof.
  intros H. unfold saveCurrentPlayProgress.
  destruct (artPlayerRef refs) as [player|]; [|reflexivity].
  destruct (present (currentSourceRef refs)); [|reflexivity].
  destruct (present (currentIdRef refs)); [|reflexivity].
  destruct (present (videoTitleRef refs)); [|reflexivity].
  destruct (detailRef refs) as [detail|]; [|reflexivity].
  destruct (source_name detail); [reflexivity|].
  destruct (H player eq_refl) as [Ht|Hd].
  - now rewrite Ht.
  - rewrite Hd. now rewrite orb_true_r.
Qed.

(** C6. Whenever the play time is below one second, or the duration is
    zero, NaN or undefined, [saveCurrentPlayProgress] writes nothing and
    leaves [lastSaveTimeRef] as it was. *)
Theorem junk_progress_not_saved (refs : Refs) (now later : Z) (saveOk : bool) :
  (forall player, artPlayerRef refs = Some player ->
      (exists t, currentTime player = Some t /\ (t <? ofZ 1) = true)
      \/ currentTime player = None
      \/ duration player = None
      \/ (exists d, duration player = Some d /\ truthy d = false)) ->
  written (saveCurrentPlayProgress refs now later saveOk) = None
  /\ lastSaveTimeRef' (saveCurrentPlayProgress refs now later saveOk)
     = lastSaveTimeRef refs.
Proof.
  intros H. rewrite skip_when_junk; [split; reflexivity|].
  intros player Hp. destruct (H player Hp) as [(t & Ht & Hlt)|[Hnone|[Hd|Hd]]].
  - left. rewrite Ht. now apply orZero_below_one.
  - left. now rewrite Hnone.
  - right. apply orZero_unknown. now left.
  - right. apply orZero_unknown. now right.
Qed.

Lemma junk_progress_not_saved_witness :
  written (saveCurrentPlayProgress
             (sampleRefs {| currentTime := Some (dec 1 2); duration := Some (ofZ 1200) |})
             5000 5001 true) = None
  /\ lastSaveTimeRef' (saveCurrentPlayProgress
             (sampleRefs {| currentTime := Some (dec 1 2); duration := Some (ofZ 1200) |})
             5000 5001 true) = 1000%Z.
Proof.
  apply (junk_progress_not_saved
           (sampleRefs {| currentTime := Some (dec 1 2); duration := Some (ofZ 1200) |})
           5000 5001 true).
  intros player [= <-]. left. exists (dec 1 2). split; reflexivity.
Defined.

(** The same refs with a real position are written. *)
Lemma progress_saved_otherwise :
  exists record,
    written (saveCurrentPlayProgress
               (sampleRefs {| currentTime := Some (dec 125 10);
                              duration := Some (ofZ 1200) |})
               5000 5001 true) = Some (str "ruyi", str "42", record)
    /\ play_time record = ofZ 12 /\ total_time record = ofZ 1200.
Proof. eexists. split; [reflexivity|]. split; reflexivity. Qed.

End ProgressFacts.

(** ** Intro skip *)

Module SkipFacts.

Import JsNumFacts Skip.
Local Open Scope num_scope.

(** Inside the 1.5 s window the handler does nothing. *)
Lemma rate_limited (cfg : SkipConfig) (last : Z) (ticks : list Tick) :
  Forall (fun e => (now e - last < 1500)%Z) ticks ->
  runTicks cfg last ticks = ([], last).
Proof.
  induction 1 as [|e later He _ IH]; cbn [runTicks]; [reflexivity|].
  unfold onTimeUpdate. apply Z.ltb_lt in He. rewrite He.
  destruct (negb (enable cfg)); now rewrite IH.
Qed.

Lemma current_below_intro (current intro : num) :
  (intro >? n0) = true -> (current <? intro) = true ->
  (orElse current n0 <? intro) = true.
Proof.
  intros Hpos Hlt. unfold orElse. destruct (truthy current); assumption.
Qed.

Lemma filter_outroOnly (actions : list Action) :
  outroOnly actions -> List.filter isSeek actions = [].
Proof.
  induction 1 as [|a l Ha _ IH]; [reflexivity|].
  cbn [List.filter]. now rewrite Ha.
Qed.

(** The first check after the window: the seek, its notice, and whatever
    the outro branch adds. *)
Lemma onTimeUpdate_intro (cfg : SkipConfig) (last : Z) (e : Tick) :
  enable cfg = true ->
  (intro_time cfg >? n0) = true ->
  (playerCurrentTime e <? intro_time cfg) = true ->
  (1500 <= now e - last)%Z ->
  exists outro,
    onTimeUpdate cfg last e
    = (SetCurrentTime (intro_time cfg) :: NoticeIntro (intro_time cfg) :: outro, now e)
    /\ outroOnly outro
    /\ ((outro_time cfg <? n0) = false -> outro = []).
Proof.
  intros Hen Hpos Hlt Hdue. unfold onTimeUpdate. rewrite Hen. cbn [negb].
  assert (Hwin : (now e - last <? 1500)%Z = false) by (apply Z.ltb_ge; lia).
  rewrite Hwin, Hpos, (current_below_intro _ _ Hpos Hlt). cbn [andb app].
  eexists. split; [reflexivity|].
  destruct (outro_time cfg <? n0); cbn [andb].
  - split; [|discriminate].
    destruct (andb _ _); [|constructor].
    destruct (currentEpisodeIndex e <? _)%Z; repeat constructor.
  - split; [constructor | reflexivity].
Qed.

(** C7. With skipping enabled, [intro_time > 0] and a position below it, a
    time update that passes the rate limit seeks to [intro_time], once;
    the time updates of the next 1.5 s issue nothing at all.  For
    [intro_time = 90], no outro offset and position 30 the actions are the
    one seek to 90 and its notice. *)
Theorem intro_skipped_once (cfg : SkipConfig) (last : Z) (e : Tick) (later : list Tick) :
  enable cfg = true ->
  (intro_time cfg >? n0) = true ->
  (playerCurrentTime e <? intro_time cfg) = true ->
  (1500 <= now e - last)%Z ->
  Forall (fun e' => (now e' - now e < 1500)%Z) later ->
  exists outro,
    runTicks cfg last (e :: later)
    = (SetCurrentTime (intro_time cfg) :: NoticeIntro (intro_time cfg) :: outro, now e)
    /\ outroOnly outro
    /\ ((outro_time cfg <? n0) = false -> outro = [])
    /\ List.filter isSeek (fst (runTicks cfg last (e :: later)))
       = [SetCurrentTime (intro_time cfg)].
Proof.
  intros Hen Hpos Hlt Hdue Hlater.
  destruct (onTimeUpdate_intro cfg last e Hen Hpos Hlt Hdue)
    as (outro & Hfirst & Honly & Hnone).
  exists outro. cbn [runTicks].
  rewrite Hfirst, (rate_limited cfg (now e) later Hlater), app_nil_r.
  split; [reflexivity|]. split; [exact Honly|]. split; [exact Hnone|].
  cbn [fst List.filter isSeek]. now rewrite filter_outroOnly.
Qed.

Lemma intro_skipped_once_witness :
  exists outro,
    runTicks introConfig 0
             [tickAt 1700000000000 (ofZ 30); tickAt 1700000000250 (ofZ 30);
              tickAt 1700000001499 (ofZ 31)]
    = (SetCurrentTime (ofZ 90) :: NoticeIntro (ofZ 90) :: outro, 1700000000000%Z)
    /\ outroOnly outro
    /\ ((outro_time introConfig <? n0) = false -> outro = [])
    /\ List.filter isSeek
         (fst (runTicks introConfig 0
                 [tickAt 1700000000000 (ofZ 30); tickAt 1700000000250 (ofZ 30);
                  tickAt 1700000001499 (ofZ 31)]))
       = [SetCurrentTime (ofZ 90)].
Proof.
  apply (intro_skipped_once introConfig 0 (tickAt 1700000000000 (ofZ 30))
           [tickAt 1700000000250 (ofZ 30); tickAt 1700000001499 (ofZ 31)]);
    try reflexivity.
  - cbn. lia.
  - repeat constructor.
Defined.

(** Once the window has passed the check runs again. *)
Lemma skip_again_after_window :
  fst (runTicks introConfig 0
         [tickAt 1700000000000 (ofZ 30); tickAt 1700000001500 (ofZ 30)])
  = [SetCurrentTime (ofZ 90); NoticeIntro (ofZ 90);
     SetCurrentTime (ofZ 90); NoticeIntro (ofZ 90)].
Proof. reflexivity. Qed.

End SkipFacts.

(** ** Danmaku cache gate *)

Module DanmakuCacheFacts.

Import DanmakuCache.
Local Open Scope Z_scope.

(** The expire time is 0 exactly when the page runs in a browser and the
    variable parses to the integer 0. *)
Lemma expire_zero_iff (env : Env) :
  getDanmakuCacheExpireTime env = 0 <->
  hasWindow env = true /\
  exists v, NEXT_PUBLIC_DANMAKU_CACHE_EXPIRE_MINUTES env = Some v /\
            parseInt10 v = Some 0.
Proof.
  unfold getDanmakuCacheExpireTime, defaultExpire. split.
  - destruct (hasWindow env); cbn [negb]; [|discriminate]. intros H.
    split; [reflexivity|].
    destruct (NEXT_PUBLIC_DANMAKU_CACHE_EXPIRE_MINUTES env) as [[|c rest]|];
      try discriminate H.
    exists (c :: rest). split; [reflexivity|].
    destruct (parseInt10 (c :: rest)) as [minutes|]; [|discriminate H].
    destruct (minutes =? 0) eqn:E0; [apply Z.eqb_eq in E0; now subst|].
    destruct (minutes >? 0) eqn:Ep; [|discriminate H].
    apply Z.eqb_neq in E0. lia.
  - intros (Hw & v & Hv & Hparse). rewrite Hw, Hv. cbn [negb].
    destruct v as [|c rest]; [discriminate Hparse|]. now rewrite Hparse.
Qed.

(** C9. When the expire time is 0 (in a browser, the variable parsing to
    the integer 0), [saveDanmakuToCache] resolves without touching the
    database and [getDanmakuFromCache] resolves to [null] without
    touching it, for every input; a missing, empty or unparsable value
    gives the default of 4320 minutes. *)
Theorem cache_disabled_at_zero (env : Env) :
  (getDanmakuCacheExpireTime env = 0 ->
   forall (C : Type) (answers : Answers) (now id : Z) (cs : list C) (db : IDB C),
     saveDanmakuToCache C env answers now id cs db = (Resolved tt, db)
     /\ getDanmakuFromCache C env answers now id db = (Resolved None, db))
  /\ (hasWindow env = true ->
      forall v, NEXT_PUBLIC_DANMAKU_CACHE_EXPIRE_MINUTES env = Some v ->
                parseInt10 v = Some 0 ->
                getDanmakuCacheExpireTime env = 0)
  /\ (NEXT_PUBLIC_DANMAKU_CACHE_EXPIRE_MINUTES env = None
      \/ (exists v, NEXT_PUBLIC_DANMAKU_CACHE_EXPIRE_MINUTES env = Some v
                    /\ parseInt10 v = None) ->
      getDanmakuCacheExpireTime env = 4320 * 60 * 1000).
Proof.
  split; [|split].
  - intros H C answers now id cs db.
    unfold saveDanmakuToCache, getDanmakuFromCache. now rewrite H.
  - intros Hw v Hv Hparse. apply expire_zero_iff. eauto.
  - unfold getDanmakuCacheExpireTime, defaultExpire.
    intros [H|(v & Hv & Hparse)]; destruct (hasWindow env); cbn [negb];
      try reflexivity.
    + now rewrite H.
    + rewrite Hv. destruct v as [|c rest]; [reflexivity|]. now rewrite Hparse.
Qed.

Lemma cache_disabled_at_zero_witness :
  saveDanmakuToCache ustring cachingOff {| openOk := true; requestOk := true |}
                     1700000000000 7 [str "hello"] emptyDB
  = (Resolved tt, emptyDB)
  /\ getDanmakuFromCache ustring cachingOff {| openOk := true; requestOk := true |}
                         1700000000000 7 emptyDB
     = (Resolved None, emptyDB).
Proof.
  apply (proj1 (cache_disabled_at_zero cachingOff)). reflexivity.
Defined.

(** With the default in force the same call opens the database and
    writes. *)
Lemma cache_enabled_writes :
  let env := {| hasWindow := true; NEXT_PUBLIC_DANMAKU_CACHE_EXPIRE_MINUTES := None |} in
  let after := snd (saveDanmakuToCache ustring env {| openOk := true; requestOk := true |}
                                       1700000000000 7 [str "hello"] emptyDB) in
  opened after = 1%nat /\ comments _ <$> store after !! 7 = Some [str "hello"].
Proof. split; reflexivity. Qed.

End DanmakuCacheFacts.

(** ** POST /api/admin/openlist *)

Module OpenListFacts.

Import OpenList.
Local Open Scope Z_scope.

(** C10, counterexample. A save request with ScanInterval 30 and no auth
    cookie is answered 401, not 400. *)
Lemma unauthenticated_save_gets_401 :
  let request := {| body := Some (saveBody (JNumber (str "30")));
                    cookieUsername := None |} in
  parseInt (ToString (ScanInterval (saveBody (JNumber (str "30"))))) = Some 30
  /\ status (fst (POST redisWorld request)) = 401
  /\ ~ rejectsWith400 redisWorld request.
Proof.
  split; [reflexivity|]. split; [reflexivity|].
  intros [H _]. discriminate H.
Qed.

Lemma ueqb_false (a b : ustring) : a <> b -> ueqb a b = false.
Proof. intros H. unfold ueqb. now apply bool_decide_eq_false. Qed.

Lemma storageType_local (w : World) :
  ueqb match NEXT_PUBLIC_STORAGE_TYPE w with
       | Some (c :: rest) => c :: rest
       | _ => str "localstorage"
       end (str "localstorage") = true
  <-> localStorageConfigured w.
Proof.
  unfold localStorageConfigured, ueqb. rewrite bool_decide_eq_true.
  destruct (NEXT_PUBLIC_STORAGE_TYPE w) as [[|c rest]|].
  - split; auto.
  - split.
    + intros ->. auto.
    + intros [H|[H|H]]; try discriminate. now inversion H.
  - split; auto.
Qed.

Lemma authorised_cases (w : World) (request : Request) :
  authorised w request
  <-> match cookieUsername request with
      | None | Some [] => False
      | Some name =>
          match getConfig w with
          | None => False
          | Some adminConfig => isAdmin w adminConfig name = true
          end
      end.
Proof.
  unfold authorised. split.
  - intros (name & adminConfig & -> & Hne & -> & Ha).
    destruct name; [congruence | exact Ha].
  - destruct (cookieUsername request) as [[|c name]|]; try easy.
    destruct (getConfig w) as [adminConfig|]; [|easy].
    intros Ha. exists (c :: name), adminConfig.
    split; [reflexivity|]. split; [discriminate|]. split; [reflexivity | exact Ha].
Qed.

(** C10, as amended. A save request whose ScanInterval parses to an
    integer strictly between 0 and 60 never reaches [db.saveAdminConfig],
    so the stored configuration is unchanged, and its status is 400, 401
    or 500.  It is 400 exactly when local storage is configured or the
    request passes the cookie and permission checks, with or without URL,
    account and password: missing ones are answered 400 before the
    interval is looked at, and with all three the answer is the interval
    error.  A ScanInterval that does not parse counts as 0, and then the
    answer is never the interval error. *)
Theorem short_interval_not_saved (w : World) (request : Request) (b : Body) (n : Z) :
  body request = Some b ->
  action b = JString (str "save") ->
  parseInt (ToString (ScanInterval b)) = Some n ->
  0 < n < 60 ->
  snd (POST w request) = None
  /\ (forall stored, storedAfter w request stored = stored)
  /\ In (status (fst (POST w request))) [400; 401; 500]
  /\ (rejectsWith400 w request <-> localStorageConfigured w \/ authorised w request)
  /\ (localStorageConfigured w ->
      fst (POST w request) = json LocalStorageUnsupported 400)
  /\ (~ localStorageConfigured w -> authorised w request ->
      fst (POST w request)
      = json (if ToBoolean (URL b) && ToBoolean (Username b) && ToBoolean (Password b)
              then IntervalTooShort else MissingCredentials) 400)
  /\ (reachesSave w request b ->
      fst (POST w request) = json IntervalTooShort 400)
  /\ (forall (request' : Request) (b' : Body),
        body request' = Some b' ->
        parseInt (ToString (ScanInterval b')) = None ->
        scanIntervalOf (ScanInterval b') = 0
        /\ message (fst (POST w request')) <> IntervalTooShort).
Proof.
  intros Hbody Haction Hparse Hrange.
  assert (Hcheck : (scanIntervalOf (ScanInterval b) >? 0)
                   && (scanIntervalOf (ScanInterval b) <? 60) = true).
  { unfold scanIntervalOf. rewrite Hparse. apply andb_true_iff. split.
    - apply Z.gtb_lt. lia.
    - apply Z.ltb_lt. lia. }
  assert (Hlocal : localStorageConfigured w ->
                   POST w request = (json LocalStorageUnsupported 400, None)).
  { intros H. apply storageType_local in H. unfold POST. now rewrite H. }
  assert (Hauth : ~ localStorageConfigured w -> authorised w request ->
                  POST w request
                  = (json (if ToBoolean (URL b) && ToBoolean (Username b)
                              && ToBoolean (Password b)
                           then IntervalTooShort else MissingCredentials) 400, None)).
  { intros Hnl (name & adminConfig & Hc & Hne & Hg & Ha).
    rewrite <- storageType_local in Hnl. apply not_true_is_false in Hnl.
    unfold POST. rewrite Hnl, Hbody, Haction, Hcheck, Hc, Hg, Ha.
    destruct name as [|c name]; [congruence|].
    change (ueqb (str "save") (str "save")) with true. cbv iota.
    now destruct (ToBoolean (URL b)), (ToBoolean (Username b)),
      (ToBoolean (Password b)). }
  assert (Hother : ~ localStorageConfigured w -> ~ authorised w request ->
                   snd (POST w request) = None
                   /\ (status (fst (POST w request)) = 401
                       \/ status (fst (POST w request)) = 500)).
  { intros Hnl Hna. rewrite <- storageType_local in Hnl.
    apply not_true_is_false in Hnl. rewrite authorised_cases in Hna.
    unfold POST. rewrite Hnl, Hbody.
    destruct (cookieUsername request) as [[|c name]|]; [cbn; auto | | cbn; auto].
    destruct (getConfig w) as [adminConfig|]; [|cbn; auto].
    apply not_true_is_false in Hna. rewrite Hna. cbn; auto. }
  assert (Hdec : localStorageConfigured w \/ ~ localStorageConfigured w).
  { rewrite <- storageType_local. destruct (ueqb _ _); auto. }
  assert (Hdec' : authorised w request \/ ~ authorised w request).
  { rewrite authorised_cases.
    destruct (cookieUsername request) as [[|c name]|]; auto.
    destruct (getConfig w) as [adminConfig|]; auto.
    destruct (isAdmin w adminConfig (c :: name)); auto. }
  assert (Hpost : snd (POST w request) = None
                  /\ In (status (fst (POST w request))) [400; 401; 500]).
  { destruct Hdec as [Hl|Hnl]; [rewrite (Hlocal Hl); cbn; auto|].
    destruct Hdec' as [Ha|Hna]; [rewrite (Hauth Hnl Ha); cbn; auto|].
    destruct (Hother Hnl Hna) as [Hn [Hs|Hs]]; rewrite Hs; cbn; auto. }
  destruct Hpost as [Hnone Hstatus].
  split; [exact Hnone|]. split.
  { intros stored. unfold storedAfter.
    destruct (POST w request) as [response saved]. cbn [snd] in Hnone.
    now subst saved. }
  split; [exact Hstatus|]. split.
  { unfold rejectsWith400. split.
    - intros [H400 _]. destruct Hdec as [Hl|Hnl]; [now left|].
      destruct Hdec' as [Ha|Hna]; [now right|].
      destruct (Hother Hnl Hna) as [_ [Hs|Hs]]; rewrite Hs in H400; discriminate.
    - intros [Hl|Ha].
      + now rewrite (Hlocal Hl).
      + destruct Hdec as [Hl|Hnl]; [now rewrite (Hlocal Hl)|].
        now rewrite (Hauth Hnl Ha). }
  split; [intros Hl; now rewrite (Hlocal Hl)|].
  split; [intros Hnl Ha; now rewrite (Hauth Hnl Ha)|].
  split.
  - intros (_ & (c & rest & Hst & Hnl) & (name & adminConfig & Hc & Hne & Hg & Ha)
            & _ & Hu & Hn & Hp).
    unfold POST. rewrite Hbody, Haction, Hcheck, Hst, Hc, Hg, Ha, Hu, Hn, Hp.
    rewrite (ueqb_false _ _ Hnl).
    destruct name as [|c' name]; [congruence|]. reflexivity.
  - intros request' b' Hbody' Hnan.
    assert (Hzero : scanIntervalOf (ScanInterval b') = 0)
      by (unfold scanIntervalOf; now rewrite Hnan).
    split; [exact Hzero|].
    unfold POST. rewrite Hbody', Hzero.
    destruct (ueqb _ (str "localstorage")); [discriminate|].
    destruct (cookieUsername request') as [[|c name]|]; try discriminate.
    destruct (getConfig w) as [adminConfig|]; [|discriminate].
    destruct (negb (isAdmin w adminConfig (c :: name))); [discriminate|].
    destruct (action b') as [| | | |a|]; try discriminate.
    destruct (ueqb a (str "save")); [|discriminate].
    destruct (_ || _ || _); [discriminate|].
    cbn [Z.gtb Z.compare andb].
    destruct (negb (loginOk w)); [discriminate|].
    destruct (saveOk w); discriminate.
Qed.

Lemma short_interval_not_saved_witness :
  rejectsWith400 redisWorld bareRequest
  /\ fst (POST redisWorld bareRequest) = json MissingCredentials 400.
Proof.
  destruct (short_interval_not_saved redisWorld bareRequest bareBody 30)
    as (_ & _ & _ & H400 & _ & Hauth & _); try reflexivity.
  - lia.
  - assert (Ha : authorised redisWorld bareRequest).
    { exists (str "owner"), {| Users := []; OpenListConfig_ := None |}.
      split; [reflexivity|]. split; [discriminate|]. split; reflexivity. }
    split.
    + apply H400. now right.
    + apply Hauth; [|exact Ha].
      intros [H|[H|H]]; discriminate H.
Defined.

(** An interval of 60 or a missing one is saved. *)
Lemma accepted_intervals :
  fst (POST redisWorld (ownerRequest (JNumber (str "60")))) = json Saved 200
  /\ (exists cfg, snd (POST redisWorld (ownerRequest JUndefined)) = Some cfg
                  /\ cfgScanInterval <$> OpenListConfig_ cfg = Some 0).
Proof. split; [reflexivity|]. eexists. split; reflexivity. Qed.

End OpenListFacts.

(** ** Further properties of scoring and selection *)

Module ScoringMoreFacts.

Import JsNumFacts Scoring ScoringFacts SelectionFacts ScoringMore.
Local Open Scope num_scope.

Lemma percent_proper (a b : num) : a == b -> percent a -> percent b.
Proof. destruct a, b; cbn [numeq percent]; try easy. intros E H. now rewrite <- E. Qed.

(** Closes [percent c] for a constant [c]. *)
Ltac percent_const := vm_compute; split; discriminate.

(** [Math.min(100, Math.max(0, x))] is NaN or within 0..100, whatever [x]
    is. *)
Lemma clamp_percent (x : num) : percent (min n100 (max n0 x)).
Proof.
  destruct x as [| | |q]; try exact I; try percent_const.
  unfold max, n0, ofZ. destruct (Fin (inject_Z 0) <? Fin q) eqn:E0.
  - apply lt_Fin in E0. unfold min, n100, ofZ.
    destruct (Fin q <? Fin (inject_Z 100)) eqn:E1.
    + apply lt_Fin in E1. cbn [percent]. change (inject_Z 0) with 0%Q in E0.
      change (inject_Z 100) with 100%Q in E1. lra.
    + percent_const.
  - percent_const.
Qed.

Lemma qualityScore_value (quality : ustring) :
  exists z : Z, qualityScore quality = ofZ z /\ (0 <= z <= 100)%Z.
Proof.
  unfold qualityScore.
  repeat match goal with
         | |- context [ueqb quality ?s] => destruct (ueqb quality s)
         end; eexists; (split; [reflexivity | lia]).
Qed.

Lemma speedScore_percent (speedStr : ustring) (maxSpeed : num) :
  percent (speedScore speedStr maxSpeed).
Proof.
  unfold speedScore. destruct (_ || _); [percent_const|].
  destruct (matchSpeed speedStr) as [[digits unit]|]; [|percent_const].
  apply clamp_percent.
Qed.

Lemma pingScore_percent (ping minPing maxPing : num) :
  percent (pingScore ping minPing maxPing).
Proof.
  unfold pingScore. destruct (ping <=? n0); [percent_const|].
  destruct (strictEq maxPing minPing); [percent_const|]. apply clamp_percent.
Qed.

Lemma round2_percent (x : num) : percent x -> percent (round2 x).
Proof.
  destruct x as [| | |q]; try easy. cbn [percent round2]. intros [H0 H100].
  set (k := Qfloor (q * 100 + (1 # 2))).
  assert (Hk0 : (0 <= k)%Z).
  { change 0%Z with (Qfloor 0). apply Qfloor_resp_le. lra. }
  assert (Hk1 : (k <= 10000)%Z).
  { pose proof (Qfloor_le (q * 100 + (1 # 2))) as Hle. fold k in Hle.
    assert (Hlt : (inject_Z k < inject_Z 10001)%Q).
    { change (inject_Z 10001) with 10001%Q. lra. }
    rewrite <- Zlt_Qlt in Hlt. lia. }
  rewrite (Qmake_Qdiv k 100). change (inject_Z (Z.pos 100)) with 100%Q.
  rewrite Zle_Qle in Hk0, Hk1.
  change (inject_Z 0) with 0%Q in Hk0. change (inject_Z 10000) with 10000%Q in Hk1.
  split.
  - apply Qle_shift_div_l; lra.
  - apply Qle_shift_div_r; lra.
Qed.

(** X1. The composite score is NaN or a number from 0 to 100, whatever the
    result and the bounds are. *)
Theorem calculateSourceScore_percent
    (r : TestResult) (maxSpeed minPing maxPing : num) :
  percent (calculateSourceScore r maxSpeed minPing maxPing).
Proof.
  unfold calculateSourceScore. cbv zeta.
  apply (percent_proper _ _ (symmetry (round_hundredths _))), round2_percent.
  destruct (qualityScore_value (quality r)) as (z & -> & Hz).
  pose proof (speedScore_percent (loadSpeed r) maxSpeed) as Hs.
  pose proof (pingScore_percent (pingTime r) minPing maxPing) as Hp.
  destruct (speedScore _ _) as [| | |s], (pingScore _ _ _) as [| | |l];
    try easy; cbn [percent] in *.
  assert (Hq : (0 <= inject_Z z <= 100)%Q).
  { change 0%Q with (inject_Z 0). change 100%Q with (inject_Z 100).
    rewrite <- !Zle_Qle. exact Hz. }
  cbn [n0 ofZ dec add mul percent]. change (inject_Z 0) with 0%Q. lra.
Qed.


(** *** What a selection round returns *)

Section Round.

Variable probe : ustring -> option TestResult.

(** The two batches together probe every source once, in order. *)
Lemma probeBatches_covers (sources : list SearchResult) :
  probeBatches probe (List.length sources) 0
               (Nat.div (List.length sources + 1) 2) sources []
  = List.map (probeSource probe) sources.
Proof.
  destruct sources as [|first others]; [reflexivity|].
  rewrite probeBatches_all; [reflexivity| |].
  - apply Nat.div_str_pos. cbn [List.length]. lia.
  - assert (1 <= Nat.div (List.length (first :: others) + 1) 2)%nat
      by (apply Nat.div_le_lower_bound; cbn [List.length]; lia).
    nia.
Qed.

Lemma recordResult_publish (sources rest : list SearchResult)
    (m : gmap ustring TestResult) (k : nat) :
  drop k sources = rest ->
  fold_left (recordResult sources)
            (imap (fun i r => (k + i, r)%nat) (List.map (probeSource probe) rest))
            (Returned m)
  = Returned (fold_left (publish probe) rest m).
Proof.
  revert m k. induction rest as [|src rest IH]; intros m k Hdrop; [reflexivity|].
  cbn [List.map]. rewrite imap_cons. cbn [fold_left].
  assert (Hk : sources !! k = Some src).
  { assert (H0 : drop k sources !! 0%nat = Some src) by now rewrite Hdrop.
    rewrite lookup_drop in H0. now rewrite Nat.add_0_r in H0. }
  assert (Hstep : recordResult sources (Returned m) ((k + 0)%nat, probeSource probe src)
                  = Returned (publish probe m src)).
  { unfold recordResult, publish. cbn [bind fst snd]. rewrite Nat.add_0_r, Hk.
    reflexivity. }
  rewrite Hstep.
  rewrite (imap_ext _ (fun i r => ((S k + i)%nat, r))).
  - apply IH. change (S k) with (1 + k)%nat.
    rewrite Nat.add_comm, <- drop_drop, Hdrop. reflexivity.
  - intros i x _. cbn. f_equal. lia.
Qed.

(** The shape of [preferBestSource] for a list that is not of length 1. *)
Lemma preferBestSource_round (sources : list SearchResult) :
  List.length sources <> 1%nat ->
  preferBestSource probe sources
  = let info := Some (fold_left (publish probe) sources ∅) in
    match successes probe sources with
    | [] => Returned {| chosen := sources !! 0%nat; published := info |}
    | _ =>
        match sortByScore (withScores (successes probe sources)) with
        | best :: _ => Returned {| chosen := Some (fst (fst best)); published := info |}
        | [] => Thrown
        end
    end.
Proof.
  intros Hlen. unfold preferBestSource.
  destruct (Nat.eqb_spec (List.length sources) 1) as [E|_]; [congruence|].
  rewrite probeBatches_covers.
  rewrite (recordResult_publish sources sources ∅ 0 eq_refl). cbn [bind].
  fold (successes probe sources).
  destruct (successes probe sources) as [|p ps] eqn:E; [reflexivity|].
  cbn [List.length Nat.eqb].
  destruct (sortByScore (withScores (p :: ps))); reflexivity.
Qed.

Lemma successes_In (sources : list SearchResult) (p : Probed) :
  In p (successes probe sources) ->
  In (fst p) sources /\ probeSource probe (fst p) = Some p.
Proof.
  unfold successes. induction sources as [|s sources IH]; [intros []|].
  cbn [List.map omap]. destruct (probeSource probe s) as [q|] eqn:E.
  - cbn. intros [<-|H].
    + assert (Hq : fst q = s).
      { unfold probeSource in E. destruct (episodes s) as [[|u us]|]; try discriminate.
        destruct (probe _); [|discriminate]. now inversion E. }
      rewrite Hq. auto.
    + destruct (IH H). auto.
  - cbn. intros H. destruct (IH H). auto.
Qed.

Lemma withScores_In (ps : list Probed) (x : Probed * num) :
  In x (withScores ps) -> In (fst x) ps.
Proof.
  unfold withScores. cbv zeta. intros H. apply List.in_map_iff in H as (p & <- & Hp).
  exact Hp.
Qed.

Lemma selection_returns (first : SearchResult) (others : list SearchResult) :
  exists sel src,
    preferBestSource probe (first :: others) = Returned sel
    /\ chosen sel = Some src /\ In src (first :: others).
Proof.
  destruct others as [|second others].
  { eexists _, first. split; [reflexivity|]. split; [reflexivity | now left]. }
  rewrite preferBestSource_round by (cbn; lia). cbv zeta.
  destruct (successes probe _) as [|p ps] eqn:E.
  { eexists _, first. split; [reflexivity|]. split; [reflexivity | now left]. }
  pose proof (sort_fold_perm (withScores (p :: ps)) []) as Hperm.
  fold (sortByScore (withScores (p :: ps))) in Hperm. cbn [app] in Hperm.
  destruct (sortByScore (withScores (p :: ps))) as [|best sorted] eqn:Es.
  { apply Permutation_nil in Hperm. discriminate Hperm. }
  eexists _, (fst (fst best)). split; [reflexivity|]. split; [reflexivity|].
  assert (Hin : In best (withScores (p :: ps))).
  { apply (Permutation_in best Hperm). now left. }
  apply withScores_In in Hin. rewrite <- E in Hin.
  now apply successes_In in Hin.
Qed.

(** X2. Selection never throws and returns one of the candidates. *)
Theorem preferBestSource_returns_candidate
    (first : SearchResult) (others : list SearchResult) :
  exists sel src,
    preferBestSource probe (first :: others) = Returned sel
    /\ chosen sel = Some src /\ In src (first :: others).
Proof.
  destruct (selection_returns first others) as (sel & src & Hsel & Hsrc & Hin).
  exists sel, src. split; [exact Hsel|]. split; [exact Hsrc | exact Hin].
Qed.

(** *** The published measurements *)

Lemma publish_other (sources : list SearchResult) (m : gmap ustring TestResult)
    (key : ustring) :
  ~ In key (List.map keyOf sources) ->
  fold_left (publish probe) sources m !! key = m !! key.
Proof.
  revert m. induction sources as [|s sources IH]; intros m Hkey; [reflexivity|].
  cbn [fold_left]. rewrite IH.
  - unfold publish. destruct (probeSource probe s); [|reflexivity].
    apply lookup_insert_ne. intros Heq. apply Hkey. now left.
  - intros H. apply Hkey. now right.
Qed.

Lemma publish_lookup (sources : list SearchResult) (m : gmap ustring TestResult)
    (src : SearchResult) :
  List.NoDup (List.map keyOf sources) -> In src sources ->
  fold_left (publish probe) sources m !! keyOf src
  = match probeSource probe src with
    | Some result => Some (snd result)
    | None => m !! keyOf src
    end.
Proof.
  revert m. induction sources as [|s sources IH]; intros m Hnd Hin; [destruct Hin|].
  cbn [List.map] in Hnd. inversion Hnd as [|? ? Hfresh Hnd']; subst.
  cbn [fold_left]. destruct Hin as [->|Hin].
  - rewrite publish_other by exact Hfresh. unfold publish.
    destruct (probeSource probe src); [apply lookup_insert_eq | reflexivity].
  - rewrite (IH _ Hnd' Hin). destruct (probeSource probe src); [reflexivity|].
    unfold publish. destruct (probeSource probe s); [|reflexivity].
    apply lookup_insert_ne. intros Heq. apply Hfresh. rewrite Heq.
    now apply List.in_map.
Qed.

(** X4. With two or more candidates of distinct keys, the map handed to
    [setPrecomputedVideoInfo] holds, under each candidate's key, its
    measurement if its probe succeeded and nothing otherwise, and it has no
    other key. *)
Theorem preferBestSource_publishes (sources : list SearchResult) :
  List.length sources <> 1%nat ->
  List.NoDup (List.map keyOf sources) ->
  exists sel info,
    preferBestSource probe sources = Returned sel
    /\ published sel = Some info
    /\ (forall src, In src sources ->
                    info !! keyOf src = snd <$> probeSource probe src)
    /\ (forall key, ~ In key (List.map keyOf sources) -> info !! key = None).
Proof.
  intros Hlen Hnd.
  assert (Hret : exists sel,
             preferBestSource probe sources = Returned sel
             /\ published sel = Some (fold_left (publish probe) sources ∅)).
  { destruct sources as [|first others].
    - eexists. split; reflexivity.
    - destruct (selection_returns first others)
        as (sel & src & Hsel & _).
      exists sel. split; [exact Hsel|].
      rewrite preferBestSource_round in Hsel by exact Hlen. cbv zeta in Hsel.
      destruct (successes probe (first :: others)); [now inversion Hsel|].
      destruct (sortByScore _); [discriminate Hsel | now inversion Hsel]. }
  destruct Hret as (sel & Hsel & Hinfo).
  exists sel, (fold_left (publish probe) sources ∅).
  split; [exact Hsel|]. split; [exact Hinfo|]. split.
  - intros src Hin. rewrite (publish_lookup _ _ _ Hnd Hin).
    destruct (probeSource probe src); reflexivity.
  - intros key Hkey. now rewrite publish_other.
Qed.

End Round.

Lemma preferBestSource_publishes_witness :
  exists sel info,
    preferBestSource twoAnswer fourCandidates = Returned sel
    /\ published sel = Some info
    /\ (forall src, In src fourCandidates ->
                    info !! keyOf src = snd <$> probeSource twoAnswer src)
    /\ (forall key, ~ In key (List.map keyOf fourCandidates) -> info !! key = None).
Proof.
  apply (preferBestSource_publishes twoAnswer fourCandidates).
  - discriminate.
  - vm_compute. repeat constructor; cbn; intuition discriminate.
Defined.

End ScoringMoreFacts.

(** ** Selection under any scoring *)

Module AnyScoreFacts.

Import JsNumFacts Scoring ScoringFacts SelectionFacts ScoringMore ScoringMoreFacts.
Local Open Scope num_scope.

(** The round of the exact model is the round under the exact scores. *)
Lemma preferBestSource_exact (probe : ustring -> option TestResult)
    (sources : list SearchResult) :
  AnyScore.preferBestSource probe AnyScore.exactScore sources
  = preferBestSource probe sources.
Proof. reflexivity. Qed.

Section Round.

Variable probe : ustring -> option TestResult.
Variable scoreAmong : list TestResult -> TestResult -> num.

(** The shape of the round for a list that is not of length 1. *)
Lemma scored_round (sources : list SearchResult) :
  List.length sources <> 1%nat ->
  AnyScore.preferBestSource probe scoreAmong sources
  = let info := Some (fold_left (publish probe) sources ∅) in
    match successes probe sources with
    | [] => Returned {| chosen := sources !! 0%nat; published := info |}
    | _ =>
        match sortByScore (AnyScore.withScores scoreAmong (successes probe sources)) with
        | best :: _ => Returned {| chosen := Some (fst (fst best)); published := info |}
        | [] => Thrown
        end
    end.
Proof.
  intros Hlen. unfold AnyScore.preferBestSource.
  destruct (Nat.eqb_spec (List.length sources) 1) as [E|_]; [congruence|].
  rewrite probeBatches_covers.
  rewrite (recordResult_publish probe sources sources ∅ 0 eq_refl). cbn [bind].
  fold (successes probe sources).
  destruct (successes probe sources) as [|p ps] eqn:E; [reflexivity|].
  cbn [List.length Nat.eqb].
  destruct (sortByScore (AnyScore.withScores scoreAmong (p :: ps))); reflexivity.
Qed.

Lemma scored_In (ps : list Probed) (x : Probed * num) :
  In x (AnyScore.withScores scoreAmong ps) -> In (fst x) ps.
Proof.
  unfold AnyScore.withScores. cbv zeta. intros H.
  apply List.in_map_iff in H as (p & <- & Hp). exact Hp.
Qed.

(** X3. With two or more candidates, a success among them and scores
    that are numbers, the round returns a measured candidate whose score
    none of the others exceeds, the first seen among those with that
    score; this for the scores as the engine computes them in binary64
    as for any others. *)
Theorem preferBestSource_picks_best (sources : list SearchResult) :
  List.length sources <> 1%nat ->
  successes probe sources <> [] ->
  scored (AnyScore.withScores scoreAmong (successes probe sources)) ->
  exists best,
    AnyScore.preferBestSource probe scoreAmong sources
    = Returned {| chosen := Some (fst (fst best));
                  published := Some (fold_left (publish probe) sources ∅) |}
    /\ In (fst (fst best)) sources
    /\ probeSource probe (fst (fst best)) = Some (fst best)
    /\ snd best = scoreAmong (List.map snd (successes probe sources)) (snd (fst best))
    /\ Forall (notBelow best) (AnyScore.withScores scoreAmong (successes probe sources))
    /\ head (List.filter (tiedAt (snd best))
               (AnyScore.withScores scoreAmong (successes probe sources)))
       = Some best.
Proof.
  intros Hlen Hne Hscored.
  rewrite scored_round by exact Hlen. cbv zeta.
  destruct (winner_first_seen (AnyScore.withScores scoreAmong (successes probe sources))
              Hscored)
    as (best & Hhead & Hmax & Hfirst).
  { unfold AnyScore.withScores. cbv zeta.
    destruct (successes probe sources); [congruence|]. discriminate. }
  exists best.
  pose proof (sort_fold_perm
                (AnyScore.withScores scoreAmong (successes probe sources)) [])
    as Hperm.
  fold (sortByScore (AnyScore.withScores scoreAmong (successes probe sources))) in Hperm.
  cbn [app] in Hperm.
  destruct (successes probe sources) as [|p ps] eqn:E; [congruence|].
  destruct (sortByScore (AnyScore.withScores scoreAmong (p :: ps)))
    as [|b sorted] eqn:Es; [discriminate Hhead|].
  injection Hhead as ->.
  assert (Hin : In best (AnyScore.withScores scoreAmong (p :: ps))).
  { apply (Permutation_in best Hperm). now left. }
  assert (Hscore : snd best = scoreAmong (List.map snd (p :: ps)) (snd (fst best))).
  { unfold AnyScore.withScores in Hin. cbv zeta in Hin.
    apply List.in_map_iff in Hin as (q & <- & _). reflexivity. }
  apply scored_In in Hin. rewrite <- E in Hin. apply (successes_In probe) in Hin.
  split; [reflexivity|]. split; [apply Hin|]. split; [apply Hin|].
  split; [exact Hscore|]. split; assumption.
Qed.

End Round.

Lemma preferBestSource_picks_best_witness :
  exists best,
    AnyScore.preferBestSource AnyScore.closeAnswer AnyScore.binary64Score
                              AnyScore.closeCall
    = Returned {| chosen := Some (fst (fst best));
                  published := Some (fold_left (publish AnyScore.closeAnswer)
                                               AnyScore.closeCall ∅) |}
    /\ In (fst (fst best)) AnyScore.closeCall
    /\ probeSource AnyScore.closeAnswer (fst (fst best)) = Some (fst best)
    /\ snd best
       = AnyScore.binary64Score
           (List.map snd (successes AnyScore.closeAnswer AnyScore.closeCall))
           (snd (fst best))
    /\ Forall (notBelow best)
              (AnyScore.withScores AnyScore.binary64Score
                 (successes AnyScore.closeAnswer AnyScore.closeCall))
    /\ head (List.filter (tiedAt (snd best))
               (AnyScore.withScores AnyScore.binary64Score
                  (successes AnyScore.closeAnswer AnyScore.closeCall)))
       = Some best.
Proof.
  apply (preferBestSource_picks_best AnyScore.closeAnswer AnyScore.binary64Score
           AnyScore.closeCall).
  - discriminate.
  - vm_compute. discriminate.
  - vm_compute. repeat constructor.
Defined.

(** Of two candidates that tie at 60.63 in exact arithmetic the round
    returns the second, which alone scores 60.63 in binary64; under the
    exact scores it would return the first. *)
Lemma close_call_goes_to_second :
  match AnyScore.preferBestSource AnyScore.closeAnswer AnyScore.binary64Score
                                  AnyScore.closeCall with
  | Returned selection => chosen selection
  | Thrown => None
  end = Some (candidate "c1")
  /\ match AnyScore.preferBestSource AnyScore.closeAnswer AnyScore.exactScore
                                     AnyScore.closeCall with
     | Returned selection => chosen selection
     | Thrown => None
     end = Some (candidate "c0").
Proof. split; vm_compute; reflexivity. Qed.

End AnyScoreFacts.

(** ** The default filter: what it leaves and what it passes *)

Module AdFilterMoreFacts.

Import AdFilter AdFilterMore AdFilterFacts.

Lemma join_split (sep : N) (s : ustring) : join sep (split sep s) = s.
Proof.
  induction s as [|c s IH]; [reflexivity|]. cbn [split].
  pose proof (split_not_nil sep s) as Hne.
  destruct (c =? sep)%N eqn:E.
  - apply N.eqb_eq in E. subst c.
    destruct (split sep s) as [|l ls]; [congruence|].
    change (join sep ([] :: l :: ls)) with (sep :: join sep (l :: ls)).
    now rewrite IH.
  - destruct (split sep s) as [|l ls]; [congruence|].
    destruct ls as [|l' ls]; cbn [join] in IH |- *; now rewrite <- IH.
Qed.

(** What the filter returns is the join of lines of the manifest, taken
    in their order, all of which the loop passes. *)
Lemma defaultFilter_kept (type m : ustring) :
  exists kept,
    defaultFilter type m = join LF kept
    /\ kept `sublist_of` split LF m
    /\ Forall (fun line => plain (isRuyi type) line = true) kept.
Proof.
  destruct m as [|c m].
  - exists []. split; [reflexivity|]. split; [apply sublist_nil_l | constructor].
  - exists (scan (isRuyi type) (split LF (c :: m))).
    split; [now apply defaultFilter_scan|].
    split; [apply scan_sublist | apply scan_plain].
Qed.

(** X5. The default filter only removes lines: its result is the manifest's
    lines with some left out, none altered, none moved. *)
Theorem defaultFilter_only_removes (type m3u8Content : ustring) :
  exists kept,
    kept `sublist_of` split LF m3u8Content
    /\ defaultFilter type m3u8Content = join LF kept.
Proof.
  destruct (defaultFilter_kept type m3u8Content) as (kept & Hj & Hs & _).
  now exists kept.
Qed.

(** X6. No line of the result carries the discontinuity marker and, for
    [ruyi], none carries a filler duration. *)
Theorem defaultFilter_result_clean (type m3u8Content : ustring) :
  Forall (fun line =>
            includes line discontinuity = false
            /\ (isRuyi type = true -> isFiller line = false))
         (split LF (defaultFilter type m3u8Content)).
Proof.
  destruct (defaultFilter_kept type m3u8Content) as (kept & -> & Hs & Hp).
  assert (Hempty : Forall (fun line =>
                             includes line discontinuity = false
                             /\ (isRuyi type = true -> isFiller line = false))
                          (split LF [])).
  { repeat constructor. }
  destruct kept as [|l kept]; [exact Hempty|].
  rewrite split_join.
  - eapply Forall_impl; [exact Hp|]. intros line Hline.
    apply plain_inv in Hline as [Hd Hf]. split; [exact Hd|].
    intros Hr. now rewrite Hr in Hf.
  - discriminate.
  - apply (sublist_Forall _ _ (split LF m3u8Content) Hs). apply split_no_sep.
Qed.

Lemma scan_filter (lines : list ustring) :
  scan false lines
  = List.filter (fun line => negb (includes line discontinuity)) lines.
Proof.
  induction lines as [|line rest IH]; [reflexivity|]. cbn [scan List.filter].
  destruct (includes line discontinuity); cbn [negb andb]; now rewrite IH.
Qed.

(** X7. For a type other than [ruyi] the result is the manifest without its
    lines that carry the discontinuity marker, and nothing else is dropped. *)
Theorem defaultFilter_other_types (type m3u8Content : ustring) :
  type <> str "ruyi" ->
  defaultFilter type m3u8Content
  = join LF (List.filter (fun line => negb (includes line discontinuity))
                         (split LF m3u8Content)).
Proof.
  intros Htype. destruct m3u8Content as [|c m]; [reflexivity|].
  rewrite defaultFilter_scan by discriminate.
  unfold isRuyi, ueqb. rewrite bool_decide_eq_false_2 by exact Htype.
  now rewrite scan_filter.
Qed.

(** X8. A manifest none of whose lines carries the discontinuity marker or,
    for [ruyi], a filler duration comes back unchanged. *)
Theorem defaultFilter_unchanged (type m3u8Content : ustring) :
  Forall (fun line => plain (isRuyi type) line = true) (split LF m3u8Content) ->
  defaultFilter type m3u8Content = m3u8Content.
Proof.
  intros H. destruct m3u8Content as [|c m]; [reflexivity|].
  rewrite defaultFilter_scan by discriminate.
  rewrite scan_fixed by exact H. apply join_split.
Qed.

Lemma defaultFilter_other_types_witness :
  defaultFilter (str "other") sampleManifest
  = join LF (List.filter (fun line => negb (includes line discontinuity))
                         (split LF sampleManifest)).
Proof.
  apply (defaultFilter_other_types (str "other") sampleManifest). discriminate.
Defined.

Lemma defaultFilter_unchanged_witness :
  defaultFilter (str "ruyi") cleanManifest = cleanManifest.
Proof.
  apply (defaultFilter_unchanged (str "ruyi") cleanManifest).
  vm_compute. repeat constructor.
Defined.

End AdFilterMoreFacts.

(** ** Skipping the outro *)

Module SkipMoreFacts.

Import JsNumFacts Skip SkipMore.
Local Open Scope num_scope.

(** X9. Whatever the handler is given, it moves to the next episode only
    when the episode playing is not the last, pauses only when it is, and
    does either only when skipping is on, the check is due, the outro offset
    is negative, the duration positive and the position past the duration
    plus the offset. *)
Theorem outro_moves_on_or_pauses (cfg : SkipConfig) (last : Z) (e : Tick) :
  (In NextEpisode (fst (onTimeUpdate cfg last e)) ->
   (currentEpisodeIndex e < episodesOrOne e - 1)%Z)
  /\ (In Pause (fst (onTimeUpdate cfg last e)) ->
      (episodesOrOne e - 1 <= currentEpisodeIndex e)%Z)
  /\ (In NextEpisode (fst (onTimeUpdate cfg last e))
      \/ In Pause (fst (onTimeUpdate cfg last e)) ->
      enable cfg = true /\ (1500 <= now e - last)%Z
      /\ (outro_time cfg <? n0) = true
      /\ (orElse (playerDuration e) n0 >? n0) = true
      /\ (orElse (playerCurrentTime e) n0
          >? playerDuration e + outro_time cfg) = true).
Proof.
  unfold onTimeUpdate. fold (episodesOrOne e).
  destruct (enable cfg); cbn [negb fst In]; [|tauto].
  destruct (now e - last <? 1500)%Z eqn:Hwin; cbn [fst In]; [tauto|].
  apply Z.ltb_ge in Hwin.
  set (intro := if (intro_time cfg >? n0) && _ then _ else _).
  assert (Hintro : forall a, In a intro -> a <> NextEpisode /\ a <> Pause).
  { intros a. subst intro. destruct (andb _ _); cbn [In]; [|tauto].
    intros [<-|[<-|[]]]; split; discriminate. }
  clearbody intro.
  destruct (outro_time cfg <? n0); cbn [andb].
  2:{ rewrite app_nil_r. split; [|split].
      - intros H. apply Hintro in H. tauto.
      - intros H. apply Hintro in H. tauto.
      - intros [H|H]; apply Hintro in H; tauto. }
  destruct (orElse (playerDuration e) n0 >? n0); cbn [andb].
  2:{ rewrite app_nil_r. split; [|split].
      - intros H. apply Hintro in H. tauto.
      - intros H. apply Hintro in H. tauto.
      - intros [H|H]; apply Hintro in H; tauto. }
  destruct (orElse (playerCurrentTime e) n0 >? _).
  2:{ rewrite app_nil_r. split; [|split].
      - intros H. apply Hintro in H. tauto.
      - intros H. apply Hintro in H. tauto.
      - intros [H|H]; apply Hintro in H; tauto. }
  destruct (currentEpisodeIndex e <? episodesOrOne e - 1)%Z eqn:Hidx.
  - apply Z.ltb_lt in Hidx. split; [intros _; exact Hidx|]. split.
    + intros H. apply in_app_or in H as [H|H]; [apply Hintro in H; tauto|].
      cbn [In] in H. destruct H as [H|[H|[]]]; discriminate H.
    + intros _. repeat split; lia.
  - apply Z.ltb_ge in Hidx. split.
    + intros H. apply in_app_or in H as [H|H]; [apply Hintro in H; tauto|].
      cbn [In] in H. destruct H as [H|[H|[]]]; discriminate H.
    + split; [intros _; lia|]. intros _. repeat split; lia.
Qed.

End SkipMoreFacts.

(** ** The danmaku cache: reading, writing and sweeping *)

Module DanmakuCacheMoreFacts.

Import DanmakuCache DanmakuCacheMore.
Local Open Scope Z_scope.

Lemma insertBy_perm {A : Type} (before : A -> A -> bool) (x : A) (l : list A) :
  insertBy before x l ≡ₚ x :: l.
Proof.
  induction l as [|y l IH]; cbn [insertBy]; [reflexivity|].
  destruct (before x y); [reflexivity|]. rewrite IH. apply perm_swap.
Qed.

Lemma sortBy_perm {A : Type} (before : A -> A -> bool) (l : list A) :
  sortBy before l ≡ₚ l.
Proof.
  induction l as [|x l IH]; [reflexivity|].
  unfold sortBy in *. cbn [foldr]. rewrite insertBy_perm. now constructor.
Qed.

Lemma filter_length_perm {A : Type} (f : A -> bool) (l l' : list A) :
  l ≡ₚ l' -> List.length (List.filter f l) = List.length (List.filter f l').
Proof.
  induction 1 as [|x l l' _ IH|x y l|l l' l'' _ IH1 _ IH2]; cbn [List.filter].
  - reflexivity.
  - destruct (f x); cbn [List.length]; now rewrite IH.
  - destruct (f x), (f y); reflexivity.
  - now rewrite IH1.
Qed.

(** X10. The expire time is never negative: it is 0 or at least one
    minute.  A value that parses to a positive number of minutes whose
    milliseconds a number holds exactly (at most 2^53) gives that many
    minutes in milliseconds, and one that parses to a negative number
    the default of 4320 minutes. *)
Theorem expire_time_range (env : Env) :
  (getDanmakuCacheExpireTime env = 0 \/ 60000 <= getDanmakuCacheExpireTime env)
  /\ (forall v minutes,
        hasWindow env = true ->
        NEXT_PUBLIC_DANMAKU_CACHE_EXPIRE_MINUTES env = Some v ->
        parseInt10 v = Some minutes ->
        (0 < minutes -> minutes * 60000 <= 2 ^ 53 ->
         getDanmakuCacheExpireTime env = minutes * 60000)
        /\ (minutes < 0 -> getDanmakuCacheExpireTime env = 259200000)).
Proof.
  unfold getDanmakuCacheExpireTime, defaultExpire. split.
  - destruct (negb (hasWindow env)); [right; lia|].
    destruct (NEXT_PUBLIC_DANMAKU_CACHE_EXPIRE_MINUTES env) as [[|c rest]|];
      try (right; lia).
    destruct (parseInt10 (c :: rest)) as [minutes|]; [|right; lia].
    destruct (Z.eqb_spec minutes 0); [now left|].
    destruct (Z.gtb_spec minutes 0); right; lia.
  - intros v minutes -> -> Hparse. cbn [negb].
    destruct v as [|c rest]; [discriminate Hparse|]. rewrite Hparse.
    split.
    + intros Hpos _. destruct (Z.eqb_spec minutes 0); [lia|].
      destruct (Z.gtb_spec minutes 0); lia.
    + intros Hneg. destruct (Z.eqb_spec minutes 0); [lia|].
      destruct (Z.gtb_spec minutes 0); lia.
Qed.

Section Store.

Context {C : Type}.

Implicit Types (db : IDB C) (m : gmap Z (DanmakuCacheData C)).

(** *** The sweep *)

Lemma sweep_lookup (th : Z) (l : list (Z * DanmakuCacheData C)) m (c id : Z) :
  fst (fold_left (sweep C th) l (m, c)) !! id
  = if existsb (fun r => (fst r =? id) && (timestamp _ (snd r) <? th)) l
    then None else m !! id.
Proof.
  revert m c. induction l as [|r l IH]; intros m c; [reflexivity|].
  cbn [fold_left existsb]. unfold sweep at 2. cbn [fst snd].
  destruct (timestamp C (snd r) <? th); rewrite IH.
  - destruct (fst r =? id) eqn:E; cbn [andb orb].
    + apply Z.eqb_eq in E. subst id.
      destruct (existsb _ l); [reflexivity | apply lookup_delete_eq].
    + apply Z.eqb_neq in E.
      destruct (existsb _ l); [reflexivity | now apply lookup_delete_ne].
  - now rewrite andb_false_r.
Qed.

Lemma sweep_count (th : Z) (l : list (Z * DanmakuCacheData C)) m (c : Z) :
  snd (fold_left (sweep C th) l (m, c))
  = c + Z.of_nat (List.length
                    (List.filter (fun r => timestamp _ (snd r) <? th) l)).
Proof.
  revert m c. induction l as [|r l IH]; intros m c; cbn [fold_left List.filter].
  - cbn. lia.
  - unfold sweep at 2. cbn [fst snd].
    destruct (timestamp C (snd r) <? th); rewrite IH; cbn [List.length]; lia.
Qed.

Lemma sweep_size (th : Z) (l : list (Z * DanmakuCacheData C)) m (c : Z) :
  NoDup (l.*1) -> (forall r, r ∈ l -> is_Some (m !! fst r)) ->
  Z.of_nat (size (fst (fold_left (sweep C th) l (m, c))))
  + snd (fold_left (sweep C th) l (m, c))
  = Z.of_nat (size m) + c.
Proof.
  revert m c. induction l as [|r l IH]; intros m c Hnd Hin; [reflexivity|].
  cbn [fmap list_fmap] in Hnd. apply NoDup_cons in Hnd as [Hfresh Hnd].
  cbn [fold_left]. unfold sweep at 2 4. cbn [fst snd].
  destruct (timestamp C (snd r) <? th).
  - rewrite IH; [|exact Hnd|].
    + assert (Hr : is_Some (m !! fst r)) by (apply Hin; now left).
      rewrite (map_size_delete_Some _ _ Hr). destruct Hr as [d Hd].
      assert (size m <> 0%nat).
      { intros H0. apply map_size_empty_inv in H0. subst m.
        now rewrite lookup_empty in Hd. }
      lia.
    + intros r' Hr'. rewrite lookup_delete_ne; [apply Hin; now right|].
      intros Heq. apply Hfresh. rewrite Heq.
      now apply (list_elem_of_fmap_2 fst).
  - apply IH; [exact Hnd|]. intros r' Hr'. apply Hin. now right.
Qed.

Lemma expired_in_cursor (th id : Z) (l : list (Z * DanmakuCacheData C)) m :
  l ≡ₚ map_to_list m ->
  existsb (fun r => (fst r =? id) && (timestamp _ (snd r) <? th)) l
  = match m !! id with
    | Some d => timestamp _ d <? th
    | None => false
    end.
Proof.
  intros Hperm. apply eq_true_iff_eq. rewrite existsb_exists. split.
  - intros ([k d] & Hin & Htest). cbn [fst snd] in Htest.
    apply andb_true_iff in Htest as [Hk Hd]. apply Z.eqb_eq in Hk. subst k.
    apply list_elem_of_In in Hin. rewrite Hperm in Hin.
    apply elem_of_map_to_list in Hin. now rewrite Hin.
  - destruct (m !! id) as [d|] eqn:E; [|discriminate]. intros Hd.
    exists (id, d). split.
    + apply list_elem_of_In. rewrite Hperm. now apply elem_of_map_to_list.
    + cbn [fst snd]. now rewrite Z.eqb_refl.
Qed.

Lemma clearExpired_run (env : Env) (now : Z) db :
  exists count kept,
    clearExpiredDanmakuCache C env allOk now db
    = (Resolved count, {| store := kept; opened := S (opened db) |})
    /\ (forall id, kept !! id = swept C (now - getDanmakuCacheExpireTime env) (store db) id)
    /\ count = expiredRecords C (now - getDanmakuCacheExpireTime env) (store db)
    /\ Z.of_nat (size kept) + count = Z.of_nat (size (store db)).
Proof.
  unfold clearExpiredDanmakuCache. cbn [allOk openOk requestOk negb openDB store opened].
  set (th := now - getDanmakuCacheExpireTime env).
  pose proof (sweep_lookup th (openIndexCursor C (store db)) (store db) 0) as Hlook.
  pose proof (sweep_count th (openIndexCursor C (store db)) (store db) 0) as Hcount.
  pose proof (sweep_size th (openIndexCursor C (store db)) (store db) 0) as Hsize.
  assert (Hperm : openIndexCursor C (store db) ≡ₚ map_to_list (store db))
    by apply sortBy_perm.
  destruct (fold_left _ _ _) as [kept count]. cbn [fst snd] in *.
  exists count, kept. split; [reflexivity|]. split; [|split].
  - intros id. rewrite Hlook, (expired_in_cursor th id _ _ Hperm). unfold swept.
    destruct (store db !! id) as [d|]; [|reflexivity].
    now destruct (timestamp C d <? th).
  - unfold expiredRecords. rewrite Hcount, (filter_length_perm _ _ _ Hperm). lia.
  - rewrite Hsize; [lia| |].
    + rewrite Hperm. apply NoDup_fst_map_to_list.
    + intros [k d] Hin. rewrite Hperm in Hin.
      apply elem_of_map_to_list in Hin. cbn [fst]. now rewrite Hin.
Qed.

(** X11. A sweep at [now] removes the records written before [now] minus the
    expire time and no other, and returns how many it removed. *)
Theorem clearExpired_removes_expired (env : Env) (now : Z) db :
  exists count after,
    clearExpiredDanmakuCache C env allOk now db = (Resolved count, after)
    /\ (forall id,
          store after !! id
          = match store db !! id with
            | Some d =>
                if timestamp _ d <? now - getDanmakuCacheExpireTime env
                then None else Some d
            | None => None
            end)
    /\ Z.of_nat (size (store after)) + count = Z.of_nat (size (store db)).
Proof.
  destruct (clearExpired_run env now db) as (count & kept & Hrun & Hkept & _ & Hsize).
  eexists count, _. split; [exact Hrun|]. split; [exact Hkept | exact Hsize].
Qed.

(** X12. A sweep is invisible to readers: at the time of the sweep and at
    any later time, [getDanmakuFromCache] answers the same for every episode
    whether or not the sweep has run. *)
Theorem sweep_invisible_to_reads (env : Env) (answers : Answers)
    (now later id : Z) db :
  now <= later ->
  fst (getDanmakuFromCache C env answers later id
         (snd (clearExpiredDanmakuCache C env allOk now db)))
  = fst (getDanmakuFromCache C env answers later id db).
Proof.
  intros Hlater.
  destruct (clearExpired_run env now db) as (count & kept & -> & Hkept & _).
  unfold getDanmakuFromCache. cbn [snd openDB store opened].
  destruct (getDanmakuCacheExpireTime env =? 0); [reflexivity|].
  destruct (negb (openOk answers)); [reflexivity|].
  destruct (negb (requestOk answers)); [reflexivity|].
  rewrite Hkept. unfold swept.
  destruct (store db !! id) as [d|]; [|reflexivity].
  destruct (timestamp C d <? now - getDanmakuCacheExpireTime env) eqn:E;
    [|now destruct (_ >? _)].
  apply Z.ltb_lt in E.
  destruct (Z.gtb_spec (later - timestamp C d) (getDanmakuCacheExpireTime env));
    [reflexivity | lia].
Qed.

(** *** Statistics *)

Lemma tally_fold (th : Z) (l : list (Z * DanmakuCacheData C)) (st : Stats) :
  fold_left (tally C th) l st
  = {| total := total st + Z.of_nat (List.length l);
       expired := expired st
                  + Z.of_nat (List.length
                                (List.filter (fun r => timestamp _ (snd r) <? th) l));
       totalSize := totalSize st
                    + foldr (fun r acc =>
                               Z.of_nat (List.length (comments _ (snd r))) + acc) 0 l |}.
Proof.
  revert st. induction l as [|r l IH]; intros [t e s].
  - cbn. f_equal; lia.
  - cbn [fold_left]. rewrite IH. unfold tally.
    cbn [total expired totalSize List.filter foldr].
    destruct (timestamp C (snd r) <? th); cbn [List.length]; f_equal; lia.
Qed.

Lemma comments_perm (l l' : list (Z * DanmakuCacheData C)) :
  l ≡ₚ l' ->
  foldr (fun r acc => Z.of_nat (List.length (comments _ (snd r))) + acc) 0 l
  = foldr (fun r acc => Z.of_nat (List.length (comments _ (snd r))) + acc) 0 l'.
Proof.
  induction 1 as [|x l l' _ IH|x y l|l l' l'' _ IH1 _ IH2]; cbn [foldr];
    [reflexivity | now rewrite IH | lia | now rewrite IH1].
Qed.

(** X13. The statistics count every record and every comment stored, and
    report as expired exactly as many records as a sweep at the same instant
    removes. *)
Theorem stats_agree_with_sweep (env : Env) (now : Z) db :
  exists st,
    fst (getDanmakuCacheStats C env allOk now db) = Resolved st
    /\ total st = Z.of_nat (size (store db))
    /\ totalSize st = storedComments C (store db)
    /\ fst (clearExpiredDanmakuCache C env allOk now db) = Resolved (expired st)
    /\ 0 <= expired st <= total st.
Proof.
  destruct (clearExpired_run env now db) as (count & kept & -> & _ & Hcount & Hsize).
  unfold getDanmakuCacheStats. cbn [allOk openOk requestOk negb openDB store fst].
  rewrite tally_fold. eexists. split; [reflexivity|].
  assert (Hperm : openCursor C (store db) ≡ₚ map_to_list (store db))
    by apply sortBy_perm.
  cbn [total expired totalSize].
  rewrite (Permutation_length Hperm), (filter_length_perm _ _ _ Hperm),
    (comments_perm _ _ Hperm), length_map_to_list.
  fold (expiredRecords C (now - getDanmakuCacheExpireTime env) (store db)).
  rewrite <- Hcount. repeat split; try reflexivity; try lia.
  unfold expiredRecords in Hcount. lia.
Qed.

(** *** Writing, reading, clearing *)

(** X14. With caching on, what was saved for an episode is what a read of
    that episode returns until the expire time has passed, and [null] after;
    reads of other episodes are not affected by the save. *)
Theorem saved_then_read (env : Env) (saved read id : Z) (cs : list C) db :
  getDanmakuCacheExpireTime env <> 0 ->
  fst (getDanmakuFromCache C env allOk read id
         (snd (saveDanmakuToCache C env allOk saved id cs db)))
  = Resolved (if read - saved >? getDanmakuCacheExpireTime env
              then None else Some cs)
  /\ forall other answers,
       other <> id ->
       fst (getDanmakuFromCache C env answers read other
              (snd (saveDanmakuToCache C env allOk saved id cs db)))
       = fst (getDanmakuFromCache C env answers read other db).
Proof.
  intros Hon. apply Z.eqb_neq in Hon.
  unfold saveDanmakuToCache, getDanmakuFromCache. rewrite Hon.
  cbn [allOk openOk requestOk negb openDB store opened snd fst]. split.
  - rewrite lookup_insert_eq. cbn [timestamp comments].
    now destruct (read - saved >? getDanmakuCacheExpireTime env).
  - intros other answers Hother.
    destruct (negb (openOk answers)); [reflexivity|].
    destruct (negb (requestOk answers)); [reflexivity|].
    rewrite lookup_insert_ne by congruence.
    destruct (store db !! other) as [d|]; [|reflexivity].
    now destruct (_ >? _).
Qed.

(** X15. After [clearDanmakuCache] a read of that episode finds nothing and
    reads of the others are as before; after [clearAllDanmakuCache] no read
    finds anything and the statistics are all zero. *)
Theorem cleared_then_read (env : Env) (now id : Z) db :
  fst (getDanmakuFromCache C env allOk now id
         (snd (clearDanmakuCache C allOk id db))) = Resolved None
  /\ (forall other answers,
        other <> id ->
        fst (getDanmakuFromCache C env answers now other
               (snd (clearDanmakuCache C allOk id db)))
        = fst (getDanmakuFromCache C env answers now other db))
  /\ (forall any,
        fst (getDanmakuFromCache C env allOk now any
               (snd (clearAllDanmakuCache C allOk db))) = Resolved None)
  /\ fst (getDanmakuCacheStats C env allOk now
            (snd (clearAllDanmakuCache C allOk db)))
     = Resolved {| total := 0; expired := 0; totalSize := 0 |}.
Proof.
  unfold clearDanmakuCache, clearAllDanmakuCache, getDanmakuFromCache.
  cbn [allOk openOk requestOk negb openDB store opened snd fst].
  split; [|split; [|split]].
  - rewrite lookup_delete_eq. now destruct (_ =? 0).
  - intros other answers Hother. destruct (_ =? 0); [reflexivity|].
    destruct (negb (openOk answers)); [reflexivity|].
    destruct (negb (requestOk answers)); [reflexivity|].
    rewrite lookup_delete_ne by congruence.
    destruct (store db !! other) as [d|]; [|reflexivity].
    now destruct (_ >? _).
  - intros any. rewrite lookup_empty. now destruct (_ =? 0).
  - unfold getDanmakuCacheStats.
    cbn [allOk openOk requestOk negb openDB store opened snd fst].
    unfold openCursor. now rewrite map_to_list_empty.
Qed.

(** X16. When the database cannot be opened no operation changes the store:
    saving (with caching on), clearing and clearing all reject, a read gives
    [null], a sweep gives 0 and the statistics are all zero. *)
Theorem database_unavailable (env : Env) (answers : Answers) (now id : Z)
    (cs : list C) db :
  openOk answers = false ->
  let closed := openDB C db in
  (getDanmakuCacheExpireTime env <> 0 ->
   saveDanmakuToCache C env answers now id cs db = (Rejected, closed))
  /\ (getDanmakuCacheExpireTime env <> 0 ->
      getDanmakuFromCache C env answers now id db = (Resolved None, closed))
  /\ clearDanmakuCache C answers id db = (Rejected, closed)
  /\ clearExpiredDanmakuCache C env answers now db = (Resolved 0, closed)
  /\ clearAllDanmakuCache C answers db = (Rejected, closed)
  /\ getDanmakuCacheStats C env answers now db
     = (Resolved {| total := 0; expired := 0; totalSize := 0 |}, closed)
  /\ store closed = store db.
Proof.
  intros Hopen. cbv zeta.
  unfold saveDanmakuToCache, getDanmakuFromCache, clearDanmakuCache,
    clearExpiredDanmakuCache, clearAllDanmakuCache, getDanmakuCacheStats.
  rewrite Hopen. cbn [negb].
  repeat split; try reflexivity; intros Hon; apply Z.eqb_neq in Hon;
    now rewrite Hon.
Qed.

End Store.

Lemma sweep_invisible_to_reads_witness :
  fst (getDanmakuFromCache ustring tenMinutes allOk 1700000900000 7
         (snd (clearExpiredDanmakuCache ustring tenMinutes allOk 1700000800000
                 oldAndNew)))
  = fst (getDanmakuFromCache ustring tenMinutes allOk 1700000900000 7 oldAndNew).
Proof.
  apply (sweep_invisible_to_reads tenMinutes allOk 1700000800000 1700000900000 7
           oldAndNew).
  lia.
Defined.

Lemma saved_then_read_witness :
  fst (getDanmakuFromCache ustring tenMinutes allOk 1700000600000 7
         (snd (saveDanmakuToCache ustring tenMinutes allOk 1700000000000 7
                 [str "hello"] emptyDB)))
  = Resolved (Some [str "hello"]).
Proof.
  apply (proj1 (saved_then_read tenMinutes 1700000000000 1700000600000 7
                  [str "hello"] emptyDB ltac:(discriminate))).
Defined.

Lemma database_unavailable_witness :
  clearExpiredDanmakuCache ustring tenMinutes
    {| openOk := false; requestOk := true |} 1700000800000 oldAndNew
  = (Resolved 0, openDB ustring oldAndNew).
Proof.
  apply (database_unavailable tenMinutes {| openOk := false; requestOk := true |}
           1700000800000 7 [] oldAndNew).
  reflexivity.
Defined.

End DanmakuCacheMoreFacts.

(** ** The OpenList configuration route: who saves what *)

Module OpenListMoreFacts.

Import OpenList OpenListMore OpenListFacts.
Local Open Scope Z_scope.



(** X18. A request answered with anything but 200 leaves the stored
    configuration as it was. *)
Theorem failed_request_keeps_config (w : World) (request : Request)
    (stored : AdminConfig) :
  status (fst (POST w request)) <> 200 ->
  storedAfter w request stored = stored.
Proof.
  unfold storedAfter, POST.
  destruct (ueqb _ (str "localstorage")); [reflexivity|].
  destruct (body request) as [b|]; [|reflexivity].
  destruct (cookieUsername request) as [[|c name]|]; try reflexivity.
  destruct (getConfig w) as [adminConfig|]; [|reflexivity].
  destruct (negb (isAdmin w adminConfig (c :: name))); [reflexivity|].
  destruct (action b) as [| | | |a|]; try reflexivity.
  destruct (ueqb a (str "save")); [|reflexivity].
  destruct (_ || _ || _); [reflexivity|].
  destruct (_ && _); [reflexivity|].
  destruct (negb (loginOk w)); [reflexivity|].
  destruct (saveOk w); [|reflexivity].
  intros H. now contradiction H.
Qed.

(** X19. A save request that gets as far as the interval check, with an
    interval not strictly between 0 and 60 that a number holds exactly
    (at most 2^53 either way), a login that succeeds and a save that
    succeeds, is answered 200, and what is stored is the configuration
    read with its OpenList part replaced: the submitted URL, account and
    password, the root path or [/], the parsed interval, and the refresh
    time and resource count it had before. *)
Theorem valid_save_is_stored (w : World) (request : Request) (b : Body)
    (stored : AdminConfig) :
  reachesSave w request b ->
  loginOk w = true -> saveOk w = true ->
  scanIntervalOf (ScanInterval b) <= 0 \/ 60 <= scanIntervalOf (ScanInterval b) ->
  - 2 ^ 53 <= scanIntervalOf (ScanInterval b) <= 2 ^ 53 ->
  fst (POST w request) = json Saved 200
  /\ exists adminConfig,
       getConfig w = Some adminConfig
       /\ storedAfter w request stored
          = {| Users := Users adminConfig;
               OpenListConfig_ := Some
                 {| cfgURL := URL b;
                    cfgUsername := Username b;
                    cfgPassword := Password b;
                    cfgRootPath := if ToBoolean (RootPath b) then RootPath b
                                   else JString (str "/");
                    LastRefreshTime := OpenListConfig_ adminConfig ≫= LastRefreshTime;
                    ResourceCount := OpenListConfig_ adminConfig ≫= ResourceCount;
                    cfgScanInterval := scanIntervalOf (ScanInterval b) |} |}.
Proof.
  intros (Hbody & (c & rest & Hst & Hnl) & (name & adminConfig & Hc & Hne & Hg & Ha)
          & Haction & Hu & Hn & Hp) Hlogin Hsave Hinterval _.
  assert (Hcheck : (scanIntervalOf (ScanInterval b) >? 0)
                   && (scanIntervalOf (ScanInterval b) <? 60) = false).
  { apply andb_false_iff. destruct Hinterval as [H|H].
    - left. destruct (Z.gtb_spec (scanIntervalOf (ScanInterval b)) 0);
        [lia | reflexivity].
    - right. apply Z.ltb_ge. exact H. }
  destruct name as [|c' name]; [congruence|].
  assert (Hpost : POST w request
                  = (json Saved 200,
                     Some {| Users := Users adminConfig;
                             OpenListConfig_ := Some
                               {| cfgURL := URL b;
                                  cfgUsername := Username b;
                                  cfgPassword := Password b;
                                  cfgRootPath := if ToBoolean (RootPath b)
                                                 then RootPath b
                                                 else JString (str "/");
                                  LastRefreshTime :=
                                    OpenListConfig_ adminConfig ≫= LastRefreshTime;
                                  ResourceCount :=
                                    OpenListConfig_ adminConfig ≫= ResourceCount;
                                  cfgScanInterval :=
                                    scanIntervalOf (ScanInterval b) |} |})).
  { unfold POST.
    rewrite Hbody, Haction, Hcheck, Hst, Hc, Hg, Ha, Hu, Hn, Hp, Hlogin, Hsave.
    now rewrite (ueqb_false _ _ Hnl). }
  split; [now rewrite Hpost|].
  exists adminConfig. split; [exact Hg|].
  unfold storedAfter. now rewrite Hpost, Hsave.
Qed.


Lemma failed_request_keeps_config_witness :
  storedAfter redisWorld (ownerRequest (JString (str "45")))
              {| Users := []; OpenListConfig_ := None |}
  = {| Users := []; OpenListConfig_ := None |}.
Proof.
  apply (failed_request_keeps_config redisWorld (ownerRequest (JString (str "45")))).
  discriminate.
Defined.

Lemma valid_save_is_stored_witness :
  fst (POST redisWorld (ownerRequest (JString (str "-5")))) = json Saved 200
  /\ storedAfter redisWorld (ownerRequest (JString (str "-5")))
                 {| Users := []; OpenListConfig_ := None |}
     = {| Users := []; OpenListConfig_ := Some (savedConfig (-5)) |}.
Proof.
  destruct (valid_save_is_stored redisWorld (ownerRequest (JString (str "-5")))
              (saveBody (JString (str "-5")))
              {| Users := []; OpenListConfig_ := None |})
    as (Hstatus & adminConfig & Hread & Hstored).
  - split; [reflexivity|]. split.
    + exists 114%N, (str "edis"). split; [reflexivity | discriminate].
    + split.
      * exists (str "owner"), {| Users := []; OpenListConfig_ := None |}.
        split; [reflexivity|]. split; [discriminate|]. split; reflexivity.
      * repeat split; reflexivity.
  - reflexivity.
  - reflexivity.
  - left. vm_compute. discriminate.
  - vm_compute. split; discriminate.
  - split; [exact Hstatus|]. rewrite Hstored.
    injection Hread as <-. reflexivity.
Defined.

End OpenListMoreFacts.

(** ** Episodes, source changes and the restored position *)

Module PlaybackFacts.

Import JsNumFacts Resume ResumeFacts Progress Playback.
Local Open Scope Z_scope.

(** *** Changing episode *)

Lemma totalEpisodes_Some (d : Scoring.SearchResult) (eps : list ustring) :
  Scoring.episodes d = Some eps ->
  totalEpisodes (Some d) = Z.of_nat (List.length eps).
Proof. intros H. cbn [totalEpisodes]. now rewrite H. Qed.

Lemma perform_in_range (detail : option Scoring.SearchResult) (st : Episode)
    (c : Command) :
  0 <= episodeIndex st < totalEpisodes detail ->
  Forall (fun t => 0 <= t < totalEpisodes detail) (timers st) ->
  0 <= episodeIndex (perform detail st c) < totalEpisodes detail
  /\ Forall (fun t => 0 <= t < totalEpisodes detail) (timers (perform detail st c)).
Proof.
  intros Hidx Htimers.
  destruct c as [k| | | |]; cbn [perform episodeIndex timers].
  - split; [|exact Htimers]. unfold handleEpisodeChange.
    destruct (k >=? 0) eqn:E0; cbn [andb]; [|exact Hidx].
    destruct (k <? totalEpisodes detail) eqn:E1; [|exact Hidx].
    apply Z.ltb_lt in E1. apply Z.geb_le in E0. lia.
  - split; [|exact Htimers]. unfold handlePreviousEpisode.
    destruct detail as [d|]; [|exact Hidx].
    destruct (Scoring.episodes d) as [eps|] eqn:E; [|exact Hidx].
    destruct (Z.gtb_spec (episodeIndex st) 0); lia.
  - split; [|exact Htimers]. unfold handleNextEpisode.
    destruct detail as [d|]; [|exact Hidx].
    destruct (Scoring.episodes d) as [eps|] eqn:E; [|exact Hidx].
    rewrite (totalEpisodes_Some d eps E) in *.
    destruct (Z.ltb_spec (episodeIndex st) (Z.of_nat (List.length eps) - 1)); lia.
  - split; [exact Hidx|]. apply Forall_app. split; [exact Htimers|].
    unfold onEnded. destruct detail as [d|]; [|constructor].
    destruct (Scoring.episodes d) as [eps|] eqn:E; [|constructor].
    rewrite (totalEpisodes_Some d eps E) in *.
    destruct (Z.ltb_spec (episodeIndex st) (Z.of_nat (List.length eps) - 1));
      repeat constructor; lia.
  - destruct (timers st) as [|next later] eqn:E.
    + split; [exact Hidx|]. rewrite E. constructor.
    + cbn [episodeIndex timers]. inversion Htimers; subst. now split.
Qed.

Lemma run_in_range (detail : option Scoring.SearchResult) (commands : list Command)
    (st : Episode) :
  0 <= episodeIndex st < totalEpisodes detail ->
  Forall (fun t => 0 <= t < totalEpisodes detail) (timers st) ->
  0 <= episodeIndex (fold_left (perform detail) commands st) < totalEpisodes detail.
Proof.
  revert st. induction commands as [|c commands IH]; intros st Hidx Htimers;
    [exact Hidx|].
  cbn [fold_left]. destruct (perform_in_range detail st c Hidx Htimers).
  now apply IH.
Qed.

(** X20. Whatever is clicked and whenever playback ends, an episode index
    within the episode list stays within it. *)
Theorem episode_index_stays_in_range (detail : option Scoring.SearchResult)
    (commands : list Command) (idx : Z) :
  0 <= idx < totalEpisodes detail ->
  0 <= episodeIndex (fold_left (perform detail) commands
                               {| episodeIndex := idx; timers := [] |})
    < totalEpisodes detail.
Proof.
  intros Hidx. apply run_in_range; [exact Hidx | constructor].
Qed.

(** *** What is saved is where playback resumes *)

Lemma orZero_number (x : option num) : isNaN (orZero x) = false.
Proof.
  destruct x as [[| | |q]|]; try reflexivity.
  cbn [orZero]. unfold orElse. cbn [truthy]. now destruct (negb (Qzero q)).
Qed.

Lemma floor_positive (x : num) :
  isNaN x = false -> (x <? ofZ 1)%num = false -> (floor x >? n0)%num = true.
Proof.
  destruct x as [| | |q]; try easy. intros _ H. apply lt_Fin_false in H.
  unfold gt. cbn [floor]. apply lt_Fin.
  assert (Hfloor : (1 <= Qfloor q)%Z).
  { rewrite <- (Qfloor_Z 1). now apply Qfloor_resp_le. }
  rewrite <- Zlt_Qlt. lia.
Qed.

Lemma written_record (refs : Refs) (now later : Z) (saveOk : bool)
    (src id : ustring) (record : PlayRecord) :
  written (saveCurrentPlayProgress refs now later saveOk) = Some (src, id, record) ->
  exists player,
    artPlayerRef refs = Some player
    /\ (orZero (currentTime player) <? ofZ 1)%num = false
    /\ index record = currentEpisodeIndexRef refs + 1
    /\ play_time record = floor (orZero (currentTime player))
    /\ total_time record = floor (orZero (duration player)).
Proof.
  unfold saveCurrentPlayProgress.
  destruct (artPlayerRef refs) as [player|]; [|discriminate].
  destruct (present (currentSourceRef refs)); [|discriminate].
  destruct (present (currentIdRef refs)); [|discriminate].
  destruct (present (videoTitleRef refs)); [|discriminate].
  destruct (detailRef refs) as [d|]; [|discriminate].
  destruct (source_name d); [discriminate|].
  destruct (orZero (currentTime player) <? ofZ 1)%num eqn:E; [discriminate|].
  cbn [orb]. destruct (negb (truthy _)); [discriminate|].
  cbn [written]. intros [= _ _ <-]. exists player. now repeat split.
Qed.

(** X22. A record written by [saveCurrentPlayProgress], read back by
    [initAll], restores the episode that was playing when the episode is
    within the list read, and leaves the index alone when it is not; either
    way the position to resume is the whole seconds that were saved, at
    least 1, and the next canplay event seeks there, or to 5 seconds before
    the end when that is within 2 seconds of it. *)
Theorem saved_progress_resumes (refs : Refs) (now later : Z) (saveOk : bool)
    (src id : ustring) (record : PlayRecord)
    (episodeCount idx0 : Z) (resume0 : option num) (playerDuration : num) :
  written (saveCurrentPlayProgress refs now later saveOk) = Some (src, id, record) ->
  restorePlayRecord (Some record) episodeCount idx0 resume0
  = (if (currentEpisodeIndexRef refs <? episodeCount)
        && (currentEpisodeIndexRef refs >=? 0)
     then currentEpisodeIndexRef refs else idx0,
     Some (play_time record))
  /\ (play_time record >? n0)%num = true
  /\ seek (onCanPlay (Some (play_time record)) playerDuration)
     = Some (if truthy (orElse playerDuration n0)
                && (play_time record >=? orElse playerDuration n0 - n2)%num
             then max n0 (orElse playerDuration n0 - n5)%num
             else play_time record).
Proof.
  intros Hwritten.
  destruct (written_record _ _ _ _ _ _ _ Hwritten)
    as (player & _ & Hone & Hindex & Htime & _).
  assert (Hpos : (play_time record >? n0)%num = true).
  { rewrite Htime. apply floor_positive; [apply orZero_number | exact Hone]. }
  split; [|split; [exact Hpos|]].
  - unfold restorePlayRecord. rewrite Hindex.
    now replace (currentEpisodeIndexRef refs + 1 - 1) with (currentEpisodeIndexRef refs)
      by lia.
  - unfold onCanPlay. cbn [seek].
    now rewrite (positive_truthy _ Hpos), Hpos.
Qed.

(** *** Changing source *)

Lemma time_above_one (t : num) :
  (t >? ofZ 1)%num = true -> orZero (Some t) = t /\ (t >? n0)%num = true.
Proof.
  intros H. assert (Hpos : (t >? n0)%num = true).
  { destruct t as [| | |q]; try easy. unfold gt in *. apply lt_Fin in H.
    apply lt_Fin. change (inject_Z 0) with 0%Q. change (inject_Z 1) with 1%Q in H.
    lra. }
  split; [|exact Hpos]. cbn [orZero]. unfold orElse.
  now rewrite (positive_truthy _ Hpos).
Qed.

(** X23. A change to a source that has the episode playing keeps the
    episode. With no resume position pending and the player more than 1
    second in, the position is carried over and the next canplay event seeks
    to it (or to 5 seconds before the end); a resume position that is
    pending is kept instead. *)
Theorem source_change_keeps_position (answers : Storage)
    (availableSources : list Scoring.SearchResult) (newSource newId : ustring)
    (p : Page) (newDetail : Scoring.SearchResult) (eps : list ustring) :
  List.find (fun s => ueqb (Scoring.source s) newSource
                      && ueqb (Scoring.id s) newId) availableSources
  = Some newDetail ->
  Scoring.episodes newDetail = Some eps ->
  currentEpisodeIndex p < Z.of_nat (List.length eps) ->
  let after := handleSourceChange answers availableSources newSource newId p in
  currentEpisodeIndex after = currentEpisodeIndex p
  /\ currentSource after = newSource /\ currentId after = newId
  /\ detail after = Some newDetail
  /\ (noResume (resumeTimeRef p) = false -> resumeTimeRef after = resumeTimeRef p)
  /\ (forall t playerDuration,
        noResume (resumeTimeRef p) = true ->
        playerCurrentTime p = Some t -> (t >? ofZ 1)%num = true ->
        resumeTimeRef after = Some t
        /\ seek (onCanPlay (resumeTimeRef after) playerDuration)
           = Some (if truthy (orElse playerDuration n0)
                      && (t >=? orElse playerDuration n0 - n2)%num
                   then max n0 (orElse playerDuration n0 - n5)%num
                   else t)).
Proof.
  intros Hfind Heps Hidx. cbv zeta. unfold handleSourceChange.
  rewrite Hfind, Heps.
  assert (Hin : (currentEpisodeIndex p >=? Z.of_nat (List.length eps)) = false).
  { destruct (Z.geb_spec (currentEpisodeIndex p) (Z.of_nat (List.length eps)));
      [lia | reflexivity]. }
  rewrite Hin, Z.eqb_refl.
  cbn [negb currentEpisodeIndex currentSource currentId detail resumeTimeRef].
  repeat (split; [reflexivity|]). split.
  - intros Hpending. now rewrite Hpending.
  - intros t playerDuration Hnone Ht Hone. rewrite Hnone, Ht.
    destruct (time_above_one t Hone) as [-> Hpos]. rewrite Hone. cbn [andb].
    split; [reflexivity|]. unfold onCanPlay. cbn [seek].
    now rewrite (positive_truthy _ Hpos), Hpos.
Qed.

(** X24. A change to a source that lacks the episode playing, or has no
    episode list, goes to its first episode and resumes nowhere: the next
    canplay event does not seek. *)
Theorem source_change_out_of_range (answers : Storage)
    (availableSources : list Scoring.SearchResult) (newSource newId : ustring)
    (p : Page) (newDetail : Scoring.SearchResult) (playerDuration : num) :
  List.find (fun s => ueqb (Scoring.source s) newSource
                      && ueqb (Scoring.id s) newId) availableSources
  = Some newDetail ->
  0 < currentEpisodeIndex p ->
  (forall eps, Scoring.episodes newDetail = Some eps ->
               Z.of_nat (List.length eps) <= currentEpisodeIndex p) ->
  let after := handleSourceChange answers availableSources newSource newId p in
  currentEpisodeIndex after = 0
  /\ resumeTimeRef after = Some n0
  /\ detail after = Some newDetail
  /\ seek (onCanPlay (resumeTimeRef after) playerDuration) = None.
Proof.
  intros Hfind Hpos Hout. cbv zeta. unfold handleSourceChange. rewrite Hfind.
  assert (Hreset : match Scoring.episodes newDetail with
                   | Some eps =>
                       currentEpisodeIndex p >=? Z.of_nat (List.length eps)
                   | None => true
                   end = true).
  { destruct (Scoring.episodes newDetail) as [eps|]; [|reflexivity].
    apply Z.geb_le. now apply Hout. }
  rewrite Hreset.
  assert (Hne : (0 =? currentEpisodeIndex p) = false) by (apply Z.eqb_neq; lia).
  rewrite Hne. cbn [negb currentEpisodeIndex resumeTimeRef detail].
  repeat split; reflexivity.
Qed.

(** X25. A change to a source that is not among the available ones changes
    neither source, episode nor resume position and raises the error, but by
    then the play record of the current source is deleted and its skip
    configuration moved to the new key. *)
Theorem unknown_source_still_forgets (availableSources : list Scoring.SearchResult)
    (newSource newId : ustring) (p : Page) :
  List.find (fun s => ueqb (Scoring.source s) newSource
                      && ueqb (Scoring.id s) newId) availableSources = None ->
  currentSource p <> [] -> currentId p <> [] ->
  let after := handleSourceChange storageOk availableSources newSource newId p in
  notFound after = true
  /\ currentSource after = currentSource p /\ currentId after = currentId p
  /\ currentEpisodeIndex after = currentEpisodeIndex p
  /\ resumeTimeRef after = resumeTimeRef p
  /\ detail after = detail p
  /\ playRecords after = delete (currentSource p, currentId p) (playRecords p)
  /\ skipConfigs after !! (newSource, newId) = Some (skipConfigRef p)
  /\ ((newSource, newId) <> (currentSource p, currentId p) ->
      skipConfigs after !! (currentSource p, currentId p) = None).
Proof.
  intros Hfind Hsource Hid. cbv zeta. unfold handleSourceChange. rewrite Hfind.
  destruct (currentSource p) as [|c s] eqn:Es; [congruence|].
  destruct (currentId p) as [|c' i] eqn:Ei; [congruence|].
  cbn [nonEmpty andb storageOk deletePlayRecordOk deleteSkipConfigOk saveSkipConfigOk
       notFound currentSource currentId currentEpisodeIndex resumeTimeRef detail
       playRecords skipConfigs].
  repeat (split; [reflexivity|]). split.
  - apply lookup_insert_eq.
  - intros Hne. rewrite lookup_insert_ne by exact Hne. apply lookup_delete_eq.
Qed.

(** *** Saving on time updates *)

Lemma saveTimes_spaced (storageType : option ustring) (events : list SaveEvent)
    (from last : Z) :
  from <= last -> monotone last events ->
  spaced (saveInterval storageType) from (saveTimes storageType last events).
Proof.
  revert from last. induction events as [|[now|now] later IH];
    intros from last Hfrom Hmono; [exact I| |]; cbn [monotone reading] in Hmono;
    destruct Hmono as [Hnow Hlater]; cbn [saveTimes].
  - unfold onTimeUpdateSave.
    destruct (Z.gtb_spec (now - last) (saveInterval storageType)) as [Hgap|Hgap];
      cbn [app].
    + split; [lia|]. apply IH; [lia | exact Hlater].
    + apply IH; [exact Hfrom|].
      destruct later as [|next later']; [exact I|].
      cbn [monotone] in *. split; [lia | apply Hlater].
  - apply IH; [lia | exact Hlater].
Qed.

(** X21. Under a clock that is never set back, whatever time updates
    arrive and whenever saves resolve in between, two saves that time
    updates trigger are more than the interval apart, 5 s or 20 s for
    upstash, and the first comes more than the interval after the value
    [lastSaveTimeRef] started with. *)
Theorem saves_are_spaced (storageType : option ustring) (events : list SaveEvent)
    (lastSaveTimeRef : Z) :
  monotone lastSaveTimeRef events ->
  spaced (saveInterval storageType) lastSaveTimeRef
         (saveTimes storageType lastSaveTimeRef events)
  /\ (saveInterval storageType = 20000 <-> storageType = Some (str "upstash"))
  /\ (saveInterval storageType = 5000 <-> storageType <> Some (str "upstash")).
Proof.
  intros Hmono.
  split; [apply saveTimes_spaced; [lia | exact Hmono]|]. unfold saveInterval, ueqb.
  destruct storageType as [s|].
  - destruct (bool_decide (s = str "upstash")) eqn:E.
    + apply bool_decide_eq_true in E. subst s. split; split; try easy.
    + apply bool_decide_eq_false in E. split; split; try easy; try congruence.
  - split; split; easy.
Qed.

Lemma saves_are_spaced_witness :
  saveTimes None 0 steadyClock = [6000; 11201; 16301]
  /\ spaced 5000 0 [6000; 11201; 16301].
Proof.
  split; [reflexivity|].
  refine (proj1 (saves_are_spaced None steadyClock 0 _)).
  cbn. lia.
Defined.

(** With a clock that is set back between two time updates, saves can
    come closer together than the interval. *)
Lemma clock_set_back_saves_early :
  saveTimes None 0 clockSetBack = [10000; 8500]
  /\ ~ spaced (saveInterval None) 0 (saveTimes None 0 clockSetBack).
Proof.
  split; [reflexivity|]. intros H.
  change (5000 < 10000 - 0 /\ 5000 < 8500 - 10000 /\ True) in H. lia.
Qed.

Lemma episode_index_stays_in_range_witness :
  0 <= episodeIndex (fold_left (perform (Some (twoEpisodes "s1")))
                               [NextEpisode; Ended; NextEpisode; TimerFires;
                                EpisodeChange 5; PreviousEpisode]
                               {| episodeIndex := 0; timers := [] |})
    < totalEpisodes (Some (twoEpisodes "s1")).
Proof.
  apply (episode_index_stays_in_range (Some (twoEpisodes "s1"))
           [NextEpisode; Ended; NextEpisode; TimerFires; EpisodeChange 5; PreviousEpisode]
           0).
  vm_compute. split; [discriminate | reflexivity].
Defined.

Lemma saved_progress_resumes_witness :
  restorePlayRecord (Some savedRecord) 2 0 None = (0, Some (ofZ 12))
  /\ seek (onCanPlay (Some (play_time savedRecord)) (ofZ 1200)) = Some (ofZ 12).
Proof.
  destruct (saved_progress_resumes
              (sampleRefs {| currentTime := Some (dec 125 10);
                             duration := Some (ofZ 1200) |})
              5000 5001 true (str "ruyi") (str "42") savedRecord 2 0 None (ofZ 1200))
    as (Hrestore & _ & Hseek); [reflexivity|].
  split; [exact Hrestore | exact Hseek].
Defined.

Lemma source_change_keeps_position_witness :
  resumeTimeRef (handleSourceChange storageOk [twoEpisodes "s1"; twoEpisodes "s2"]
                                    (str "s2") (str "7") (watching (ofZ 300)))
  = Some (ofZ 300).
Proof.
  destruct (source_change_keeps_position storageOk
              [twoEpisodes "s1"; twoEpisodes "s2"] (str "s2") (str "7")
              (watching (ofZ 300)) (twoEpisodes "s2") [str "1.m3u8"; str "2.m3u8"])
    as (_ & _ & _ & _ & _ & Hcarry); [reflexivity | reflexivity | reflexivity |].
  apply (Hcarry (ofZ 300) n0); reflexivity.
Defined.

Lemma source_change_out_of_range_witness :
  currentEpisodeIndex (handleSourceChange storageOk [twoEpisodes "s1"; Scoring.oneEpisode]
                                          (str "b") (str "2") (watching (ofZ 300)))
  = 0
  /\ seek (onCanPlay (resumeTimeRef
                        (handleSourceChange storageOk [twoEpisodes "s1"; Scoring.oneEpisode]
                                            (str "b") (str "2") (watching (ofZ 300))))
                     (ofZ 1200)) = None.
Proof.
  destruct (source_change_out_of_range storageOk [twoEpisodes "s1"; Scoring.oneEpisode]
              (str "b") (str "2") (watching (ofZ 300)) Scoring.oneEpisode (ofZ 1200))
    as (Hindex & _ & _ & Hseek);
    [reflexivity | reflexivity | intros eps [= <-]; discriminate |].
  split; [exact Hindex | exact Hseek].
Defined.

Lemma unknown_source_still_forgets_witness :
  notFound (handleSourceChange storageOk [twoEpisodes "s1"] (str "s9") (str "7")
                               (watching (ofZ 300))) = true
  /\ skipConfigs (handleSourceChange storageOk [twoEpisodes "s1"] (str "s9") (str "7")
                                     (watching (ofZ 300)))
     !! (str "s9", str "7") = Some Skip.introConfig.
Proof.
  destruct (unknown_source_still_forgets [twoEpisodes "s1"] (str "s9") (str "7")
              (watching (ofZ 300)))
    as (Herror & _ & _ & _ & _ & _ & _ & Hskip & _);
    [reflexivity | discriminate | discriminate |].
  split; [exact Herror | exact Hskip].
Defined.

End PlaybackFacts.

(** ** The danmaku filter *)

Module DanmakuFilterFacts.

Import DanmakuFilter.

Section Filter.

Variable regExpTest : ustring -> ustring -> option bool.

Lemma rulesLoop_false (rules : list Rule) (text : ustring) :
  rulesLoop regExpTest rules text = false
  <-> exists rule, In rule rules /\ hides regExpTest text rule.
Proof.
  induction rules as [|rule rest IH]; cbn [rulesLoop].
  - split; [discriminate | now intros (rule & [] & _)].
  - unfold ueqb.
    destruct (enabled rule) eqn:Hen; cbn [negb].
    2:{ rewrite IH. split.
        - intros (r & Hin & Hr). exists r. split; [now right | exact Hr].
        - intros (r & [<-|Hin] & Hr); [|now exists r].
          destruct Hr as [Hr _]. congruence. }
    destruct (bool_decide (type rule = str "normal")) eqn:Hn.
    { apply bool_decide_eq_true in Hn.
      destruct (includes text (keyword rule)) eqn:Hinc.
      - split; [|reflexivity]. intros _. exists rule. split; [now left|].
        split; [exact Hen|]. left. now split.
      - rewrite IH. split.
        + intros (r & Hin & Hr). exists r. split; [now right | exact Hr].
        + intros (r & [<-|Hin] & Hr); [|now exists r].
          destruct Hr as [_ [[_ Hr]|[Hr _]]]; [congruence|].
          rewrite Hn in Hr. discriminate Hr. }
    apply bool_decide_eq_false in Hn.
    destruct (bool_decide (type rule = str "regex")) eqn:Hr.
    { apply bool_decide_eq_true in Hr.
      destruct (regExpTest (keyword rule) text) as [[|]|] eqn:Htest.
      - split; [|reflexivity]. intros _. exists rule. split; [now left|].
        split; [exact Hen|]. right. now split.
      - rewrite IH. split.
        + intros (r & Hin & Hh). exists r. split; [now right | exact Hh].
        + intros (r & [<-|Hin] & Hh); [|now exists r].
          destruct Hh as [_ [[Hh _]|[_ Hh]]]; congruence.
      - rewrite IH. split.
        + intros (r & Hin & Hh). exists r. split; [now right | exact Hh].
        + intros (r & [<-|Hin] & Hh); [|now exists r].
          destruct Hh as [_ [[Hh _]|[_ Hh]]]; congruence. }
    apply bool_decide_eq_false in Hr. rewrite IH. split.
    + intros (r & Hin & Hh). exists r. split; [now right | exact Hh].
    + intros (r & [<-|Hin] & Hh); [|now exists r].
      destruct Hh as [_ [[Hh _]|[Hh _]]]; congruence.
Qed.

Lemma filter_rulesLoop (rules : list Rule) (text : ustring) :
  filter regExpTest (Some rules) text = rulesLoop regExpTest rules text.
Proof. now destruct rules. Qed.

(** X26. A comment is dropped exactly when some enabled rule matches it, a
    normal rule by containment and a regex rule by a test that succeeds; a
    rule of another type, or a regex rule that does not compile, drops
    nothing and does not stop the rules after it. So the order of the rules
    does not matter. *)
Theorem danmaku_hidden_iff (rules : list Rule) (text : ustring) :
  (filter regExpTest (Some rules) text = false
   <-> exists rule, In rule rules /\ hides regExpTest text rule)
  /\ (forall reordered,
        rules ≡ₚ reordered ->
        filter regExpTest (Some reordered) text
        = filter regExpTest (Some rules) text)
  /\ filter regExpTest None text = true.
Proof.
  split; [|split; [|reflexivity]].
  - rewrite filter_rulesLoop. apply rulesLoop_false.
  - intros reordered Hperm. rewrite !filter_rulesLoop.
    apply eq_true_iff_eq. rewrite <- !not_false_iff_true, !rulesLoop_false.
    split; intros Hnone (r & Hin & Hh); apply Hnone; exists r; split;
      try exact Hh.
    + now apply (Permutation_in r Hperm).
    + symmetry in Hperm. now apply (Permutation_in r Hperm).
Qed.

Lemma includes_empty (text : ustring) : includes text [] = true.
Proof. now destruct text. Qed.

(** X27. An enabled normal rule with an empty keyword drops every comment. *)
Theorem empty_keyword_hides_all (rules : list Rule) (rule : Rule) (text : ustring) :
  In rule rules ->
  enabled rule = true -> type rule = str "normal" -> keyword rule = [] ->
  filter regExpTest (Some rules) text = false.
Proof.
  intros Hin Hen Htype Hkey. rewrite filter_rulesLoop. apply rulesLoop_false.
  exists rule. split; [exact Hin|]. split; [exact Hen|]. left.
  split; [exact Htype|]. rewrite Hkey. apply includes_empty.
Qed.

End Filter.

Lemma empty_keyword_hides_all_witness :
  filter noRegExp
         (Some (blockSpoilers
                ++ [ {| enabled := true; type := str "normal"; keyword := [] |} ]))
         (str "hello") = false.
Proof.
  apply (empty_keyword_hides_all noRegExp
           (blockSpoilers
            ++ [ {| enabled := true; type := str "normal"; keyword := [] |} ])
           {| enabled := true; type := str "normal"; keyword := [] |} (str "hello")).
  - cbn. tauto.
  - reflexivity.
  - reflexivity.
  - reflexivity.
Defined.

End DanmakuFilterFacts.

(** ** The volume keys *)

Module KeyboardFacts.

Import Floats Double Keyboard.
Local Open Scope float_scope.
#[local] Set Warnings "-inexact-float".

Lemma tenths_cases (k : Z) :
  (0 <= k <= 10)%Z ->
  In k [0; 1; 2; 3; 4; 5; 6; 7; 8; 9; 10]%Z.
Proof. intros H. cbn [In]. lia. Qed.

Lemma arrow_tenths (k : Z) :
  (0 <= k <= 10)%Z ->
  arrowUp (tenths k) = tenths (Z.min (k + 1) 10)
  /\ arrowDown (tenths k) = tenths (Z.max (k - 1) 0).
Proof.
  intros H. apply tenths_cases in H. cbn [In] in H.
  decompose [or] H; subst; try contradiction; split; vm_compute; reflexivity.
Qed.

Lemma press_on_grid (volume : double) (key : Key) :
  onGrid volume -> onGrid (press volume key).
Proof.
  intros (k & Hk & ->). destruct (arrow_tenths k Hk) as [Hup Hdown].
  destruct key; cbn [press].
  - exists (Z.min (k + 1) 10). split; [lia | exact Hup].
  - exists (Z.max (k - 1) 0). split; [lia | exact Hdown].
Qed.

(** X28. In binary64, from a volume that is one of 0, 0.1, 0.2, ..., 1,
    the up key gives the next of them, stopping at 1, the down key the
    one before, stopping at 0, and whatever keys follow the volume stays
    one of them. *)
Theorem volume_keys_stay_on_grid (volume : double) (k : Z) (keys : list Key) :
  (0 <= k <= 10)%Z -> volume = tenths k ->
  arrowUp volume = tenths (Z.min (k + 1) 10)
  /\ arrowDown volume = tenths (Z.max (k - 1) 0)
  /\ onGrid (fold_left press keys volume).
Proof.
  intros Hk ->. destruct (arrow_tenths k Hk) as [Hup Hdown].
  split; [exact Hup|]. split; [exact Hdown|].
  assert (Hgrid : onGrid (tenths k)) by now exists k.
  revert Hgrid. generalize (tenths k). clear.
  induction keys as [|key keys IH]; intros volume Hgrid; [exact Hgrid|].
  cbn [fold_left]. apply IH. now apply press_on_grid.
Qed.

Lemma volume_keys_stay_on_grid_witness :
  arrowUp 0.7 = 0.8
  /\ arrowDown 0.7 = 0.6
  /\ onGrid (fold_left press [ArrowUp; ArrowUp; ArrowUp; ArrowUp; ArrowDown] 0.7).
Proof.
  apply (volume_keys_stay_on_grid 0.7 7
           [ArrowUp; ArrowUp; ArrowUp; ArrowUp; ArrowDown]).
  - lia.
  - reflexivity.
Defined.

(** Off those eleven the keys follow the rounded sums: one tenth below
    0.35 is 0.2, and one above 0.95 is 1.1. *)
Lemma volume_off_grid : arrowDown 0.35 = 0.2 /\ arrowUp 0.95 = 1.1.
Proof. split; reflexivity. Qed.

End KeyboardFacts.

(** ** Fetching the custom filter code *)

Module AdFilterCodeFacts.

Import AdFilterCode.
Local Open Scope Z_scope.


(** X30. Once a run has stored non-empty code under an integer version whose
    text parses back to it, a further run against the same server asks for
    the version only and changes nothing. *)
Theorem second_run_fetches_version_only (server : Server) (storage : LocalStorage)
    (version : Version) (number : Z) (text code : ustring) :
  versionResponse server = Some version ->
  integerValue version = Some number ->
  versionText version = Some text ->
  text <> [] -> parseInt text = Some number ->
  fullResponse server = Some (Some code) -> code <> [] ->
  versionDiffers (custom_ad_filter_version_cache storage) version = true ->
  let first := fetchAdFilterCode true server [] storage in
  let second := fetchAdFilterCode true server (customAdFilterCodeRef first)
                                  (localStorage first) in
  customAdFilterCodeRef first = code
  /\ localStorage first
     = {| custom_ad_filter_code_cache := Some code;
          custom_ad_filter_version_cache := Some text |}
  /\ requests first = [FetchVersion; FetchFull]
  /\ requests second = [FetchVersion]
  /\ customAdFilterCodeRef second = code
  /\ localStorage second = localStorage first.
Proof.
  intros Hv Hint Htext Hne Hparse Hfull Hcode Hdiff. cbv zeta.
  destruct code as [|c code]; [congruence|].
  destruct text as [|t text]; [congruence|].
  assert (Hfirst : fetchAdFilterCode true server [] storage
                   = {| customAdFilterCodeRef := c :: code;
                        localStorage :=
                          {| custom_ad_filter_code_cache := Some (c :: code);
                             custom_ad_filter_version_cache := Some (t :: text) |};
                        requests := [FetchVersion; FetchFull] |}).
  { unfold fetchAdFilterCode. cbn [negb]. now rewrite Hv, Hdiff, Hfull, Htext. }
  rewrite Hfirst. cbn [customAdFilterCodeRef localStorage requests].
  repeat (split; [reflexivity|]).
  unfold fetchAdFilterCode, versionDiffers.
  cbn [negb custom_ad_filter_code_cache custom_ad_filter_version_cache].
  rewrite Hv, Hparse, Hint, Z.eqb_refl. cbn [negb]. repeat split; reflexivity.
Qed.


Lemma second_run_fetches_version_only_witness :
  requests (fetchAdFilterCode true serverWithCode
              (customAdFilterCodeRef
                 (fetchAdFilterCode true serverWithCode [] emptyStorage))
              (localStorage (fetchAdFilterCode true serverWithCode [] emptyStorage)))
  = [FetchVersion].
Proof.
  refine (proj1 (proj2 (proj2 (proj2
           (second_run_fetches_version_only serverWithCode emptyStorage versionThree 3
              (str "3") (str "function filterAdsFromM3U8(){}")
              eq_refl eq_refl eq_refl _ eq_refl eq_refl _ eq_refl)))));
    discriminate.
Defined.

End AdFilterCodeFacts.
